(** * StaticCodeViewer: the offline structural extractor

    A shallow embedding of [services/geminiService.ts] ([generateId],
    [determineEndLine], [analyzeCodebase]) together with the types of
    [types.ts], and the properties of the extractor proved over it.  The
    readers of the graph in [App.tsx] ([getCodeSnippet], [searchResults])
    and the upload filter of [FileUploader.tsx] ([handleFileChange]) are
    embedded as well.

    JavaScript strings are sequences of UTF-16 code units; a code unit is a
    natural number here and a string a list of them.  The regular
    expressions of the source are kept as syntax and run by a backtracking
    matcher that follows the ECMAScript semantics for the constructs used
    (greedy quantifiers, ordered alternation, capture groups, [^] and [$]
    without the multiline flag, leftmost match). *)

From Stdlib Require Import List ZArith NArith Lia Bool Arith.
From Stdlib Require Strings.String Strings.Ascii Numbers.DecimalString.
Import ListNotations String.StringSyntax.
Delimit Scope string_scope with string.

(* ================================================================== *)
(** ** JavaScript strings *)

Module JSString.

Definition char := N.
Definition str := list char.

(** A source literal, read as its code units. *)
Definition lit (s : String.string) : str :=
  map Ascii.N_of_ascii (String.list_ascii_of_string s).
Arguments lit s%_string.

Fixpoint str_eqb (a b : str) : bool :=
  match a, b with
  | [], [] => true
  | x :: a', y :: b' => N.eqb x y && str_eqb a' b'
  | _, _ => false
  end.

(** [\s] and the characters removed by [trim]: WhiteSpace and
    LineTerminator of ECMAScript. *)
Definition is_space (c : char) : bool :=
  ((9 <=? c) && (c <=? 13) || (c =? 32) || (c =? 160) || (c =? 5760)
   || (8192 <=? c) && (c <=? 8202) || (c =? 8232) || (c =? 8233)
   || (c =? 8239) || (c =? 8287) || (c =? 12288) || (c =? 65279))%N.

(** [\w] is [A-Za-z0-9_]. *)
Definition is_word (c : char) : bool :=
  ((65 <=? c) && (c <=? 90) || (97 <=? c) && (c <=? 122)
   || (48 <=? c) && (c <=? 57) || (c =? 95))%N.

(** [.] is anything but a line terminator. *)
Definition is_dot (c : char) : bool :=
  negb ((c =? 10) || (c =? 13) || (c =? 8232) || (c =? 8233))%N.

Fixpoint dropWhile (p : char -> bool) (s : str) : str :=
  match s with
  | [] => []
  | c :: s' => if p c then dropWhile p s' else s
  end.

Definition trimStart (s : str) : str := dropWhile is_space s.
Definition trimEnd (s : str) : str := rev (dropWhile is_space (rev s)).
(** [String.prototype.trim] *)
Definition trim (s : str) : str := trimEnd (trimStart s).

Fixpoint startsWith (s p : str) {struct p} : bool :=
  match p, s with
  | [], _ => true
  | x :: p', y :: s' => N.eqb x y && startsWith s' p'
  | _ :: _, [] => false
  end.

(** [String.prototype.endsWith] *)
Definition endsWith (s p : str) : bool := startsWith (rev s) (rev p).

(** [String.prototype.includes]: [p] occurs in [s] at some offset. *)
Fixpoint includes (s p : str) : bool :=
  startsWith s p ||
  match s with
  | [] => false
  | _ :: s' => includes s' p
  end.

(** [String.prototype.split] with a one-character separator. *)
Fixpoint split (s : str) (sep : char) : list str :=
  match s with
  | [] => [[]]
  | c :: s' =>
      if N.eqb c sep then [] :: split s' sep
      else match split s' sep with
           | h :: t => (c :: h) :: t
           | [] => [[c]]
           end
  end.

(** [Array.prototype.pop] as used on the result of [split]: the last
    element, [None] for [undefined]. *)
Definition pop (l : list str) : option str :=
  match rev l with
  | [] => None
  | x :: _ => Some x
  end.

(** [Array.prototype.includes] on an array of strings. *)
Definition array_includes (l : list str) (x : str) : bool :=
  existsb (str_eqb x) l.

(** A number spliced into a template literal.  Only integers occur; the
    decimal form below is the one JavaScript prints for integers of
    magnitude below 2^53, which covers every count.  A larger depth is a
    double that prints by its shortest digits or in exponent notation;
    no statement below depends on the digits of the depth. *)
Definition number_toString (z : Z) : str :=
  lit (DecimalString.NilZero.string_of_int (Z.to_int z)).

End JSString.
Import JSString.

(* ================================================================== *)
(** ** Regular expressions *)

Module Regex.

Inductive re : Type :=
| Eps                                   (* empty pattern *)
| Chr (p : char -> bool)                (* a character class *)
| Lit (s : str)                         (* literal text *)
| Seq (r1 r2 : re)
| Alt (r1 r2 : re)                      (* r1|r2, r1 tried first *)
| Star (r : re)                         (* r*, greedy *)
| Grp (i : nat) (r : re)                (* capture group number i *)
| Bol                                   (* ^ *)
| Eol.                                  (* $ *)

Definition Plus (r : re) : re := Seq r (Star r).       (* r+ *)
Definition Opt (r : re) : re := Alt r Eps.             (* r? *)

(** Captures: group number and captured text, most recent first. *)
Definition captures := list (nat * str).

Fixpoint group (i : nat) (cs : captures) : option str :=
  match cs with
  | [] => None
  | (j, s) :: cs' => if Nat.eqb i j then Some s else group i cs'
  end.

(** The iterations of [r*], greedy: one more match of the body [step] if
    it consumes something, otherwise (and on backtracking) the rest of the
    pattern [k].  An iteration that consumes nothing is rejected, as in
    ECMAScript, so the iterations allowed by [fuel], one more than the
    length of the input, are never used up. *)
Fixpoint star_loop (step : str -> captures -> (str -> captures -> option captures)
                           -> option captures)
         (k : str -> captures -> option captures)
         (fuel : nat) (s : str) (cs : captures) {struct fuel} : option captures :=
  match fuel with
  | O => k s cs
  | S fuel' =>
      match step s cs
              (fun s' cs' =>
                 if Nat.ltb (length s') (length s) then star_loop step k fuel' s' cs'
                 else None) with
      | Some res => Some res
      | None => k s cs
      end
  end.

(** [rmatch r n s cs k]: match [r] at the head of the remaining input [s]
    of a subject of length [n], then continue with [k]; [None] makes the
    caller backtrack. *)
Fixpoint rmatch (r : re) (n : nat) (s : str) (cs : captures)
         (k : str -> captures -> option captures) {struct r} : option captures :=
  match r with
  | Eps => k s cs
  | Chr p =>
      match s with
      | c :: s' => if p c then k s' cs else None
      | [] => None
      end
  | Lit t => if startsWith s t then k (skipn (length t) s) cs else None
  | Seq r1 r2 => rmatch r1 n s cs (fun s' cs' => rmatch r2 n s' cs' k)
  | Alt r1 r2 =>
      match rmatch r1 n s cs k with
      | Some res => Some res
      | None => rmatch r2 n s cs k
      end
  | Star r1 =>
      star_loop (fun s' cs' k' => rmatch r1 n s' cs' k') k (S (length s)) s cs
  | Grp i r1 =>
      rmatch r1 n s cs
        (fun s' cs' => k s' ((i, firstn (length s - length s') s) :: cs'))
  | Bol => if Nat.eqb (length s) n then k s cs else None
  | Eol => match s with [] => k s cs | _ :: _ => None end
  end.

(** Leftmost match: the offsets are tried in increasing order. *)
Fixpoint exec_from (r : re) (n : nat) (s : str) (off : nat) : option (nat * captures) :=
  match rmatch r n s [] (fun _ cs => Some cs) with
  | Some cs => Some (off, cs)
  | None =>
      match s with
      | [] => None
      | _ :: s' => exec_from r n s' (S off)
      end
  end.

Definition exec (r : re) (s : str) : option (nat * captures) :=
  exec_from r (length s) s 0.

(** [s.match(r)] for a regular expression without the [g] flag: [None] is
    [null], otherwise the capture groups. *)
Definition str_match (s : str) (r : re) : option captures :=
  option_map snd (exec r s).

(** [s.search(r)] *)
Definition search (s : str) (r : re) : Z :=
  match exec r s with
  | Some (off, _) => Z.of_nat off
  | None => -1
  end.

(** [(s.match(/c/g) || []).length] for a one-character pattern. *)
Definition match_count (s : str) (c : char) : Z :=
  Z.of_nat (length (filter (N.eqb c) s)).

Definition seq_of (rs : list re) : re := fold_right Seq Eps rs.

End Regex.
Import Regex.

Definition cls (s : String.string) (c : char) : bool := existsb (N.eqb c) (lit s).
Arguments cls s%_string c.
Definition space := Chr is_space.
Definition word := Chr is_word.
Definition nonspace := Chr (fun c => negb (is_space c)).

(* ================================================================== *)
(** ** types.ts *)

Record CodeFile := { name : str; path : str; content : str }.

Inductive NodeType := FILE | CLASS | FUNCTION | MODULE.

Definition NodeType_eqb (a b : NodeType) : bool :=
  match a, b with
  | FILE, FILE | CLASS, CLASS | FUNCTION, FUNCTION | MODULE, MODULE => true
  | _, _ => false
  end.

(** The extractor fills [file], [startLine], [endLine] and [details] of
    every node it builds and never writes [line]. *)
Record GraphNode := {
  id : str;
  label : str;
  type : NodeType;
  file : str;
  startLine : nat;
  endLine : nat;
  details : str
}.

Inductive LinkType := IMPORT | CALL | INHERITANCE | CONTAINS.

Record GraphLink := { source : str; target : str; link_type : LinkType }.

Record AnalysisResult := {
  nodes : list GraphNode;
  links : list GraphLink;
  summary : str
}.

(* ================================================================== *)
(** ** generateId, determineEndLine *)

Definition generateId (type name file : str) : str :=
  type ++ lit ":" ++ file ++ lit ":" ++ name.

Inductive Lang := PYTHON | JS | C_CPP.

Definition newline : char := 10%N.     (* '\n' *)
Definition slash : char := 47%N.       (* '/' *)
Definition lbrace : char := 123%N.     (* the character { *)
Definition rbrace : char := 125%N.     (* the character } *)

(** The [for] loop of the indentation strategy, from line [i] on: [Some i]
    is [return i], [None] is the loop running to its end. *)
Fixpoint indent_scan (ls : list str) (i : nat) (startIndent : Z) : option nat :=
  match ls with
  | [] => None
  | line :: rest =>
      if str_eqb (trim line) [] then indent_scan rest (S i) startIndent
      else
        let indent := search line nonspace in
        if (indent >? -1)%Z && (indent <=? startIndent)%Z then Some i
        else indent_scan rest (S i) startIndent
  end.

(** The [for] loop of the brace strategy. *)
Fixpoint brace_scan (ls : list str) (i : nat) (braceCount : Z) (foundBrace : bool)
  : option nat :=
  match ls with
  | [] => None
  | line :: rest =>
      let braceCount := (braceCount + match_count line lbrace)%Z in
      let braceCount := (braceCount - match_count line rbrace)%Z in
      let foundBrace := if (match_count line lbrace >? 0)%Z then true else foundBrace in
      if foundBrace && (braceCount <=? 0)%Z then Some (i + 1)
      else brace_scan rest (S i) braceCount foundBrace
  end.

(** [None] is the TypeError raised when [lines[startIdx]] is undefined. *)
Definition determineEndLine (lines : list str) (startIdx : nat) (type : Lang)
  : option nat :=
  match type with
  | PYTHON =>
      match nth_error lines startIdx with
      | None => None
      | Some startLine =>
          let startIndent := search startLine nonspace in
          if (startIndent =? -1)%Z then Some (startIdx + 1)
          else match indent_scan (skipn (startIdx + 1) lines) (startIdx + 1) startIndent with
               | Some i => Some i
               | None => Some (length lines)
               end
      end
  | _ =>
      match brace_scan (skipn startIdx lines) startIdx 0 false with
      | Some r => Some r
      | None => Some (Nat.min (startIdx + 20) (length lines))
      end
  end.

(* ================================================================== *)
(** ** The patterns of analyzeCodebase *)

(** [/^class\s+(\w+)/] *)
Definition re_py_class : re :=
  seq_of [Bol; Lit (lit "class"); Plus space; Grp 1 (Plus word)].

(** [/^\s*def\s+(\w+)/] *)
Definition re_py_def : re :=
  seq_of [Bol; Star space; Lit (lit "def"); Plus space; Grp 1 (Plus word)].

(** [/^(?:from|import)\s+(\w+)/] *)
Definition re_py_import : re :=
  seq_of [Bol; Alt (Lit (lit "from")) (Lit (lit "import")); Plus space;
          Grp 1 (Plus word)].

(** [/\.(js|ts|jsx|tsx)$/] *)
Definition re_js_path : re :=
  seq_of [Lit (lit ".");
          Grp 1 (Alt (Lit (lit "js")) (Alt (Lit (lit "ts"))
                   (Alt (Lit (lit "jsx")) (Lit (lit "tsx")))));
          Eol].

(** [/^(?:export\s+)?class\s+(\w+)/] *)
Definition re_js_class : re :=
  seq_of [Bol; Opt (Seq (Lit (lit "export")) (Plus space)); Lit (lit "class");
          Plus space; Grp 1 (Plus word)].

(** The function pattern of the JS/TS branch (line 179), three
    alternatives: [function\s+(\w+)], then [const\s+(\w+)\s*=\s*A\(], then
    [const\s+(\w+)\s*=\s*A\w+\s*=>], where A is an optional [async]
    followed by any white space. *)
Definition re_js_func : re :=
  Alt (seq_of [Lit (lit "function"); Plus space; Grp 1 (Plus word)])
 (Alt (seq_of [Lit (lit "const"); Plus space; Grp 2 (Plus word); Star space;
               Lit (lit "="); Star space;
               Opt (Seq (Lit (lit "async")) (Star space)); Lit (lit "(")])
      (seq_of [Lit (lit "const"); Plus space; Grp 3 (Plus word); Star space;
               Lit (lit "="); Star space;
               Opt (Seq (Lit (lit "async")) (Star space)); Plus word;
               Star space; Lit (lit "=>")])).

(** The import pattern of the JS/TS branch (line 201): [from\s+], a single
    or double quote (39, 34), [(.+)], a single or double quote. *)
Definition quote (c : char) : bool := ((c =? 39) || (c =? 34))%N.
Definition re_js_import : re :=
  seq_of [Lit (lit "from"); Plus space; Chr quote; Grp 1 (Plus (Chr is_dot));
          Chr quote].

(** [/\.(c|cpp|h|hpp|cc)$/] *)
Definition re_c_path : re :=
  seq_of [Lit (lit ".");
          Grp 1 (Alt (Lit (lit "c")) (Alt (Lit (lit "cpp")) (Alt (Lit (lit "h"))
                   (Alt (Lit (lit "hpp")) (Lit (lit "cc"))))));
          Eol].

(** [/^\s*(?:class|struct)\s+(\w+)/] *)
Definition re_c_class : re :=
  seq_of [Bol; Star space; Alt (Lit (lit "class")) (Lit (lit "struct"));
          Plus space; Grp 1 (Plus word)].

(** [/^\s*(?:[\w:*&<>]+\s+)+([\w:]+)\s*\(/] *)
Definition re_c_func : re :=
  seq_of [Bol; Star space;
          Plus (Seq (Plus (Chr (fun c => is_word c || cls ":*&<>" c))) (Plus space));
          Grp 1 (Plus (Chr (fun c => is_word c || cls ":" c)));
          Star space; Lit (lit "(")].

(** The include pattern (line 278): [^#include\s+], one of [<] (60) and
    the double quote (34), [(.+)], one of [>] (62) and the double quote. *)
Definition re_c_include : re :=
  seq_of [Bol; Lit (lit "#include"); Plus space;
          Chr (fun c => (c =? 60) || (c =? 34))%N; Grp 1 (Plus (Chr is_dot));
          Chr (fun c => (c =? 62) || (c =? 34))%N].

Definition keywords : list str :=
  [lit "if"; lit "while"; lit "for"; lit "switch"; lit "return"; lit "catch";
   lit "else"; lit "new"; lit "delete"].

(** [m[i]] for a capture group that takes part in every match of its
    pattern. *)
Definition capture (m : captures) (i : nat) : str :=
  match group i m with
  | Some s => s
  | None => []
  end.

(** Truthiness of a string that may be undefined, and JavaScript's [||]
    on such values. *)
Definition truthy (o : option str) : bool :=
  match o with
  | Some (_ :: _) => true
  | _ => false
  end.

Definition or_else (a b : option str) : option str := if truthy a then a else b.

(* ================================================================== *)
(** ** analyzeCodebase *)

(** [fileNodes], a [Map] from path to node id: [set] keeps the position of
    a key already present, [entries] runs in insertion order. *)
Definition FileMap := list (str * str).

Fixpoint Map_set (m : FileMap) (k v : str) : FileMap :=
  match m with
  | [] => [(k, v)]
  | (k', v') :: m' => if str_eqb k' k then (k', v) :: m' else (k', v') :: Map_set m' k v
  end.

Fixpoint Map_get (m : FileMap) (k : str) : option str :=
  match m with
  | [] => None
  | (k', v') :: m' => if str_eqb k' k then Some v' else Map_get m' k
  end.

(** The arrays [nodes] and [links] and the cursor [currentClass] as the
    line loop sees them. *)
Record Scan := {
  out_nodes : list GraphNode;
  out_links : list GraphLink;
  currentClass : option GraphNode
}.

Definition push_node (n : GraphNode) (st : Scan) : Scan :=
  {| out_nodes := out_nodes st ++ [n]; out_links := out_links st;
     currentClass := currentClass st |}.

Definition push_link (l : GraphLink) (st : Scan) : Scan :=
  {| out_nodes := out_nodes st; out_links := out_links st ++ [l];
     currentClass := currentClass st |}.

Definition set_currentClass (c : option GraphNode) (st : Scan) : Scan :=
  {| out_nodes := out_nodes st; out_links := out_links st; currentClass := c |}.

Notation "x <- e ;; k" :=
  (match e with Some x => k | None => None end)
  (at level 61, e at next level, right associativity).

(** [forEach] with the element index, for a callback that may throw. *)
Fixpoint forEach {A St : Type} (cb : St -> A -> nat -> option St) (l : list A)
         (index : nat) (st : St) : option St :=
  match l with
  | [] => Some st
  | x :: l' => st' <- cb st x index ;; forEach cb l' (S index) st'
  end.

(** The [for (const [path, fid] of fileNodes.entries())] loops: an Import
    link to every other file whose path passes [test]. *)
Definition link_imports (fileNodes : FileMap) (f : CodeFile) (fileId : str)
           (test : str -> bool) (st : Scan) : Scan :=
  fold_left
    (fun st e =>
       let '(path', fid) := e in
       if test path' && negb (str_eqb path' (path f))
       then push_link {| source := fileId; target := fid; link_type := IMPORT |} st
       else st)
    fileNodes st.

Section Line.

Variable fileNodes : FileMap.
Variable f : CodeFile.
Variable lines : list str.
Variable fileId : str.
Variable depth : Z.

Definition class_node (name' : str) (lineNum endLine' : nat) (what : str) : GraphNode :=
  {| id := generateId (lit "CLASS") name' (path f); label := name'; type := CLASS;
     file := path f; startLine := lineNum; endLine := endLine';
     details := what ++ name f |}.

Definition function_node (name' : str) (lineNum endLine' : nat) : GraphNode :=
  {| id := generateId (lit "FUNCTION") name' (path f); label := name';
     type := FUNCTION; file := path f; startLine := lineNum; endLine := endLine';
     details := lit "Function definition in " ++ name f |}.

Definition contains (src tgt : str) : GraphLink :=
  {| source := src; target := tgt; link_type := CONTAINS |}.

(* --- PYTHON PARSING --- *)

Definition python_function (st : Scan) (line : str) (index : nat) : option Scan :=
  let lineNum := index + 1 in
  match str_match line re_py_def with
  | Some funcMatch =>
      let name' := capture funcMatch 1 in
      endLine' <- determineEndLine lines index PYTHON ;;
      let node := function_node name' lineNum endLine' in
      let st := push_node node st in
      let indent := search line nonspace in
      match (indent >? 0)%Z, currentClass st with
      | true, Some cc => Some (push_link (contains (id cc) (id node)) st)
      | _, _ => Some (set_currentClass None (push_link (contains fileId (id node)) st))
      end
  | None => Some st
  end.

Definition python_import (st : Scan) (line : str) : Scan :=
  match str_match line re_py_import with
  | Some importMatch =>
      let moduleName := capture importMatch 1 in
      link_imports fileNodes f fileId (fun path' => includes path' moduleName) st
  | None => st
  end.

Definition python_line (st : Scan) (line : str) (index : nat) : option Scan :=
  let lineNum := index + 1 in
  match (if (depth >=? 2)%Z then str_match line re_py_class else None) with
  | Some classMatch =>
      let name' := capture classMatch 1 in
      endLine' <- determineEndLine lines index PYTHON ;;
      let node := class_node name' lineNum endLine' (lit "Class definition in ") in
      Some (set_currentClass (Some node)
              (push_link (contains fileId (id node)) (push_node node st)))
  | None =>
      st <- (if (depth >=? 3)%Z then python_function st line index else Some st) ;;
      Some (python_import st line)
  end.

(* --- JS/TS PARSING --- *)

Definition js_class (st : Scan) (line : str) (index : nat) : option Scan :=
  let lineNum := index + 1 in
  match str_match line re_js_class with
  | Some classMatch =>
      let name' := capture classMatch 1 in
      endLine' <- determineEndLine lines index JS ;;
      let node := class_node name' lineNum endLine' (lit "Class definition in ") in
      Some (push_link (contains fileId (id node)) (push_node node st))
  | None => Some st
  end.

Definition js_function (st : Scan) (line : str) (index : nat) : option Scan :=
  let lineNum := index + 1 in
  match str_match line re_js_func with
  | Some funcMatch =>
      let name' := or_else (group 1 funcMatch)
                     (or_else (group 2 funcMatch) (group 3 funcMatch)) in
      match name' with
      | Some (c :: name'') =>
          endLine' <- determineEndLine lines index JS ;;
          let node := function_node (c :: name'') lineNum endLine' in
          Some (push_link (contains fileId (id node)) (push_node node st))
      | _ => Some st
      end
  | None => Some st
  end.

Definition js_import (st : Scan) (line : str) : Scan :=
  match str_match line re_js_import with
  | Some importMatch =>
      let pathPart := capture importMatch 1 in
      match pop (split pathPart slash) with
      | Some (c :: namePart) =>
          link_imports fileNodes f fileId (fun path' => includes path' (c :: namePart)) st
      | _ => st
      end
  | None => st
  end.

Definition js_line (st : Scan) (line : str) (index : nat) : option Scan :=
  st <- (if (depth >=? 2)%Z then js_class st line index else Some st) ;;
  st <- (if (depth >=? 3)%Z then js_function st line index else Some st) ;;
  Some (js_import st line).

(* --- C/C++ PARSING --- *)

Definition c_class (st : Scan) (line : str) (index : nat) : option Scan :=
  let lineNum := index + 1 in
  match str_match line re_c_class with
  | Some classMatch =>
      let name' := capture classMatch 1 in
      endLine' <- determineEndLine lines index C_CPP ;;
      let node := class_node name' lineNum endLine' (lit "Class/Struct definition in ") in
      Some (push_link (contains fileId (id node)) (push_node node st))
  | None => Some st
  end.

Definition c_function (st : Scan) (line : str) (index : nat) : option Scan :=
  let lineNum := index + 1 in
  match str_match line re_c_func with
  | Some funcMatch =>
      let name' := capture funcMatch 1 in
      if negb (array_includes keywords name') && negb (endsWith (trim line) (lit ";"))
      then
        endLine' <- determineEndLine lines index C_CPP ;;
        let node := function_node name' lineNum endLine' in
        Some (push_link (contains fileId (id node)) (push_node node st))
      else Some st
  | None => Some st
  end.

Definition c_include (st : Scan) (line : str) : Scan :=
  match str_match line re_c_include with
  | Some includeMatch =>
      let includedPath := capture includeMatch 1 in
      match pop (split includedPath slash) with
      | Some (c :: includedName) =>
          link_imports fileNodes f fileId (fun path' => endsWith path' (c :: includedName)) st
      | _ => st
      end
  | None => st
  end.

Definition c_line (st : Scan) (line : str) (index : nat) : option Scan :=
  st <- (if (depth >=? 2)%Z then c_class st line index else Some st) ;;
  st <- (if (depth >=? 3)%Z then c_function st line index else Some st) ;;
  Some (c_include st line).

Definition is_match (s : str) (r : re) : bool :=
  match str_match s r with Some _ => true | None => false end.

(** The callback of [lines.forEach]. *)
Definition process_line (st : Scan) (line : str) (index : nat) : option Scan :=
  let trimmed := trim line in
  if str_eqb trimmed [] then Some st
  else if endsWith (path f) (lit ".py") then python_line st line index
  else if is_match (path f) re_js_path then js_line st line index
  else if is_match (path f) re_c_path then c_line st line index
  else Some st.

End Line.

(** Step 1 of [analyzeCodebase]: a File node per file, and [fileNodes]. *)
Definition file_node (f : CodeFile) : GraphNode :=
  {| id := lit "FILE:" ++ path f; label := name f; type := FILE; file := path f;
     startLine := 1; endLine := length (split (content f) newline);
     details := lit "File: " ++ path f |}.

Definition file_pass (files : list CodeFile) : list GraphNode * FileMap :=
  fold_left
    (fun acc f =>
       let '(nodes', fileNodes) := acc in
       let id' := lit "FILE:" ++ path f in
       (nodes' ++ [file_node f], Map_set fileNodes (path f) id'))
    files ([], []).

(** Step 2, the callback of the second [files.forEach].  [fileNodes.get]
    is asserted non-null in the source; the empty string stands for
    [undefined], which [file_pass] rules out. *)
Definition process_file (fileNodes : FileMap) (depth : Z) (st : Scan)
           (f : CodeFile) (_ : nat) : option Scan :=
  let lines := split (content f) newline in
  let fileId := match Map_get fileNodes (path f) with Some i => i | None => [] end in
  forEach (process_line fileNodes f lines fileId depth) lines 0
          (set_currentClass None st).

Definition count_type (t : NodeType) (ns : list GraphNode) : nat :=
  length (filter (fun n => NodeType_eqb (type n) t) ns).

Definition make_summary (depth : Z) (files : list CodeFile) (ns : list GraphNode) : str :=
  lit "Offline analysis complete (Depth: " ++ number_toString depth ++ lit "). "
  ++ [newline] ++ lit "  Scanned " ++ number_toString (Z.of_nat (length files))
  ++ lit " files. " ++ [newline] ++ lit "  Identified "
  ++ number_toString (Z.of_nat (count_type CLASS ns)) ++ lit " classes and "
  ++ number_toString (Z.of_nat (count_type FUNCTION ns)) ++ lit " functions.".

(** [None] is a rejected promise (an exception inside the function). *)
Definition analyzeCodebase (files : list CodeFile) (depth : Z) : option AnalysisResult :=
  let '(nodes0, fileNodes) := file_pass files in
  st <- forEach (process_file fileNodes depth) files 0
          {| out_nodes := nodes0; out_links := []; currentClass := None |} ;;
  Some {| nodes := out_nodes st; links := out_links st;
          summary := make_summary depth files (out_nodes st) |}.


(* ================================================================== *)
(** ** The vocabulary of the specification *)

(** The line is made of white space only (the empty line included). *)
Definition blank (s : str) : bool := forallb is_space s.

(** The column of the first character of [s] that is not white space. *)
Fixpoint indentation (s : str) : nat :=
  match s with
  | c :: s' => if is_space c then S (indentation s') else 0
  | [] => 0
  end.

(** Line [l] ends a block opened at indentation [startIndent]: it is not
    blank and is indented no deeper. *)
Definition terminates (startIndent : nat) (l : str) : bool :=
  negb (blank l) && (indentation l <=? startIndent).

(** The result the specification asks of the IndentationScoped estimator:
    [startIndex + 1] for a blank start line, otherwise the index of the
    first later line that [terminates] the block, and the number of lines
    when there is none. *)
Definition IndentationScoped_spec (lines : list str) (startIndex r : nat) : Prop :=
  exists start, nth_error lines startIndex = Some start /\
    if blank start then r = startIndex + 1
    else
      (startIndex < r < length lines /\
       (exists l, nth_error lines r = Some l /\ terminates (indentation start) l = true) /\
       forall j l, startIndex < j < r -> nth_error lines j = Some l ->
                   terminates (indentation start) l = false)
      \/
      (r = length lines /\
       forall j l, startIndex < j -> nth_error lines j = Some l ->
                   terminates (indentation start) l = false).

(** Braces opened minus braces closed over the lines [seg]. *)
Fixpoint balance (seg : list str) : Z :=
  match seg with
  | [] => 0
  | l :: seg' => (match_count l lbrace - match_count l rbrace + balance seg')%Z
  end.

(** Some line of [seg] holds an opening brace. *)
Definition seen_open (seg : list str) : bool :=
  existsb (fun l => (0 <? match_count l lbrace)%Z) seg.

(** The block opened at line [startIndex] is closed at line [i]: over the
    lines [startIndex .. i] a brace was opened and the balance is not
    positive. *)
Definition closed_at (lines : list str) (startIndex i : nat) : bool :=
  let seg := firstn (i + 1 - startIndex) (skipn startIndex lines) in
  seen_open seg && (balance seg <=? 0)%Z.

(** The result the specification asks of the BraceScoped estimator. *)
Definition BraceScoped_spec (lines : list str) (startIndex r : nat) : Prop :=
  (exists i, startIndex <= i < length lines /\
             closed_at lines startIndex i = true /\
             (forall j, startIndex <= j < i -> closed_at lines startIndex j = false) /\
             r = i + 1)
  \/
  ((forall i, startIndex <= i < length lines -> closed_at lines startIndex i = false) /\
   r = Nat.min (startIndex + 20) (length lines)).

(** The lines of a file, as both passes of [analyzeCodebase] compute them. *)
Definition lines_of (f : CodeFile) : list str := split (content f) newline.

(** The id of the File node of the file at path [p]. *)
Definition file_id (p : str) : str := lit "FILE:" ++ p.

(** The string value of a member of the enum [NodeType]. *)
Definition NodeType_name (t : NodeType) : str :=
  match t with
  | FILE => lit "FILE"
  | CLASS => lit "CLASS"
  | FUNCTION => lit "FUNCTION"
  | MODULE => lit "MODULE"
  end.

(** Where a node of the graph comes from: the file pass, or a line of one
    of the input files on which a class or a function pattern matched. *)
Inductive node_origin (files : list CodeFile) : GraphNode -> Prop :=
| origin_file f :
    In f files -> node_origin files (file_node f)
| origin_class f index line name' e lang what :
    In f files -> nth_error (lines_of f) index = Some line ->
    determineEndLine (lines_of f) index lang = Some e ->
    node_origin files (class_node f name' (index + 1) e what)
| origin_function f index line name' e lang :
    In f files -> nth_error (lines_of f) index = Some line ->
    determineEndLine (lines_of f) index lang = Some e ->
    node_origin files (function_node f name' (index + 1) e).

(** The three shapes of a Contains edge: File to Class, File to Function,
    Class to Function. *)
Definition contains_kinds (s t : NodeType) : bool :=
  match s, t with
  | FILE, CLASS | FILE, FUNCTION | CLASS, FUNCTION => true
  | _, _ => false
  end.

(** What an edge of the graph links, given the nodes [ns] present. *)
Definition link_origin (ns : list GraphNode) (l : GraphLink) : Prop :=
  exists s t, In s ns /\ In t ns /\ source l = id s /\ target l = id t /\
    match link_type l with
    | CONTAINS => contains_kinds (type s) (type t) = true
    | IMPORT => type s = FILE /\ type t = FILE /\ file s <> file t
    | _ => False
    end.

(** The invariant of the line loop. *)
Record scan_wf (files : list CodeFile) (st : Scan) : Prop := {
  wf_files : forall f, In f files -> In (file_node f) (out_nodes st);
  wf_nodes : Forall (node_origin files) (out_nodes st);
  wf_links : Forall (link_origin (out_nodes st)) (out_links st);
  wf_cursor : forall c, currentClass st = Some c ->
                        In c (out_nodes st) /\ type c = CLASS
}.

(** The invariant of [fileNodes]: a path of the input mapped to its File
    node's id. *)
Definition map_wf (files : list CodeFile) (m : FileMap) : Prop :=
  forall p fid, In (p, fid) m -> fid = file_id p /\ exists f, In f files /\ path f = p.

(** The files of the end-to-end scenario. *)
Definition a_py : CodeFile :=
  {| name := lit "a.py"; path := lit "a.py";
     content := lit "import b" ++ [newline] ++ lit "class A:" ++ [newline]
                ++ lit "    def m(self):" ++ [newline] ++ lit "        pass"
                ++ [newline] |}.

Definition b_py : CodeFile :=
  {| name := lit "b.py"; path := lit "b.py"; content := lit "x = 1" ++ [newline] |}.

Definition is_type (t : NodeType) (n : GraphNode) : bool := NodeType_eqb (type n) t.

Definition is_import (l : GraphLink) : bool :=
  match link_type l with IMPORT => true | _ => false end.

Definition is_contains (l : GraphLink) : bool :=
  match link_type l with CONTAINS => true | _ => false end.

(** The Import edges of a graph, in order. *)
Definition import_edges (r : AnalysisResult) : list GraphLink :=
  filter is_import (links r).

(** A chain of Contains edges from one id to another. *)
Inductive contains_path (ls : list GraphLink) : str -> str -> Prop :=
| path_edge l :
    In l ls -> link_type l = CONTAINS -> contains_path ls (source l) (target l)
| path_step l z :
    In l ls -> link_type l = CONTAINS -> contains_path ls (target l) z ->
    contains_path ls (source l) z.

(** The layer of a node, read off its kind and off its id. *)
Definition type_rank (t : NodeType) : nat :=
  match t with FILE => 0 | CLASS => 1 | _ => 2 end.

Definition id_rank (i : str) : nat :=
  if startsWith i (lit "FILE:") then 0
  else if startsWith i (lit "CLASS:") then 1 else 2.

(** Two classes of one file, each with a constructor. *)
Definition twice_py : CodeFile :=
  {| name := lit "t.py"; path := lit "t.py";
     content := lit "class A:" ++ [newline] ++ lit "    def __init__(self):" ++ [newline]
                ++ lit "        pass" ++ [newline] ++ lit "class B:" ++ [newline]
                ++ lit "    def __init__(self):" ++ [newline] ++ lit "        pass" |}.

(** The sample inputs of the two estimators. *)
Definition indentation_sample : list str :=
  [lit "class A:"; lit "    def f():"; lit "        pass"; lit "class B:"].

Definition brace_sample : list str :=
  [lit "void f() {"; lit "  if (x) {"; lit "  }"; lit "}"; lit "void g() {}"].

(** The path is dispatched to the C/C++ branch of the line callback. *)
Definition c_family (p : str) : bool :=
  negb (endsWith p (lit ".py")) && negb (is_match p re_js_path)
  && is_match p re_c_path.

(** The line is filtered out by the C/C++ function rule: its trimmed text
    ends with a semicolon, or the name captured by the function pattern is
    one of the keywords. *)
Definition filtered_out (line : str) : Prop :=
  endsWith (trim line) (lit ";") = true \/
  exists m, str_match line re_c_func = Some m /\
            array_includes keywords (capture m 1) = true.

Definition functions (ns : list GraphNode) : list GraphNode :=
  filter (is_type FUNCTION) ns.

(** A prototype and a definition, each alone in a C file. *)
Definition prototype_c : CodeFile :=
  {| name := lit "p.c"; path := lit "p.c"; content := lit "void f(int x);" |}.

Definition definition_c : CodeFile :=
  {| name := lit "d.c"; path := lit "d.c"; content := lit "void f(int x) {" |}.

(** The nodes a run at depth [d] keeps: classes from depth 2 on, functions
    from depth 3 on. *)
Definition visible (d : Z) (n : GraphNode) : bool :=
  match type n with
  | CLASS => (d >=? 2)%Z
  | FUNCTION => (d >=? 3)%Z
  | _ => true
  end.

Definition imports_of (st : Scan) : list GraphLink := filter is_import (out_links st).

(** The targets of the Contains edges pushed so far, in order. *)
Definition contained (st : Scan) : list str :=
  map target (filter is_contains (out_links st)).

(** What one line adds, whatever the state and the depth: the nodes [cs]
    from depth 2 on, the nodes [fs] from depth 3 on, each with one Contains
    edge to it, and the Import edges [ls] always. *)
Definition line_effect (step : Z -> Scan -> option Scan)
           (cs fs : list GraphNode) (ls : list GraphLink) : Prop :=
  Forall (fun n => type n = CLASS) cs /\ Forall (fun n => type n = FUNCTION) fs /\
  forall depth st st', step depth st = Some st' ->
    let added := (if (depth >=? 2)%Z then cs else [])
                 ++ (if (depth >=? 3)%Z then fs else []) in
    out_nodes st' = out_nodes st ++ added /\
    imports_of st' = imports_of st ++ ls /\
    contained st' = contained st ++ map id added.

(** A step that adds the nodes [ns], all of kind [t], a Contains edge to
    each, and no Import edge, whatever the state. *)
Definition node_step (g : Scan -> option Scan) (t : NodeType) (ns : list GraphNode) : Prop :=
  Forall (fun n => type n = t) ns /\
  forall st st', g st = Some st' ->
    out_nodes st' = out_nodes st ++ ns /\ imports_of st' = imports_of st /\
    contained st' = contained st ++ map id ns.

(** A step that adds the Import edges [ls], no node and no Contains
    edge, whatever the state. *)
Definition import_step (g : Scan -> Scan) (ls : list GraphLink) : Prop :=
  forall st, out_nodes (g st) = out_nodes st /\
             imports_of (g st) = imports_of st ++ ls /\
             contained (g st) = contained st.

(** Two runs of the line loop on the same lines, the first at depth [d]
    and the second at a depth at least [d], agree on the nodes visible at
    depth [d] and on the Import edges. *)
Definition depth_related (d : Z) (s1 s2 : Scan) : Prop :=
  out_nodes s1 = filter (visible d) (out_nodes s2) /\ imports_of s1 = imports_of s2.

(** Every Class and Function node pushed so far came with one Contains
    edge to its id, in the same order. *)
Definition one_edge_per_node (st : Scan) : Prop :=
  contained st = map id (filter (fun n => negb (is_type FILE n)) (out_nodes st)).

(** A node built on a line of an input file has an origin. *)
Ltac new_node_wf :=
  first [ eapply origin_class; eassumption | eapply origin_function; eassumption ].

(** Group [i] takes part in every match of [r]. *)
Fixpoint binds (i : nat) (r : re) : bool :=
  match r with
  | Grp j r' => Nat.eqb i j || binds i r'
  | Seq r1 r2 => binds i r1 || binds i r2
  | Alt r1 r2 => binds i r1 && binds i r2
  | _ => false
  end.

(* ================================================================== *)
(** ** The callers of the extractor: App.tsx and FileUploader.tsx *)

(** [Array.prototype.join] with a one-character separator. *)
Fixpoint join (l : list str) (sep : char) : str :=
  match l with
  | [] => []
  | [x] => x
  | x :: l' => x ++ sep :: join l' sep
  end.

(** [Array.prototype.slice (start, end)]: a negative index counts from
    the end, both indices are clamped to the array, and nothing is taken
    when the end does not lie after the start. *)
Definition slice {A : Type} (l : list A) (start end_ : Z) : list A :=
  let len := Z.of_nat (length l) in
  let k := if (start <? 0)%Z then Z.max (len + start) 0 else Z.min start len in
  let final := if (end_ <? 0)%Z then Z.max (len + end_) 0 else Z.min end_ len in
  firstn (Z.to_nat (final - k)) (skipn (Z.to_nat k) l).

(** [files.find(f => f.path === p)] *)
Definition find_file (files : list CodeFile) (p : str) : option CodeFile :=
  find (fun f => str_eqb (path f) p) files.

(** [getCodeSnippet] of App.tsx.  [!node.startLine] holds of the line
    number 0. *)
Definition getCodeSnippet (files : list CodeFile) (node : GraphNode) : str :=
  match find_file files (file node) with
  | None => lit "// File content not found locally."
  | Some file' =>
      if NodeType_eqb (type node) FILE || (startLine node =? 0) || (endLine node =? 0)
      then content file'
      else
        let lines := split (content file') newline in
        let start := Z.max 0 (Z.of_nat (startLine node) - 1) in
        let end_ := Z.min (Z.of_nat (length lines)) (Z.of_nat (endLine node)) in
        if (start >=? end_)%Z then content file'
        else join (slice lines start end_) newline
  end.

Section Search.

(** [String.prototype.toLowerCase] is left open: the results below hold
    of any case mapping. *)
Variable toLowerCase : str -> str.

(** The text searched for a node by [searchResults]. *)
Definition contentToCheck (file' : CodeFile) (n : GraphNode) : str :=
  let lines := split (content file') newline in
  join (slice lines (Z.of_nat (startLine n) - 1) (Z.of_nat (endLine n))) newline.

(** The callback of [analysis.nodes.filter] in [searchResults]. *)
Definition search_hit (files : list CodeFile) (q : str) (n : GraphNode) : bool :=
  if includes (toLowerCase (label n)) q
     || (negb (str_eqb (file n) []) && includes (toLowerCase (file n)) q)
  then true
  else if str_eqb (file n) [] then false
  else match find_file files (file n) with
       | None => false
       | Some file' => includes (toLowerCase (contentToCheck file' n)) q
       end.

(** [searchResults] of App.tsx; [None] is the [analysis] not yet there. *)
Definition searchResults (analysis : option AnalysisResult) (searchQuery : str)
           (files : list CodeFile) : list GraphNode :=
  match analysis with
  | None => []
  | Some a =>
      if str_eqb (trim searchQuery) [] then []
      else
        let q := toLowerCase searchQuery in
        filter (search_hit files q) (nodes a)
  end.

End Search.

(** FileUploader.tsx: the extension filter and the loop of
    [handleFileChange].  A browser file has a name, a relative path that
    may be empty, and a text that may fail to be read ([None]). *)
Definition allowedExtensions : list str :=
  [lit ".py"; lit ".js"; lit ".ts"; lit ".tsx"; lit ".jsx"; lit ".html"; lit ".css";
   lit ".json"; lit ".java"; lit ".cpp"; lit ".c"; lit ".h"; lit ".hpp"; lit ".cc"].

Definition isAllowed (path' : str) : bool :=
  existsb (fun ext => endsWith path' ext) allowedExtensions.

Record BrowserFile := {
  file_name : str;
  webkitRelativePath : str;
  text : option str
}.

Definition upload_path (file' : BrowserFile) : str :=
  match webkitRelativePath file' with
  | [] => file_name file'
  | p => p
  end.

Fixpoint handleFileChange (fileList : list BrowserFile) : list CodeFile :=
  match fileList with
  | [] => []
  | file' :: rest =>
      let path' := upload_path file' in
      if negb (isAllowed path') then handleFileChange rest
      else match text file' with
           | Some content' =>
               {| name := file_name file'; path := path'; content := content' |}
               :: handleFileChange rest
           | None => handleFileChange rest
           end
  end.

(** The edges of a graph that touch a node, and their number. *)
Definition incident (links' : list GraphLink) (n : GraphNode) : list GraphLink :=
  filter (fun l => str_eqb (source l) (id n) || str_eqb (target l) (id n)) links'.

Definition degree (r : AnalysisResult) (n : GraphNode) : nat :=
  length (incident (links r) n).

(** The path is parsed by one of the three branches of the line
    callback. *)
Definition in_family (p : str) : bool :=
  endsWith p (lit ".py") || is_match p re_js_path || is_match p re_c_path.

(** The graph of the end-to-end scenario. *)
Definition scenario_graph : AnalysisResult :=
  match analyzeCodebase [a_py; b_py] 3 with
  | Some r => r
  | None => {| nodes := []; links := []; summary := [] |}
  end.

(** Equality of strings is decidable. *)
Definition str_eq_dec (a b : str) : {a = b} + {a <> b} := list_eq_dec N.eq_dec a b.

(** The extensions of the three families, as the path patterns spell
    them. *)
Definition js_extensions : list str := [lit ".js"; lit ".ts"; lit ".jsx"; lit ".tsx"].
Definition c_extensions : list str :=
  [lit ".c"; lit ".cpp"; lit ".h"; lit ".hpp"; lit ".cc"].


Definition a_py_upload : BrowserFile :=
  {| file_name := lit "a.py"; webkitRelativePath := lit "proj/a.py";
     text := Some (content a_py) |}.

Definition colon : char := 58%N.       (* ':' *)

(** The nodes pushed after the file pass are Class and Function nodes. *)
Definition files_then_constructs (nodes0 : list GraphNode) (st : Scan) : Prop :=
  exists rest, out_nodes st = nodes0 ++ rest /\
               Forall (fun n => type n = CLASS \/ type n = FUNCTION) rest.

(** The graph of the file with two constructors. *)
Definition twice_graph : AnalysisResult :=
  match analyzeCodebase [twice_py] 3 with
  | Some r => r
  | None => {| nodes := []; links := []; summary := [] |}
  end.

(** The characters of a label: word characters and the colon of a
    qualified C++ name. *)
Definition label_char (c : char) : bool := is_word c || N.eqb c colon.

(** A name: not empty and made of label characters. *)
Definition is_name (s : str) : Prop := s <> [] /\ forallb label_char s = true.

Definition names_only (cs : captures) : Prop := Forall (fun ic => is_name (snd ic)) cs.

(** Every capture group of the pattern is one or more label characters. *)
Inductive name_groups : re -> Prop :=
| ng_eps : name_groups Eps
| ng_chr p : name_groups (Chr p)
| ng_lit t : name_groups (Lit t)
| ng_bol : name_groups Bol
| ng_eol : name_groups Eol
| ng_seq r1 r2 : name_groups r1 -> name_groups r2 -> name_groups (Seq r1 r2)
| ng_alt r1 r2 : name_groups r1 -> name_groups r2 -> name_groups (Alt r1 r2)
| ng_star r : name_groups r -> name_groups (Star r)
| ng_grp i q : (forall c, q c = true -> label_char c = true) ->
               name_groups (Grp i (Plus (Chr q))).

(** The labels of the Class and Function nodes pushed so far are names. *)
Definition labels_ok (st : Scan) : Prop :=
  Forall (fun n => type n = FILE \/ is_name (label n)) (out_nodes st).

(** A Contains edge either starts at a File node, or joins a class and a
    function of one Python file. *)
Definition parent_ok (l : GraphLink) : Prop :=
  link_type l = CONTAINS ->
  (exists p, source l = file_id p) \/
  (exists p cn fn, endsWith p (lit ".py") = true /\
                   source l = generateId (lit "CLASS") cn p /\
                   target l = generateId (lit "FUNCTION") fn p).

(** The invariant of the line loop on file [f] for the parents. *)
Definition parents_ok (f : CodeFile) (st : Scan) : Prop :=
  Forall parent_ok (out_links st) /\
  forall c, currentClass st = Some c ->
            endsWith (path f) (lit ".py") = true /\
            exists cn, id c = generateId (lit "CLASS") cn (path f).

(** A class with a method, in TypeScript. *)
Definition widget_ts : CodeFile :=
  {| name := lit "widget.ts"; path := lit "widget.ts";
     content := lit "export class Widget {" ++ [newline]
                ++ lit "  render = function draw() {" ++ [newline]
                ++ lit "  }" ++ [newline] ++ lit "}" |}.

(* ================================================================== *)
(** * Properties *)

Lemma nth_error_lt {A} (l : list A) (n : nat) (x : A) :
  nth_error l n = Some x -> n < length l.
Proof. intros H. apply nth_error_Some. congruence. Qed.

(** ** Strings *)

Lemma str_eqb_eq (a b : str) : str_eqb a b = true <-> a = b.
Proof.
  revert b; induction a as [|x a IH]; intros [|y b]; simpl; split;
    try congruence; try reflexivity.
  - intros H. apply andb_true_iff in H as [Hx Ha].
    apply N.eqb_eq in Hx. apply IH in Ha. congruence.
  - intros H. injection H as -> ->.
    rewrite N.eqb_refl. simpl. now apply IH.
Qed.

Lemma str_eqb_neq (a b : str) : str_eqb a b = false <-> a <> b.
Proof.
  rewrite <- str_eqb_eq. destruct (str_eqb a b); split; congruence.
Qed.

Lemma str_eqb_nil (a : str) : str_eqb a [] = true <-> a = [].
Proof. apply str_eqb_eq. Qed.

Lemma dropWhile_nil (p : char -> bool) (s : str) :
  dropWhile p s = [] <-> forallb p s = true.
Proof.
  induction s as [|c s IH]; simpl.
  - tauto.
  - destruct (p c); simpl; [exact IH | split; discriminate].
Qed.

Lemma dropWhile_head (p : char -> bool) (s : str) c r :
  dropWhile p s = c :: r -> p c = false.
Proof.
  induction s as [|x s IH]; simpl; [discriminate|].
  destruct (p x) eqn:E; [exact IH|]. intros H; injection H as -> _. exact E.
Qed.

Lemma forallb_rev {A} (p : A -> bool) (l : list A) :
  forallb p (rev l) = forallb p l.
Proof.
  induction l as [|x l IH]; simpl; [reflexivity|].
  rewrite forallb_app, IH. simpl. rewrite andb_true_r. apply andb_comm.
Qed.

Lemma trim_blank (s : str) : str_eqb (trim s) [] = blank s.
Proof.
  unfold trim, trimEnd, trimStart, blank.
  destruct (forallb is_space s) eqn:E.
  - apply str_eqb_nil. apply dropWhile_nil in E. rewrite E. reflexivity.
  - apply str_eqb_neq. intros H.
    assert (H1 : dropWhile is_space (rev (dropWhile is_space s)) = []).
    { destruct (dropWhile is_space (rev (dropWhile is_space s))) as [|c r] eqn:D;
        [reflexivity|].
      simpl in H. destruct (rev r); discriminate. }
    apply dropWhile_nil in H1. rewrite forallb_rev in H1.
    destruct (dropWhile is_space s) as [|c r] eqn:D.
    + apply dropWhile_nil in D. congruence.
    + apply dropWhile_head in D. simpl in H1. rewrite D in H1. discriminate.
Qed.

Lemma exec_from_nonspace (s : str) : forall n off,
  exec_from nonspace n s off =
  if blank s then None else Some (off + indentation s, []).
Proof.
  induction s as [|c s IH]; intros n off; simpl; [reflexivity|].
  destruct (is_space c); simpl.
  - rewrite IH. destruct (blank s); [reflexivity|].
    f_equal. f_equal. lia.
  - f_equal. f_equal. lia.
Qed.

(** [search(/\S/)] is -1 on a blank line and the indentation otherwise. *)
Lemma search_nonspace (s : str) :
  search s nonspace = if blank s then (-1)%Z else Z.of_nat (indentation s).
Proof.
  unfold search, exec. rewrite exec_from_nonspace.
  destruct (blank s); reflexivity.
Qed.

(** ** Sample matches *)

Example c_prototype_matches :
  str_match (lit "void f(int x);") re_c_func = Some [(1, lit "f")].
Proof. reflexivity. Qed.

Example c_qualified_name :
  str_match (lit "unsigned long Foo::bar (int x) {") re_c_func
  = Some [(1, lit "Foo::bar")].
Proof. reflexivity. Qed.

Example c_if_is_no_function :
  str_match (lit "  if (x) {") re_c_func = None.
Proof. reflexivity. Qed.

Example c_else_if_captures_keyword :
  str_match (lit "  else if (x) {") re_c_func = Some [(1, lit "if")].
Proof. reflexivity. Qed.

Example js_const_arrow :
  str_match (lit "export const f = async (x) => {") re_js_func = Some [(2, lit "f")] /\
  str_match (lit "const g = x => x") re_js_func = Some [(3, lit "g")] /\
  str_match (lit "async function h() {") re_js_func = Some [(1, lit "h")].
Proof. repeat split; reflexivity. Qed.

Example js_import_path :
  str_match (lit "import {a} from './x/y'") re_js_import = Some [(1, lit "./x/y")] /\
  pop (split (lit "./x/y") slash) = Some (lit "y").
Proof. split; reflexivity. Qed.

Example py_patterns :
  str_match (lit "class A(Base):") re_py_class = Some [(1, lit "A")] /\
  str_match (lit "    def m(self):") re_py_def = Some [(1, lit "m")] /\
  str_match (lit "from pkg.mod import x") re_py_import = Some [(1, lit "pkg")] /\
  str_match (lit " class A:") re_py_class = None.
Proof. repeat split; reflexivity. Qed.

Example path_families :
  is_match (lit "src/a.tsx") re_js_path = true /\
  is_match (lit "src/a.cpp") re_c_path = true /\
  is_match (lit "src/a.cs") re_c_path = false /\
  endsWith (lit "src/a.py") (lit ".py") = true.
Proof. repeat split; reflexivity. Qed.

Example trim_and_indent :
  trim (lit "  a b  ") = lit "a b" /\
  search (lit "    x") nonspace = 4%Z /\ search (lit "   ") nonspace = (-1)%Z.
Proof. repeat split; reflexivity. Qed.

(** ** Anchored patterns *)

Lemma exec_from_unfold (r : re) (n : nat) (s : str) (off : nat) :
  exec_from r n s off =
  match rmatch r n s [] (fun _ cs => Some cs) with
  | Some cs => Some (off, cs)
  | None => match s with
            | [] => None
            | _ :: s' => exec_from r n s' (S off)
            end
  end.
Proof. destruct s; reflexivity. Qed.

Lemma rmatch_bol (r : re) (n : nat) (s : str) cs k :
  rmatch (Seq Bol r) n s cs k =
  if Nat.eqb (length s) n then rmatch r n s cs k else None.
Proof. reflexivity. Qed.

Lemma exec_from_anchored (r : re) (n : nat) (s : str) : forall off,
  length s < n -> exec_from (Seq Bol r) n s off = None.
Proof.
  induction s as [|c s IH]; intros off Hlt; rewrite exec_from_unfold, rmatch_bol.
  - simpl in Hlt. destruct (Nat.eqb_spec (length (@nil char)) n) as [E|E].
    + simpl in E. lia.
    + reflexivity.
  - simpl in Hlt. destruct (Nat.eqb_spec (length (c :: s)) n) as [E|E].
    + simpl in E. lia.
    + apply IH. lia.
Qed.

(** A pattern that starts with [^] is tried at offset 0 only. *)
Lemma str_match_anchored (r : re) (s : str) :
  str_match s (Seq Bol r) = rmatch r (length s) s [] (fun _ cs => Some cs).
Proof.
  unfold str_match, exec. rewrite exec_from_unfold, rmatch_bol, Nat.eqb_refl.
  destruct (rmatch r (length s) s [] (fun _ cs => Some cs)); [reflexivity|].
  destruct s as [|c s]; [reflexivity|].
  rewrite exec_from_anchored by (simpl; lia). reflexivity.
Qed.

Lemma rmatch_seq r1 r2 n s cs k :
  rmatch (Seq r1 r2) n s cs k = rmatch r1 n s cs (fun s' cs' => rmatch r2 n s' cs' k).
Proof. reflexivity. Qed.

Lemma rmatch_lit t n s cs k :
  rmatch (Lit t) n s cs k = if startsWith s t then k (skipn (length t) s) cs else None.
Proof. reflexivity. Qed.

Lemma rmatch_alt r1 r2 n s cs k :
  rmatch (Alt r1 r2) n s cs k =
  match rmatch r1 n s cs k with
  | Some res => Some res
  | None => rmatch r2 n s cs k
  end.
Proof. reflexivity. Qed.

Lemma startsWith_cons (s p : str) (c : char) :
  startsWith s (c :: p) = true -> exists s', s = c :: s' /\ startsWith s' p = true.
Proof.
  destruct s as [|x s]; simpl; [discriminate|].
  intros H. apply andb_true_iff in H as [Hc Hp]. apply N.eqb_eq in Hc. subst x.
  now exists s.
Qed.

(** A line on which the Python class pattern matches is not an import
    line: the early [return] of the class case skips no Import edge. *)
Lemma py_class_not_import (line : str) (m : captures) :
  str_match line re_py_class = Some m -> str_match line re_py_import = None.
Proof.
  unfold re_py_class, re_py_import. cbn [seq_of fold_right].
  rewrite !str_match_anchored, !rmatch_seq, rmatch_alt, !rmatch_lit.
  destruct (startsWith line (lit "class")) eqn:E; [|discriminate]. intros _.
  change (lit "class") with (99%N :: lit "lass") in E.
  apply startsWith_cons in E as (rest & -> & _). reflexivity.
Qed.

(** ** Capture groups that take part in every match *)

Lemma rmatch_binds (i : nat) (r : re) : forall n s cs k res,
  rmatch r n s cs k = Some res ->
  exists s' cs', k s' cs' = Some res /\
    (group i cs <> None \/ binds i r = true -> group i cs' <> None).
Proof.
  induction r as [|p|t|r1 IH1 r2 IH2|r1 IH1 r2 IH2|r1 IH1|j r1 IH1| |];
    intros n s cs k res H; cbn [rmatch] in H; cbn [binds].
  - exists s, cs. split; [exact H|]. intros [Hg|Hb]; [exact Hg | discriminate].
  - destruct s as [|c s]; [discriminate|]. destruct (p c); [|discriminate].
    exists s, cs. split; [exact H|]. intros [Hg|Hb]; [exact Hg | discriminate].
  - destruct (startsWith s t); [|discriminate].
    eexists _, cs. split; [exact H|]. intros [Hg|Hb]; [exact Hg | discriminate].
  - apply IH1 in H as (s1 & cs1 & H & Hg1).
    apply IH2 in H as (s2 & cs2 & H & Hg2).
    exists s2, cs2. split; [exact H|]. intros [Hg|Hb].
    + apply Hg2. left. apply Hg1. now left.
    + apply orb_true_iff in Hb as [Hb|Hb].
      * apply Hg2. left. apply Hg1. now right.
      * apply Hg2. now right.
  - destruct (rmatch r1 n s cs k) as [res1|] eqn:E.
    + injection H as <-. apply IH1 in E as (s1 & cs1 & E & Hg1).
      exists s1, cs1. split; [exact E|]. intros [Hg|Hb].
      * apply Hg1. now left.
      * apply andb_true_iff in Hb as [Hb _]. apply Hg1. now right.
    + apply IH2 in H as (s2 & cs2 & H & Hg2).
      exists s2, cs2. split; [exact H|]. intros [Hg|Hb].
      * apply Hg2. now left.
      * apply andb_true_iff in Hb as [_ Hb]. apply Hg2. now right.
  - revert H. generalize (S (length s)) as fuel. intros fuel. revert s cs.
    induction fuel as [|fuel IHf]; intros s cs H; cbn [star_loop] in H.
    + exists s, cs. split; [exact H|]. intros [Hg|Hb]; [exact Hg | discriminate].
    + match type of H with
      | match ?e with _ => _ end = _ => destruct e as [res1|] eqn:E
      end.
      * injection H as <-. apply IH1 in E as (s1 & cs1 & E & Hg1).
        destruct (length s1 <? length s); [|discriminate].
        apply IHf in E as (s2 & cs2 & E & Hg2).
        exists s2, cs2. split; [exact E|]. intros [Hg|Hb]; [|discriminate].
        apply Hg2. left. apply Hg1. now left.
      * exists s, cs. split; [exact H|].
        intros [Hg|Hb]; [exact Hg | discriminate].
  - apply IH1 in H as (s1 & cs1 & H & Hg1).
    eexists s1, _. split; [exact H|]. intros Hg. cbn [group].
    destruct (Nat.eqb_spec i j) as [->|Hne]; [discriminate|].
    simpl in Hg. apply Hg1. exact Hg.
  - destruct (Nat.eqb (length s) n); [|discriminate].
    exists s, cs. split; [exact H|]. intros [Hg|Hb]; [exact Hg | discriminate].
  - destruct s; [|discriminate].
    exists [], cs. split; [exact H|]. intros [Hg|Hb]; [exact Hg | discriminate].
Qed.

Lemma str_match_binds (i : nat) (r : re) (s : str) (m : captures) :
  binds i r = true -> str_match s r = Some m -> group i m = Some (capture m i).
Proof.
  intros Hb. unfold str_match, exec.
  generalize (length s) as n. generalize 0 as off. intros off n. revert off.
  induction s as [|c s IH]; intros off; rewrite exec_from_unfold.
  - destruct (rmatch r n [] [] (fun _ cs => Some cs)) as [cs|] eqn:E; [|discriminate].
    simpl. intros H. injection H as <-.
    apply (rmatch_binds i) in E as (s' & cs' & E & Hg). injection E as <-.
    unfold capture. destruct (group i cs'); [reflexivity|].
    exfalso. apply Hg; auto.
  - destruct (rmatch r n (c :: s) [] (fun _ cs => Some cs)) as [cs|] eqn:E.
    + simpl. intros H. injection H as <-.
      apply (rmatch_binds i) in E as (s' & cs' & E & Hg). injection E as <-.
      unfold capture. destruct (group i cs'); [reflexivity|].
      exfalso. apply Hg; auto.
    + apply IH.
Qed.

(** The group read by [capture] is defined on every match of the patterns
    whose first group is read without a test. *)
Lemma capture_defined (r : re) (s : str) (m : captures) :
  In r [re_py_class; re_py_def; re_py_import; re_js_class; re_js_import;
        re_c_class; re_c_func; re_c_include] ->
  str_match s r = Some m -> group 1 m = Some (capture m 1).
Proof.
  intros Hr. apply str_match_binds.
  simpl in Hr. repeat (destruct Hr as [<-|Hr]; [reflexivity|]). destruct Hr.
Qed.

(** ** The iterations allowed to a starred pattern are never used up *)

Lemma star_loop_ext step1 step2 k1 k2 :
  (forall s cs c1 c2, (forall s' cs', c1 s' cs' = c2 s' cs') ->
                      step1 s cs c1 = step2 s cs c2) ->
  (forall s cs, k1 s cs = k2 s cs) ->
  forall fuel s cs, star_loop step1 k1 fuel s cs = star_loop step2 k2 fuel s cs.
Proof.
  intros Hstep Hk. induction fuel as [|fuel IH]; intros s cs; simpl; [apply Hk|].
  rewrite (Hstep s cs _ (fun s' cs' =>
             if length s' <? length s then star_loop step2 k2 fuel s' cs' else None)).
  - now rewrite Hk.
  - intros s' cs'. now rewrite IH.
Qed.

Lemma rmatch_ext (r : re) : forall n s cs k1 k2,
  (forall s' cs', k1 s' cs' = k2 s' cs') ->
  rmatch r n s cs k1 = rmatch r n s cs k2.
Proof.
  induction r as [|p|t|r1 IH1 r2 IH2|r1 IH1 r2 IH2|r1 IH1|j r1 IH1| |];
    intros n s cs k1 k2 Hk; cbn [rmatch].
  - apply Hk.
  - destruct s as [|c s]; [reflexivity|]. destruct (p c); [apply Hk | reflexivity].
  - destruct (startsWith s t); [apply Hk | reflexivity].
  - apply IH1. intros s' cs'. now apply IH2.
  - now rewrite (IH1 n s cs k1 k2 Hk), (IH2 n s cs k1 k2 Hk).
  - apply star_loop_ext; [|exact Hk]. intros s0 cs0 c1 c2 Hc. now apply IH1.
  - apply IH1. intros s' cs'. apply Hk.
  - destruct (Nat.eqb (length s) n); [apply Hk | reflexivity].
  - destruct s; [apply Hk | reflexivity].
Qed.

(** Any two amounts of fuel above the length of the input give the same
    result: the bound [S (length s)] of [rmatch] cuts no iteration. *)
Lemma star_loop_fuel (r : re) (n : nat) k : forall fuel1 fuel2 s cs,
  length s < fuel1 -> length s < fuel2 ->
  star_loop (fun s' cs' k' => rmatch r n s' cs' k') k fuel1 s cs =
  star_loop (fun s' cs' k' => rmatch r n s' cs' k') k fuel2 s cs.
Proof.
  induction fuel1 as [|fuel1 IH]; intros fuel2 s cs H1 H2; [lia|].
  destruct fuel2 as [|fuel2]; [lia|]. cbn [star_loop].
  rewrite (rmatch_ext r n s cs _
             (fun s' cs' =>
                if length s' <? length s
                then star_loop (fun s0 cs0 k' => rmatch r n s0 cs0 k') k fuel2 s' cs'
                else None)); [reflexivity|].
  intros s' cs'. destruct (Nat.ltb_spec (length s') (length s)); [|reflexivity].
  apply IH; lia.
Qed.

(** ** determineEndLine: the indentation strategy *)

Lemma indent_scan_terminates (si : nat) (l : str) :
  (if str_eqb (trim l) [] then false
   else (search l nonspace >? -1)%Z && (search l nonspace <=? Z.of_nat si)%Z)
  = terminates si l.
Proof.
  rewrite trim_blank, search_nonspace. unfold terminates.
  destruct (blank l); simpl; [reflexivity|].
  destruct (Z.gtb_spec (Z.of_nat (indentation l)) (-1)); [|lia]. simpl.
  destruct (Z.leb_spec (Z.of_nat (indentation l)) (Z.of_nat si));
    destruct (Nat.leb_spec (indentation l) si); try reflexivity; lia.
Qed.

Lemma indent_scan_spec (si : nat) (ls : list str) : forall pre,
  match indent_scan ls (length pre) (Z.of_nat si) with
  | Some r =>
      length pre <= r < length (pre ++ ls) /\
      (exists l, nth_error (pre ++ ls) r = Some l /\ terminates si l = true) /\
      forall j l, length pre <= j < r -> nth_error (pre ++ ls) j = Some l ->
                  terminates si l = false
  | None =>
      forall j l, length pre <= j -> nth_error (pre ++ ls) j = Some l ->
                  terminates si l = false
  end.
Proof.
  induction ls as [|x ls IH]; intros pre; simpl.
  - intros j l Hj Hn. rewrite app_nil_r in Hn.
    apply nth_error_lt in Hn. lia.
  - pose proof (indent_scan_terminates si x) as Hx.
    assert (Hpre : nth_error (pre ++ x :: ls) (length pre) = Some x).
    { rewrite nth_error_app2, Nat.sub_diag by lia. reflexivity. }
    specialize (IH (pre ++ [x])).
    rewrite <- app_assoc, length_app in IH. simpl in IH.
    rewrite Nat.add_1_r in IH.
    destruct (str_eqb (trim x) []).
    + destruct (indent_scan ls (S (length pre)) (Z.of_nat si)) as [r|].
      * destruct IH as (Hr & Hl & Hmin). repeat split; try lia; [exact Hl|].
        intros j l Hj Hn. destruct (Nat.eq_dec j (length pre)) as [->|Hne].
        -- congruence.
        -- apply Hmin with j; [lia | exact Hn].
      * intros j l Hj Hn. destruct (Nat.eq_dec j (length pre)) as [->|Hne].
        -- congruence.
        -- apply IH with j; [lia | exact Hn].
    + destruct ((search x nonspace >? -1)%Z && (search x nonspace <=? Z.of_nat si)%Z).
      * split; [rewrite length_app; simpl; lia|]. split.
        -- exists x. split; [exact Hpre | congruence].
        -- intros j l Hj. lia.
      * destruct (indent_scan ls (S (length pre)) (Z.of_nat si)) as [r|].
        -- destruct IH as (Hr & Hl & Hmin). repeat split; try lia; [exact Hl|].
           intros j l Hj Hn. destruct (Nat.eq_dec j (length pre)) as [->|Hne].
           ++ congruence.
           ++ apply Hmin with j; [lia | exact Hn].
        -- intros j l Hj Hn. destruct (Nat.eq_dec j (length pre)) as [->|Hne].
           ++ congruence.
           ++ apply IH with j; [lia | exact Hn].
Qed.

Lemma determineEndLine_python (lines : list str) (startIndex : nat) :
  startIndex < length lines ->
  exists r, determineEndLine lines startIndex PYTHON = Some r /\
            IndentationScoped_spec lines startIndex r.
Proof.
  intros Hlt. unfold determineEndLine, IndentationScoped_spec.
  destruct (nth_error lines startIndex) as [start|] eqn:Hs;
    [|apply nth_error_None in Hs; lia].
  rewrite search_nonspace.
  destruct (blank start) eqn:Hb.
  - simpl. exists (startIndex + 1). split; [reflexivity|].
    exists start. rewrite Hb. auto.
  - destruct (Z.eqb_spec (Z.of_nat (indentation start)) (-1)); [lia|].
    pose proof (indent_scan_spec (indentation start)
                  (skipn (startIndex + 1) lines) (firstn (startIndex + 1) lines)) as H.
    rewrite firstn_skipn in H.
    rewrite length_firstn, Nat.min_l in H by lia.
    destruct (indent_scan (skipn (startIndex + 1) lines) (startIndex + 1)
                (Z.of_nat (indentation start))) as [r|].
    + exists r. split; [reflexivity|]. exists start. rewrite Hb.
      split; [reflexivity|]. left. destruct H as (Hr & Hl & Hmin).
      split; [lia|]. split; [exact Hl|].
      intros j l Hj. apply Hmin. lia.
    + exists (length lines). split; [reflexivity|]. exists start. rewrite Hb.
      split; [reflexivity|]. right. split; [reflexivity|].
      intros j l Hj. apply H. lia.
Qed.

(** ** determineEndLine: the brace strategy *)

Lemma balance_app (a b : list str) : balance (a ++ b) = (balance a + balance b)%Z.
Proof. induction a as [|x a IH]; simpl; [reflexivity | rewrite IH; lia]. Qed.

Lemma brace_scan_spec (ls : list str) : forall scanned i,
  match brace_scan ls i (balance scanned) (seen_open scanned) with
  | Some r =>
      exists k, k < length ls /\ r = i + k + 1 /\
        (let seg := scanned ++ firstn (k + 1) ls in
         seen_open seg && (balance seg <=? 0)%Z = true) /\
        forall k', k' < k ->
          let seg := scanned ++ firstn (k' + 1) ls in
          seen_open seg && (balance seg <=? 0)%Z = false
  | None =>
      forall k, k < length ls ->
        let seg := scanned ++ firstn (k + 1) ls in
        seen_open seg && (balance seg <=? 0)%Z = false
  end.
Proof.
  induction ls as [|x ls IH]; intros scanned i; simpl brace_scan.
  - intros k Hk. simpl in Hk. lia.
  - specialize (IH (scanned ++ [x]) (S i)).
    assert (Hb : balance (scanned ++ [x]) =
                 (balance scanned + match_count x lbrace - match_count x rbrace)%Z).
    { rewrite balance_app. simpl. lia. }
    assert (Hs : seen_open (scanned ++ [x]) =
                 if (match_count x lbrace >? 0)%Z then true else seen_open scanned).
    { unfold seen_open. rewrite existsb_app. simpl. rewrite orb_false_r.
      rewrite Z.gtb_ltb. destruct (0 <? match_count x lbrace)%Z;
        [apply orb_true_r | apply orb_false_r]. }
    rewrite <- Hb, <- Hs.
    assert (Hseg : forall k, scanned ++ firstn (S k + 1) (x :: ls)
                             = (scanned ++ [x]) ++ firstn (k + 1) ls).
    { intros k. rewrite <- app_assoc. reflexivity. }
    destruct (seen_open (scanned ++ [x]) && (balance (scanned ++ [x]) <=? 0)%Z) eqn:E.
    + exists 0. simpl. repeat split; try lia. exact E.
    + destruct (brace_scan ls (S i) (balance (scanned ++ [x])) (seen_open (scanned ++ [x])))
        as [r|].
      * destruct IH as (k & Hk & -> & Hc & Hmin). exists (S k).
        simpl length. split; [lia|]. split; [lia|]. split.
        -- rewrite Hseg. exact Hc.
        -- intros [|k'] Hk'; [exact E|]. rewrite Hseg. apply Hmin. lia.
      * intros [|k] Hk; [exact E|]. rewrite Hseg. apply IH. simpl in Hk. lia.
Qed.

Lemma determineEndLine_braces (lines : list str) (startIndex : nat) {type : Lang} :
  type <> PYTHON ->
  exists r, determineEndLine lines startIndex type = Some r /\
            BraceScoped_spec lines startIndex r.
Proof.
  intros Ht.
  assert (H : determineEndLine lines startIndex type =
              match brace_scan (skipn startIndex lines) startIndex 0 false with
              | Some r => Some r
              | None => Some (Nat.min (startIndex + 20) (length lines))
              end) by (destruct type; [congruence | reflexivity | reflexivity]).
  rewrite H. clear H.
  pose proof (brace_scan_spec (skipn startIndex lines) [] startIndex) as H.
  simpl in H. unfold BraceScoped_spec, closed_at.
  destruct (brace_scan (skipn startIndex lines) startIndex 0 false) as [r|].
  - exists r. split; [reflexivity|]. left.
    destruct H as (k & Hk & -> & Hc & Hmin). rewrite length_skipn in Hk.
    exists (startIndex + k). split; [lia|].
    replace (startIndex + k + 1 - startIndex) with (k + 1) by lia.
    split; [exact Hc|]. split; [|lia].
    intros j Hj. replace (j + 1 - startIndex) with ((j - startIndex) + 1) by lia.
    apply Hmin. lia.
  - eexists. split; [reflexivity|]. right. split; [|reflexivity].
    intros i Hi. replace (i + 1 - startIndex) with ((i - startIndex) + 1) by lia.
    apply H. rewrite length_skipn. lia.
Qed.

Lemma Lang_eq_PYTHON (type : Lang) : type = PYTHON \/ type <> PYTHON.
Proof. destruct type; [left; reflexivity | right; discriminate | right; discriminate]. Qed.

(** The end line found lies after the start index and inside the file. *)
Lemma determineEndLine_bounds (lines : list str) (startIndex : nat) (type : Lang) :
  startIndex < length lines ->
  exists r, determineEndLine lines startIndex type = Some r /\
            startIndex + 1 <= r <= length lines.
Proof.
  intros Hlt. destruct (Lang_eq_PYTHON type) as [->|Ht].
  - destruct (determineEndLine_python lines startIndex Hlt) as (r & Hr & start & Hs & H).
    exists r. split; [exact Hr|].
    destruct (blank start); [lia|]. destruct H as [(H & _)|(-> & _)]; lia.
  - destruct (determineEndLine_braces lines startIndex Ht) as (r & Hr & H).
    exists r. split; [exact Hr|].
    destruct H as [(i & Hi & _ & _ & ->)|(_ & ->)]; lia.
Qed.

(** ** fileNodes and the file pass *)

Lemma Map_set_in (m : FileMap) (k v p fid : str) :
  In (p, fid) (Map_set m k v) -> (p = k /\ fid = v) \/ In (p, fid) m.
Proof.
  induction m as [|[k' v'] m IH]; simpl.
  - intros [H|[]]. injection H as <- <-. auto.
  - destruct (str_eqb k' k) eqn:E; simpl.
    + apply str_eqb_eq in E. subst k'.
      intros [H|H]; [injection H as <- <-|]; auto.
    + intros [H|H]; [auto|]. destruct (IH H); auto.
Qed.

Lemma Map_get_set (m : FileMap) (k v k' : str) :
  Map_get (Map_set m k v) k' = if str_eqb k k' then Some v else Map_get m k'.
Proof.
  induction m as [|[k0 v0] m IH]; simpl.
  - reflexivity.
  - destruct (str_eqb k0 k) eqn:E; simpl.
    + apply str_eqb_eq in E. subst k0. destruct (str_eqb k k'); reflexivity.
    + rewrite IH. destruct (str_eqb k0 k') eqn:E0; [|reflexivity].
      apply str_eqb_eq in E0. subst k0.
      destruct (str_eqb k k') eqn:E1; [|reflexivity].
      apply str_eqb_eq in E1. apply str_eqb_neq in E. congruence.
Qed.

Lemma Map_get_in (m : FileMap) (k v : str) : Map_get m k = Some v -> In (k, v) m.
Proof.
  induction m as [|[k0 v0] m IH]; simpl; [discriminate|].
  destruct (str_eqb k0 k) eqn:E.
  - apply str_eqb_eq in E. intros H. injection H as ->. subst. auto.
  - auto.
Qed.

Lemma file_pass_fold (files : list CodeFile) : forall ns m,
  fold_left
    (fun acc f =>
       let '(nodes', fileNodes) := acc in
       let id' := lit "FILE:" ++ path f in
       (nodes' ++ [file_node f], Map_set fileNodes (path f) id'))
    files (ns, m)
  = (ns ++ map file_node files,
     fold_left (fun m f => Map_set m (path f) (file_id (path f))) files m).
Proof.
  induction files as [|f files IH]; intros ns m; simpl.
  - rewrite app_nil_r. reflexivity.
  - rewrite IH, <- app_assoc. reflexivity.
Qed.

Lemma file_pass_nodes (files : list CodeFile) :
  fst (file_pass files) = map file_node files.
Proof. unfold file_pass. rewrite file_pass_fold. reflexivity. Qed.

Lemma file_pass_map (files : list CodeFile) :
  map_wf files (snd (file_pass files)) /\
  forall f, In f files ->
            Map_get (snd (file_pass files)) (path f) = Some (file_id (path f)).
Proof.
  unfold file_pass. rewrite file_pass_fold. simpl.
  assert (H : forall fs m,
             (forall f, In f fs -> In f files) -> map_wf files m ->
             let m' := fold_left (fun m f => Map_set m (path f) (file_id (path f))) fs m in
             map_wf files m' /\
             forall p, (Map_get m p = Some (file_id p) \/ exists f, In f fs /\ path f = p) ->
                       Map_get m' p = Some (file_id p)).
  { induction fs as [|f fs IH]; intros m Hsub Hm; simpl.
    - split; [exact Hm|]. intros p [H|(f & [] & _)]. exact H.
    - destruct (IH (Map_set m (path f) (file_id (path f)))) as [IH1 IH2].
      + intros g Hg. apply Hsub. now right.
      + intros p fid Hin. apply Map_set_in in Hin as [[-> ->]|Hin].
        * split; [reflexivity|]. exists f. split; [apply Hsub; now left | reflexivity].
        * now apply Hm.
      + split; [exact IH1|]. intros p Hp. apply IH2.
        rewrite Map_get_set. destruct (str_eqb (path f) p) eqn:E.
        * apply str_eqb_eq in E. subst p. now left.
        * destruct Hp as [Hp|(g & [->|Hg] & Hgp)].
          -- now left.
          -- apply str_eqb_neq in E. congruence.
          -- right. now exists g. }
  destruct (H files [] (fun f Hf => Hf)) as [H1 H2].
  - intros p fid [].
  - split; [exact H1|]. intros f Hf. apply H2. right. now exists f.
Qed.

(** ** The invariant of the line loop *)

Lemma forEach_invariant {A St : Type} (cb : St -> A -> nat -> option St)
      (P : St -> Prop) (l : list A) : forall pre st,
  P st ->
  (forall st x i, nth_error (pre ++ l) i = Some x -> P st ->
                  exists st', cb st x i = Some st' /\ P st') ->
  exists st', forEach cb l (length pre) st = Some st' /\ P st'.
Proof.
  induction l as [|x l IH]; intros pre st HP Hstep; simpl.
  - exists st. auto.
  - destruct (Hstep st x (length pre)) as (st1 & -> & HP1); [|exact HP|].
    + rewrite nth_error_app2, Nat.sub_diag by lia. reflexivity.
    + specialize (IH (pre ++ [x]) st1 HP1).
      rewrite length_app, Nat.add_1_r, <- app_assoc in IH. apply IH. exact Hstep.
Qed.

Lemma link_origin_app (ns ns' : list GraphNode) (l : GraphLink) :
  link_origin ns l -> link_origin (ns ++ ns') l.
Proof.
  intros (s & t & Hs & Ht & H). exists s, t.
  split; [apply in_or_app; now left|]. split; [apply in_or_app; now left|]. exact H.
Qed.

Lemma wf_push_node files st n :
  scan_wf files st -> node_origin files n -> scan_wf files (push_node n st).
Proof.
  intros [Hf Hn Hl Hc] Ho. constructor; simpl.
  - intros f Hin. apply in_or_app. left. now apply Hf.
  - apply Forall_app. split; [exact Hn | constructor; [exact Ho | constructor]].
  - eapply Forall_impl; [|exact Hl]. intros l. apply link_origin_app.
  - intros c Hcc. destruct (Hc c Hcc) as [H1 H2]. split; [|exact H2].
    apply in_or_app. now left.
Qed.

Lemma wf_push_link files st l :
  scan_wf files st -> link_origin (out_nodes st) l -> scan_wf files (push_link l st).
Proof.
  intros [Hf Hn Hl Hc] Ho. constructor; simpl; try assumption.
  apply Forall_app. split; [exact Hl | constructor; [exact Ho | constructor]].
Qed.

Lemma wf_set_currentClass files st c :
  scan_wf files st ->
  (forall n, c = Some n -> In n (out_nodes st) /\ type n = CLASS) ->
  scan_wf files (set_currentClass c st).
Proof. intros [Hf Hn Hl Hc] Ho. constructor; simpl; assumption. Qed.

Lemma link_imports_nodes fileNodes f fileId test : forall st,
  out_nodes (link_imports fileNodes f fileId test st) = out_nodes st /\
  currentClass (link_imports fileNodes f fileId test st) = currentClass st.
Proof.
  unfold link_imports.
  induction fileNodes as [|[p fid] m IH]; intros st; simpl; [auto|].
  destruct (test p && negb (str_eqb p (path f))); [|apply IH].
  destruct (IH (push_link {| source := fileId; target := fid; link_type := IMPORT |} st))
    as [-> ->]. auto.
Qed.

Lemma wf_link_imports files fileNodes f test :
  In f files ->
  (forall p fid, In (p, fid) fileNodes ->
                 fid = file_id p /\ exists g, In g files /\ path g = p) ->
  forall st, scan_wf files st ->
             scan_wf files (link_imports fileNodes f (file_id (path f)) test st).
Proof.
  intros Hf. unfold link_imports.
  induction fileNodes as [|[p fid] m IH]; intros Hm st Hwf; simpl; [exact Hwf|].
  assert (Hm' : forall p fid, In (p, fid) m ->
                              fid = file_id p /\ exists g, In g files /\ path g = p).
  { intros q qid Hq. apply Hm. now right. }
  destruct (test p && negb (str_eqb p (path f))) eqn:E; [|now apply IH].
  apply IH; [exact Hm'|]. apply wf_push_link; [exact Hwf|].
  apply andb_true_iff in E as [_ E]. apply negb_true_iff, str_eqb_neq in E.
  destruct (Hm p fid (or_introl eq_refl)) as (-> & g & Hg & Hgp).
  exists (file_node f), (file_node g).
  split; [now apply (wf_files _ _ Hwf)|]. split; [now apply (wf_files _ _ Hwf)|].
  simpl. subst p. repeat split; congruence.
Qed.

Lemma link_file_new files f st n :
  scan_wf files st -> In f files -> contains_kinds FILE (type n) = true ->
  link_origin (out_nodes (push_node n st)) (contains (file_id (path f)) (id n)).
Proof.
  intros Hwf Hf Hk. exists (file_node f), n. simpl.
  split; [apply in_or_app; left; now apply (wf_files _ _ Hwf)|].
  split; [apply in_or_app; right; now left|]. auto.
Qed.

Lemma link_class_new files st cc n :
  scan_wf files st -> currentClass st = Some cc -> type n = FUNCTION ->
  link_origin (out_nodes (push_node n st)) (contains (id cc) (id n)).
Proof.
  intros Hwf Hc Hk. destruct (wf_cursor _ _ Hwf cc Hc) as [Hin Hty].
  exists cc, n. simpl.
  split; [apply in_or_app; now left|].
  split; [apply in_or_app; right; now left|].
  rewrite Hty, Hk. auto.
Qed.

Section LineInvariant.

Variable files : list CodeFile.
Variable fileNodes : FileMap.
Variable f : CodeFile.
Variable depth : Z.
Variable line : str.
Variable index : nat.

Hypothesis Hfile : In f files.
Hypothesis Hmap : map_wf files fileNodes.
Hypothesis Hline : nth_error (lines_of f) index = Some line.

Lemma endLine_defined (lang : Lang) :
  exists e, determineEndLine (lines_of f) index lang = Some e.
Proof.
  destruct (determineEndLine_bounds (lines_of f) index lang) as (e & He & _).
  - eapply nth_error_lt. exact Hline.
  - now exists e.
Qed.

Lemma python_function_wf st :
  scan_wf files st ->
  exists st', python_function f (lines_of f) (file_id (path f)) st line index = Some st' /\
              scan_wf files st'.
Proof.
  intros Hwf. unfold python_function.
  destruct (str_match line re_py_def) as [m|]; [|now exists st].
  destruct (endLine_defined PYTHON) as (e & He). rewrite He.
  set (node := function_node f (capture m 1) (index + 1) e).
  assert (Hwf1 : scan_wf files (push_node node st))
    by (apply wf_push_node; [exact Hwf | subst node; new_node_wf]).
  destruct (search line nonspace >? 0)%Z.
  - simpl currentClass. destruct (currentClass st) as [cc|] eqn:Hcc.
    + eexists. split; [reflexivity|]. apply wf_push_link; [exact Hwf1|].
      eapply link_class_new; [exact Hwf | exact Hcc | reflexivity].
    + eexists. split; [reflexivity|]. apply wf_set_currentClass; [|discriminate].
      apply wf_push_link; [exact Hwf1|]. apply link_file_new with (files := files); auto.
  - eexists. split; [reflexivity|]. apply wf_set_currentClass; [|discriminate].
    apply wf_push_link; [exact Hwf1|]. apply link_file_new with (files := files); auto.
Qed.

Lemma python_import_wf st :
  scan_wf files st -> scan_wf files (python_import fileNodes f (file_id (path f)) st line).
Proof.
  intros Hwf. unfold python_import.
  destruct (str_match line re_py_import); [|exact Hwf].
  now apply wf_link_imports.
Qed.

Lemma python_line_wf st :
  scan_wf files st ->
  exists st', python_line fileNodes f (lines_of f) (file_id (path f)) depth st line index = Some st' /\
              scan_wf files st'.
Proof.
  intros Hwf. unfold python_line.
  destruct (if (depth >=? 2)%Z then str_match line re_py_class else None) as [m|].
  - destruct (endLine_defined PYTHON) as (e & He). rewrite He.
    eexists. split; [reflexivity|].
    set (node := class_node f (capture m 1) (index + 1) e (lit "Class definition in ")).
    apply wf_set_currentClass.
    + apply wf_push_link.
      * apply wf_push_node; [exact Hwf | subst node; new_node_wf].
      * apply link_file_new with (files := files); auto.
    + intros n Hn. injection Hn as <-. simpl. split; [|reflexivity].
      apply in_or_app. right. now left.
  - destruct (depth >=? 3)%Z.
    + destruct (python_function_wf st Hwf) as (st1 & -> & Hwf1).
      eexists. split; [reflexivity|]. now apply python_import_wf.
    + eexists. split; [reflexivity|]. now apply python_import_wf.
Qed.

Lemma class_push_wf st name' e lang what :
  determineEndLine (lines_of f) index lang = Some e ->
  scan_wf files st ->
  let node := class_node f name' (index + 1) e what in
  scan_wf files (push_link (contains (file_id (path f)) (id node)) (push_node node st)).
Proof.
  intros He Hwf node. apply wf_push_link.
  - apply wf_push_node; [exact Hwf | subst node; new_node_wf].
  - apply link_file_new with (files := files); auto.
Qed.

Lemma function_push_wf st name' e lang :
  determineEndLine (lines_of f) index lang = Some e ->
  scan_wf files st ->
  let node := function_node f name' (index + 1) e in
  scan_wf files (push_link (contains (file_id (path f)) (id node)) (push_node node st)).
Proof.
  intros He Hwf node. apply wf_push_link.
  - apply wf_push_node; [exact Hwf | subst node; new_node_wf].
  - apply link_file_new with (files := files); auto.
Qed.

Lemma js_line_wf st :
  scan_wf files st ->
  exists st', js_line fileNodes f (lines_of f) (file_id (path f)) depth st line index = Some st' /\
              scan_wf files st'.
Proof.
  intros Hwf. unfold js_line.
  destruct (endLine_defined JS) as (e & He).
  assert (H1 : exists st1, (if (depth >=? 2)%Z
                            then js_class f (lines_of f) (file_id (path f)) st line index
                            else Some st) = Some st1 /\ scan_wf files st1).
  { destruct (depth >=? 2)%Z; [|now exists st]. unfold js_class.
    destruct (str_match line re_js_class) as [m|]; [|now exists st].
    rewrite He. eexists. split; [reflexivity|]. eapply class_push_wf; eassumption. }
  destruct H1 as (st1 & -> & Hwf1).
  assert (H2 : exists st2, (if (depth >=? 3)%Z
                            then js_function f (lines_of f) (file_id (path f)) st1 line index
                            else Some st1) = Some st2 /\ scan_wf files st2).
  { destruct (depth >=? 3)%Z; [|now exists st1]. unfold js_function.
    destruct (str_match line re_js_func) as [m|]; [|now exists st1].
    destruct (or_else (group 1 m) (or_else (group 2 m) (group 3 m))) as [[|c nm]|];
      try (now exists st1).
    rewrite He. eexists. split; [reflexivity|]. eapply function_push_wf; eassumption. }
  destruct H2 as (st2 & -> & Hwf2).
  eexists. split; [reflexivity|]. unfold js_import.
  destruct (str_match line re_js_import) as [m|]; [|exact Hwf2].
  destruct (pop (split (capture m 1) slash)) as [[|c nm]|]; try exact Hwf2.
  now apply wf_link_imports.
Qed.

Lemma c_line_wf st :
  scan_wf files st ->
  exists st', c_line fileNodes f (lines_of f) (file_id (path f)) depth st line index = Some st' /\
              scan_wf files st'.
Proof.
  intros Hwf. unfold c_line.
  destruct (endLine_defined C_CPP) as (e & He).
  assert (H1 : exists st1, (if (depth >=? 2)%Z
                            then c_class f (lines_of f) (file_id (path f)) st line index
                            else Some st) = Some st1 /\ scan_wf files st1).
  { destruct (depth >=? 2)%Z; [|now exists st]. unfold c_class.
    destruct (str_match line re_c_class) as [m|]; [|now exists st].
    rewrite He. eexists. split; [reflexivity|]. eapply class_push_wf; eassumption. }
  destruct H1 as (st1 & -> & Hwf1).
  assert (H2 : exists st2, (if (depth >=? 3)%Z
                            then c_function f (lines_of f) (file_id (path f)) st1 line index
                            else Some st1) = Some st2 /\ scan_wf files st2).
  { destruct (depth >=? 3)%Z; [|now exists st1]. unfold c_function.
    destruct (str_match line re_c_func) as [m|]; [|now exists st1].
    destruct (negb (array_includes keywords (capture m 1))
              && negb (endsWith (trim line) (lit ";"))); [|now exists st1].
    rewrite He. eexists. split; [reflexivity|]. eapply function_push_wf; eassumption. }
  destruct H2 as (st2 & -> & Hwf2).
  eexists. split; [reflexivity|]. unfold c_include.
  destruct (str_match line re_c_include) as [m|]; [|exact Hwf2].
  destruct (pop (split (capture m 1) slash)) as [[|c nm]|]; try exact Hwf2.
  now apply wf_link_imports.
Qed.

Lemma process_line_wf st :
  scan_wf files st ->
  exists st', process_line fileNodes f (lines_of f) (file_id (path f)) depth st line index = Some st' /\
              scan_wf files st'.
Proof.
  intros Hwf. unfold process_line.
  destruct (str_eqb (trim line) []); [now exists st|].
  destruct (endsWith (path f) (lit ".py")); [now apply python_line_wf|].
  destruct (is_match (path f) re_js_path); [now apply js_line_wf|].
  destruct (is_match (path f) re_c_path); [now apply c_line_wf|].
  now exists st.
Qed.

End LineInvariant.

(** ** The whole run *)

Lemma process_file_wf files depth f i st :
  In f files -> scan_wf files st ->
  exists st', process_file (snd (file_pass files)) depth st f i = Some st' /\
              scan_wf files st'.
Proof.
  intros Hf Hwf. unfold process_file.
  destruct (file_pass_map files) as [Hmap Hget]. rewrite (Hget f Hf).
  apply (forEach_invariant _ (scan_wf files) (lines_of f) []).
  - apply wf_set_currentClass; [exact Hwf | discriminate].
  - intros st1 line index Hline Hwf1. now apply process_line_wf.
Qed.

Lemma file_pass_wf files :
  scan_wf files {| out_nodes := fst (file_pass files); out_links := [];
                   currentClass := None |}.
Proof.
  rewrite file_pass_nodes. constructor; simpl.
  - intros f Hf. now apply in_map.
  - apply Forall_forall. intros n Hn. apply in_map_iff in Hn as (f & <- & Hf).
    now constructor.
  - constructor.
  - discriminate.
Qed.

(** [analyzeCodebase] returns on every input, and its graph satisfies the
    invariant. *)
Lemma analyzeCodebase_wf files depth :
  exists st,
    analyzeCodebase files depth =
      Some {| nodes := out_nodes st; links := out_links st;
              summary := make_summary depth files (out_nodes st) |} /\
    scan_wf files st.
Proof.
  unfold analyzeCodebase.
  pose proof (file_pass_wf files) as H0.
  destruct (file_pass files) as [nodes0 fileNodes] eqn:Hfp. simpl in H0.
  destruct (forEach_invariant (process_file fileNodes depth) (scan_wf files) files []
              _ H0) as (st & Hst & Hwf).
  - intros st f i Hf Hwf. apply nth_error_In in Hf.
    replace fileNodes with (snd (file_pass files)) by now rewrite Hfp.
    now apply process_file_wf.
  - simpl in Hst. rewrite Hst. now exists st.
Qed.

(** No input makes [analyzeCodebase] raise. *)
Lemma analyzeCodebase_returns files depth :
  exists r, analyzeCodebase files depth = Some r.
Proof.
  destruct (analyzeCodebase_wf files depth) as (st & Hr & _). eauto.
Qed.

Lemma analyzeCodebase_graph files depth r :
  analyzeCodebase files depth = Some r ->
  Forall (node_origin files) (nodes r) /\ Forall (link_origin (nodes r)) (links r).
Proof.
  destruct (analyzeCodebase_wf files depth) as (st & -> & Hwf).
  intros H. injection H as <-. simpl. split; [apply Hwf | apply Hwf].
Qed.

(** ** What a line adds, independently of the state and of the depth *)

Lemma link_imports_effect fileNodes f fileId test :
  exists ls, Forall (fun l => is_import l = true) ls /\
    forall st, out_links (link_imports fileNodes f fileId test st) = out_links st ++ ls.
Proof.
  unfold link_imports.
  induction fileNodes as [|[p fid] m (ls & Hls & IH)]; simpl.
  - exists []. split; [constructor|]. intros st. now rewrite app_nil_r.
  - destruct (test p && negb (str_eqb p (path f))).
    + exists ({| source := fileId; target := fid; link_type := IMPORT |} :: ls).
      split; [constructor; [reflexivity | exact Hls]|].
      intros st. rewrite IH. simpl. now rewrite <- app_assoc.
    + exists ls. split; [exact Hls | exact IH].
Qed.

Lemma filter_all {A} (p : A -> bool) (l : list A) :
  Forall (fun x => p x = true) l -> filter p l = l.
Proof.
  induction 1 as [|x l Hx _ IH]; simpl; [reflexivity|]. now rewrite Hx, IH.
Qed.

Lemma filter_none {A} (p : A -> bool) (l : list A) :
  Forall (fun x => p x = false) l -> filter p l = [].
Proof.
  induction 1 as [|x l Hx _ IH]; simpl; [reflexivity|]. now rewrite Hx, IH.
Qed.

Lemma import_step_id : import_step (fun st => st) [].
Proof. intros st. unfold imports_of. rewrite app_nil_r. auto. Qed.

Lemma import_step_link_imports fileNodes f fileId test :
  exists ls, import_step (link_imports fileNodes f fileId test) ls.
Proof.
  destruct (link_imports_effect fileNodes f fileId test) as (ls & Hls & H).
  exists ls. intros st. split; [apply link_imports_nodes|].
  unfold imports_of, contained. rewrite H, !filter_app, (filter_all _ _ Hls).
  split; [reflexivity|]. rewrite (filter_none is_contains ls), app_nil_r; [reflexivity|].
  eapply Forall_impl; [|exact Hls]. intros l. unfold is_import, is_contains.
  destruct (link_type l); congruence.
Qed.

Lemma python_import_effect fileNodes f fileId line :
  exists ls, import_step (fun st => python_import fileNodes f fileId st line) ls.
Proof.
  unfold python_import. destruct (str_match line re_py_import).
  - apply import_step_link_imports.
  - exists []. apply import_step_id.
Qed.

Lemma js_import_effect fileNodes f fileId line :
  exists ls, import_step (fun st => js_import fileNodes f fileId st line) ls.
Proof.
  unfold js_import. destruct (str_match line re_js_import) as [m|].
  - destruct (pop (split (capture m 1) slash)) as [[|c nm]|];
      try (exists []; apply import_step_id).
    apply import_step_link_imports.
  - exists []. apply import_step_id.
Qed.

Lemma c_include_effect fileNodes f fileId line :
  exists ls, import_step (fun st => c_include fileNodes f fileId st line) ls.
Proof.
  unfold c_include. destruct (str_match line re_c_include) as [m|].
  - destruct (pop (split (capture m 1) slash)) as [[|c nm]|];
      try (exists []; apply import_step_id).
    apply import_step_link_imports.
  - exists []. apply import_step_id.
Qed.

Lemma node_step_none (t : NodeType) : node_step (fun st => Some st) t [].
Proof.
  split; [constructor|]. intros st st' H. injection H as <-.
  simpl. rewrite !app_nil_r. auto.
Qed.

Lemma node_step_fail (t : NodeType) : node_step (fun _ => None) t [].
Proof. split; [constructor | discriminate]. Qed.

Lemma imports_of_contains st n src tgt :
  imports_of (push_link (contains src tgt) (push_node n st)) = imports_of st.
Proof.
  unfold imports_of. simpl. rewrite filter_app. simpl. apply app_nil_r.
Qed.

Lemma contained_push st n src tgt :
  contained (push_link (contains src tgt) (push_node n st)) = contained st ++ [tgt].
Proof.
  unfold contained. simpl. rewrite filter_app, map_app. reflexivity.
Qed.

(** Pushing a node and the Contains edge to it. *)
Lemma node_step_push (n : GraphNode) (src : str) :
  node_step (fun st => Some (push_link (contains src (id n)) (push_node n st)))
            (type n) [n].
Proof.
  split; [constructor; [reflexivity | constructor]|].
  intros st st' H. injection H as <-. split; [reflexivity|].
  split; [apply imports_of_contains | apply contained_push].
Qed.

Lemma python_function_effect f lines fileId line index :
  exists ns, node_step (fun st => python_function f lines fileId st line index)
                       FUNCTION ns.
Proof.
  unfold python_function. destruct (str_match line re_py_def) as [m|].
  - destruct (determineEndLine lines index PYTHON) as [e|].
    + exists [function_node f (capture m 1) (index + 1) e].
      split; [constructor; [reflexivity | constructor]|].
      intros st st' H. simpl currentClass in H.
      destruct (search line nonspace >? 0)%Z, (currentClass st);
        injection H as <-; (split; [reflexivity|]);
        (split; [apply imports_of_contains | apply contained_push]).
    + exists []. apply node_step_fail.
  - exists []. apply node_step_none.
Qed.

Lemma js_class_effect f lines fileId line index :
  exists ns, node_step (fun st => js_class f lines fileId st line index) CLASS ns.
Proof.
  unfold js_class. destruct (str_match line re_js_class) as [m|].
  - destruct (determineEndLine lines index JS) as [e|].
    + eexists. apply (node_step_push (class_node f (capture m 1) (index + 1) e _)).
    + exists []. apply node_step_fail.
  - exists []. apply node_step_none.
Qed.

Lemma js_function_effect f lines fileId line index :
  exists ns, node_step (fun st => js_function f lines fileId st line index) FUNCTION ns.
Proof.
  unfold js_function. destruct (str_match line re_js_func) as [m|].
  - destruct (or_else (group 1 m) (or_else (group 2 m) (group 3 m))) as [[|c nm]|];
      try (exists []; apply node_step_none).
    destruct (determineEndLine lines index JS) as [e|].
    + eexists. apply (node_step_push (function_node f (c :: nm) (index + 1) e)).
    + exists []. apply node_step_fail.
  - exists []. apply node_step_none.
Qed.

Lemma c_class_effect f lines fileId line index :
  exists ns, node_step (fun st => c_class f lines fileId st line index) CLASS ns.
Proof.
  unfold c_class. destruct (str_match line re_c_class) as [m|].
  - destruct (determineEndLine lines index C_CPP) as [e|].
    + eexists. apply (node_step_push (class_node f (capture m 1) (index + 1) e _)).
    + exists []. apply node_step_fail.
  - exists []. apply node_step_none.
Qed.

Lemma c_function_effect f lines fileId line index :
  exists ns, node_step (fun st => c_function f lines fileId st line index) FUNCTION ns.
Proof.
  unfold c_function. destruct (str_match line re_c_func) as [m|].
  - destruct (negb (array_includes keywords (capture m 1))
              && negb (endsWith (trim line) (lit ";")));
      [|exists []; apply node_step_none].
    destruct (determineEndLine lines index C_CPP) as [e|].
    + eexists. apply (node_step_push (function_node f (capture m 1) (index + 1) e)).
    + exists []. apply node_step_fail.
  - exists []. apply node_step_none.
Qed.

Lemma compose_effect {g1 g2 : Scan -> option Scan} {g3 : Scan -> Scan} {cs fs ls} :
  node_step g1 CLASS cs -> node_step g2 FUNCTION fs -> import_step g3 ls ->
  line_effect
    (fun depth st =>
       st1 <- (if (depth >=? 2)%Z then g1 st else Some st) ;;
       st2 <- (if (depth >=? 3)%Z then g2 st1 else Some st1) ;;
       Some (g3 st2))
    cs fs ls.
Proof.
  intros [Hcs H1] [Hfs H2] H3. split; [exact Hcs|]. split; [exact Hfs|].
  intros depth st st' H.
  assert (E1 : exists st1,
             (if (depth >=? 2)%Z then g1 st else Some st) = Some st1 /\
             out_nodes st1 = out_nodes st ++ (if (depth >=? 2)%Z then cs else []) /\
             imports_of st1 = imports_of st /\
             contained st1 = contained st
                             ++ map id (if (depth >=? 2)%Z then cs else [])).
  { destruct (depth >=? 2)%Z.
    - destruct (g1 st) as [st1|] eqn:E; [|discriminate].
      exists st1. split; [reflexivity|]. now apply H1.
    - exists st. simpl. rewrite !app_nil_r. auto. }
  destruct E1 as (st1 & E1 & Hn1 & Hi1 & Hc1). rewrite E1 in H.
  assert (E2 : exists st2,
             (if (depth >=? 3)%Z then g2 st1 else Some st1) = Some st2 /\
             out_nodes st2 = out_nodes st1 ++ (if (depth >=? 3)%Z then fs else []) /\
             imports_of st2 = imports_of st1 /\
             contained st2 = contained st1
                             ++ map id (if (depth >=? 3)%Z then fs else [])).
  { destruct (depth >=? 3)%Z.
    - destruct (g2 st1) as [st2|] eqn:E; [|discriminate].
      exists st2. split; [reflexivity|]. now apply H2.
    - exists st1. simpl. rewrite !app_nil_r. auto. }
  destruct E2 as (st2 & E2 & Hn2 & Hi2 & Hc2). rewrite E2 in H.
  injection H as <-. destruct (H3 st2) as (Hn3 & Hi3 & Hc3). cbv zeta.
  rewrite Hn3, Hi3, Hc3, Hn2, Hi2, Hc2, Hn1, Hi1, Hc1, map_app, <- !app_assoc. auto.
Qed.

Lemma js_line_effect fileNodes f lines fileId line index :
  exists cs fs ls,
    line_effect (fun depth st => js_line fileNodes f lines fileId depth st line index)
                cs fs ls.
Proof.
  destruct (js_class_effect f lines fileId line index) as (cs & Hcs).
  destruct (js_function_effect f lines fileId line index) as (fs & Hfs).
  destruct (js_import_effect fileNodes f fileId line) as (ls & Hls).
  exists cs, fs, ls. exact (compose_effect Hcs Hfs Hls).
Qed.

Lemma c_line_effect fileNodes f lines fileId line index :
  exists cs fs ls,
    line_effect (fun depth st => c_line fileNodes f lines fileId depth st line index)
                cs fs ls.
Proof.
  destruct (c_class_effect f lines fileId line index) as (cs & Hcs).
  destruct (c_function_effect f lines fileId line index) as (fs & Hfs).
  destruct (c_include_effect fileNodes f fileId line) as (ls & Hls).
  exists cs, fs, ls. exact (compose_effect Hcs Hfs Hls).
Qed.

Lemma geb_3_2 (depth : Z) : (depth >=? 3)%Z = true -> (depth >=? 2)%Z = true.
Proof. intros H. apply Z.geb_le in H. apply Z.geb_le. lia. Qed.

Lemma python_line_effect fileNodes f lines fileId line index :
  exists cs fs ls,
    line_effect (fun depth st => python_line fileNodes f lines fileId depth st line index)
                cs fs ls.
Proof.
  destruct (str_match line re_py_class) as [m|] eqn:Hc.
  - (* a class line: nothing but the class node, at any depth *)
    assert (Hskip : forall depth st,
               (depth >=? 2)%Z = false ->
               python_line fileNodes f lines fileId depth st line index = Some st).
    { intros depth st D2. unfold python_line. rewrite D2.
      destruct (depth >=? 3)%Z eqn:D3; [apply geb_3_2 in D3; congruence|].
      unfold python_import. now rewrite (py_class_not_import _ _ Hc). }
    destruct (determineEndLine lines index PYTHON) as [e|] eqn:He.
    + exists [class_node f (capture m 1) (index + 1) e (lit "Class definition in ")], [], [].
      split; [constructor; [reflexivity | constructor]|]. split; [constructor|].
      intros depth st st' H. destruct (depth >=? 2)%Z eqn:D2.
      * unfold python_line in H. rewrite D2, Hc, He in H. injection H as <-.
        cbv zeta. split; [|split].
        -- simpl. destruct (depth >=? 3)%Z; reflexivity.
        -- rewrite app_nil_r. apply imports_of_contains.
        -- destruct (depth >=? 3)%Z; apply contained_push.
      * rewrite (Hskip depth st D2) in H. injection H as <-.
        destruct (depth >=? 3)%Z; simpl; rewrite !app_nil_r; auto.
    + exists [], [], []. split; [constructor|]. split; [constructor|].
      intros depth st st' H. destruct (depth >=? 2)%Z eqn:D2.
      * unfold python_line in H. rewrite D2, Hc, He in H. discriminate.
      * rewrite (Hskip depth st D2) in H. injection H as <-.
        destruct (depth >=? 3)%Z; simpl; rewrite !app_nil_r; auto.
  - destruct (python_function_effect f lines fileId line index) as (fs & Hfs).
    destruct (python_import_effect fileNodes f fileId line) as (ls & Hls).
    exists [], fs, ls.
    pose proof (compose_effect (node_step_none CLASS) Hfs Hls) as (H1 & H2 & H3).
    split; [exact H1|]. split; [exact H2|].
    intros depth st st' H. apply H3.
    unfold python_line in H. rewrite Hc in H.
    destruct (depth >=? 2)%Z; exact H.
Qed.

Lemma process_line_effect fileNodes f lines fileId line index :
  exists cs fs ls,
    line_effect (fun depth st => process_line fileNodes f lines fileId depth st line index)
                cs fs ls.
Proof.
  assert (Hnone : exists cs fs ls, line_effect (fun _ st => Some st) cs fs ls).
  { exists [], [], []. split; [constructor|]. split; [constructor|].
    intros depth st st' H. injection H as <-.
    destruct (depth >=? 2)%Z, (depth >=? 3)%Z; simpl; rewrite !app_nil_r; auto. }
  unfold process_line.
  destruct (str_eqb (trim line) []); [exact Hnone|].
  destruct (endsWith (path f) (lit ".py")); [apply python_line_effect|].
  destruct (is_match (path f) re_js_path); [apply js_line_effect|].
  destruct (is_match (path f) re_c_path); [apply c_line_effect|].
  exact Hnone.
Qed.

(** ** Two depths side by side *)

Lemma forEach_related {A St : Type} (cb1 cb2 : St -> A -> nat -> option St)
      (R : St -> St -> Prop) (l : list A) :
  (forall x j a b a' b',
      R a b -> cb1 a x j = Some a' -> cb2 b x j = Some b' -> R a' b') ->
  forall i s1 s2 r1 r2,
    R s1 s2 -> forEach cb1 l i s1 = Some r1 -> forEach cb2 l i s2 = Some r2 ->
    R r1 r2.
Proof.
  intros Hstep. induction l as [|x l IH]; intros i s1 s2 r1 r2 HR H1 H2; simpl in *.
  - injection H1 as <-. injection H2 as <-. exact HR.
  - destruct (cb1 s1 x i) as [a'|] eqn:E1; [|discriminate].
    destruct (cb2 s2 x i) as [b'|] eqn:E2; [|discriminate].
    apply (IH (S i) a' b'); try assumption.
    apply (Hstep x i s1 s2); assumption.
Qed.

Lemma filter_visible_class d cs :
  Forall (fun n => type n = CLASS) cs ->
  filter (visible d) cs = if (d >=? 2)%Z then cs else [].
Proof.
  intros H. destruct (d >=? 2)%Z eqn:D.
  - apply filter_all. eapply Forall_impl; [|exact H].
    intros n Hn. unfold visible. now rewrite Hn.
  - apply filter_none. eapply Forall_impl; [|exact H].
    intros n Hn. unfold visible. now rewrite Hn.
Qed.

Lemma filter_visible_function d fs :
  Forall (fun n => type n = FUNCTION) fs ->
  filter (visible d) fs = if (d >=? 3)%Z then fs else [].
Proof.
  intros H. destruct (d >=? 3)%Z eqn:D.
  - apply filter_all. eapply Forall_impl; [|exact H].
    intros n Hn. unfold visible. now rewrite Hn.
  - apply filter_none. eapply Forall_impl; [|exact H].
    intros n Hn. unfold visible. now rewrite Hn.
Qed.

Lemma geb_mono (d1 d2 k : Z) :
  (d1 <= d2)%Z -> (d1 >=? k)%Z = true -> (d2 >=? k)%Z = true.
Proof. intros Hle H. apply Z.geb_le in H. apply Z.geb_le. lia. Qed.

Lemma line_effect_related {step cs fs ls d1 d2 s1 s2 s1' s2'} :
  line_effect step cs fs ls -> (d1 <= d2)%Z -> depth_related d1 s1 s2 ->
  step d1 s1 = Some s1' -> step d2 s2 = Some s2' -> depth_related d1 s1' s2'.
Proof.
  intros (Hcs & Hfs & H) Hle [RN RI] E1 E2.
  destruct (H d1 s1 s1' E1) as (N1 & I1 & _).
  destruct (H d2 s2 s2' E2) as (N2 & I2 & _).
  split; [|congruence].
  rewrite N1, N2, RN, !filter_app. f_equal.
  pose proof (geb_mono d1 d2 2 Hle) as M2. pose proof (geb_mono d1 d2 3 Hle) as M3.
  f_equal.
  - destruct (d2 >=? 2)%Z.
    + symmetry. now apply filter_visible_class.
    + destruct (d1 >=? 2)%Z; [discriminate (M2 eq_refl) | reflexivity].
  - destruct (d2 >=? 3)%Z.
    + symmetry. now apply filter_visible_function.
    + destruct (d1 >=? 3)%Z; [discriminate (M3 eq_refl) | reflexivity].
Qed.

Lemma process_file_related fileNodes d1 d2 f j a b a' b' :
  (d1 <= d2)%Z -> depth_related d1 a b ->
  process_file fileNodes d1 a f j = Some a' ->
  process_file fileNodes d2 b f j = Some b' ->
  depth_related d1 a' b'.
Proof.
  intros Hle HR. unfold process_file.
  apply forEach_related with (R := depth_related d1); [|exact HR].
  intros line index s1 s2 s1' s2' HR' E1 E2.
  destruct (process_line_effect fileNodes f (split (content f) newline)
              match Map_get fileNodes (path f) with Some i => i | None => [] end
              line index) as (cs & fs & ls & Heff).
  exact (line_effect_related Heff Hle HR' E1 E2).
Qed.

(** The graph at a depth is the graph at any greater depth with the nodes
    of the deeper kinds taken out; the Import edges are the same. *)
Lemma analyzeCodebase_depths files d1 d2 r1 r2 :
  (d1 <= d2)%Z ->
  analyzeCodebase files d1 = Some r1 -> analyzeCodebase files d2 = Some r2 ->
  nodes r1 = filter (visible d1) (nodes r2) /\ import_edges r1 = import_edges r2.
Proof.
  intros Hle. unfold analyzeCodebase.
  pose proof (file_pass_nodes files) as Hn0.
  destruct (file_pass files) as [nodes0 fileNodes]. simpl in Hn0.
  set (st0 := {| out_nodes := nodes0; out_links := []; currentClass := None |}).
  destruct (forEach (process_file fileNodes d1) files 0 st0) as [s1|] eqn:E1;
    [|discriminate].
  destruct (forEach (process_file fileNodes d2) files 0 st0) as [s2|] eqn:E2;
    [|discriminate].
  intros H1 H2. injection H1 as <-. injection H2 as <-.
  unfold import_edges. simpl.
  apply (forEach_related (process_file fileNodes d1) (process_file fileNodes d2)
           (depth_related d1) files) with (i := 0) (s1 := st0) (s2 := st0);
    try assumption.
  - intros f j a b a' b' HR. now apply process_file_related.
  - split; [|reflexivity]. simpl. symmetry. apply filter_all.
    rewrite Hn0. apply Forall_forall. intros n Hn.
    apply in_map_iff in Hn as (f & <- & _). reflexivity.
Qed.

(** ** One Contains edge per Class and Function node *)

Lemma forEach_preserves {A St : Type} (cb : St -> A -> nat -> option St)
      (P : St -> Prop) (l : list A) :
  (forall x j a a', P a -> cb a x j = Some a' -> P a') ->
  forall i s r, P s -> forEach cb l i s = Some r -> P r.
Proof.
  intros Hstep. induction l as [|x l IH]; intros i s r HP H; simpl in H.
  - injection H as <-. exact HP.
  - destruct (cb s x i) as [a'|] eqn:E; [|discriminate].
    apply (IH (S i) a'); [|exact H]. now apply (Hstep x i s).
Qed.

Lemma line_effect_one_edge {step cs fs ls depth st st'} :
  line_effect step cs fs ls -> one_edge_per_node st ->
  step depth st = Some st' -> one_edge_per_node st'.
Proof.
  intros (Hcs & Hfs & H) Hone E. destruct (H depth st st' E) as (Hn & _ & Hc).
  cbv zeta in Hn, Hc.
  set (added := (if (depth >=? 2)%Z then cs else [])
                ++ (if (depth >=? 3)%Z then fs else [])) in *.
  assert (Hadd : filter (fun n => negb (is_type FILE n)) added = added).
  { apply filter_all. apply Forall_app. split.
    - destruct (depth >=? 2)%Z; [|constructor]. eapply Forall_impl; [|exact Hcs].
      intros n Hty. unfold is_type. now rewrite Hty.
    - destruct (depth >=? 3)%Z; [|constructor]. eapply Forall_impl; [|exact Hfs].
      intros n Hty. unfold is_type. now rewrite Hty. }
  unfold one_edge_per_node in *.
  rewrite Hc, Hn, Hone, filter_app, Hadd, map_app. reflexivity.
Qed.

(** The targets of the Contains edges of the graph are the ids of its
    Class and Function nodes, one edge for each node, in the same order. *)
Lemma analyzeCodebase_one_edge_per_node files depth r :
  analyzeCodebase files depth = Some r ->
  map target (filter is_contains (links r)) =
  map id (filter (fun n => negb (is_type FILE n)) (nodes r)).
Proof.
  unfold analyzeCodebase.
  pose proof (file_pass_nodes files) as Hn0.
  destruct (file_pass files) as [nodes0 fileNodes]. simpl in Hn0.
  set (st0 := {| out_nodes := nodes0; out_links := []; currentClass := None |}).
  destruct (forEach (process_file fileNodes depth) files 0 st0) as [st|] eqn:E;
    [|discriminate].
  intros H. injection H as <-. simpl.
  apply (forEach_preserves (process_file fileNodes depth) one_edge_per_node files)
    with (i := 0) (s := st0); [| |exact E].
  - intros f j a a' Ha. unfold process_file.
    apply forEach_preserves; [|exact Ha].
    intros line index s1 s1' Hs1 E1.
    destruct (process_line_effect fileNodes f (split (content f) newline)
                match Map_get fileNodes (path f) with Some i => i | None => [] end
                line index) as (cs & fs & ls & Heff).
    exact (line_effect_one_edge Heff Hs1 E1).
  - unfold one_edge_per_node, contained. simpl. symmetry.
    rewrite Hn0, (filter_none _ (map file_node files)); [reflexivity|].
    apply Forall_forall. intros n Hn. apply in_map_iff in Hn as (f & <- & _).
    reflexivity.
Qed.

Lemma NoDup_map_filter {A B} (h : A -> B) (p : A -> bool) (l : list A) :
  NoDup (map h l) -> NoDup (map h (filter p l)).
Proof.
  induction l as [|x l IH]; simpl; [auto|].
  intros Hnd. inversion Hnd as [|? ? Hx Hl]; subst.
  destruct (p x); simpl; [|auto]. constructor; [|auto].
  intros Hin. apply Hx. apply in_map_iff in Hin as (y & Hy & Hin).
  apply filter_In in Hin as [Hin _]. rewrite <- Hy. now apply in_map.
Qed.

(** When the ids of the nodes are pairwise distinct, no id is the target
    of two Contains edges: the Contains edges are then a forest. *)
Lemma analyzeCodebase_forest_when_ids_distinct files depth r :
  analyzeCodebase files depth = Some r ->
  NoDup (map id (nodes r)) ->
  NoDup (map target (filter is_contains (links r))).
Proof.
  intros Hr Hnd. rewrite (analyzeCodebase_one_edge_per_node _ _ _ Hr).
  now apply NoDup_map_filter.
Qed.

(* ================================================================== *)
(** * The claims *)

(** C1. On the two files a.py and b.py of the end-to-end scenario, at depth
    3, the graph has the two File nodes, one Class node labelled A, one
    Function node labelled m, and three edges: the Import edge from a.py's
    File node to b.py's, the Contains edge from a.py's File node to class
    A, and the Contains edge from class A (not from the File node) to
    function m.  Nothing refers to the contents of b.py. *)
Theorem analyzeCodebase_two_python_files :
  exists r, analyzeCodebase [a_py; b_py] 3 = Some r /\
    map (fun n => (type n, label n, id n)) (nodes r) =
      [(FILE, lit "a.py", lit "FILE:a.py"); (FILE, lit "b.py", lit "FILE:b.py");
       (CLASS, lit "A", lit "CLASS:a.py:A");
       (FUNCTION, lit "m", lit "FUNCTION:a.py:m")] /\
    links r =
      [{| source := lit "FILE:a.py"; target := lit "FILE:b.py"; link_type := IMPORT |};
       {| source := lit "FILE:a.py"; target := lit "CLASS:a.py:A";
          link_type := CONTAINS |};
       {| source := lit "CLASS:a.py:A"; target := lit "FUNCTION:a.py:m";
          link_type := CONTAINS |}] /\
    count_type FILE (nodes r) = 2 /\ count_type CLASS (nodes r) = 1 /\
    count_type FUNCTION (nodes r) = 1 /\ length (import_edges r) = 1.
Proof.
  eexists. split; [vm_compute; reflexivity|]. vm_compute. auto 10.
Qed.

(** C2. The ids of the nodes at depth 1 are among those at depth 2, which
    are among those at depth 3, and the Import edges are the same, in the
    same order, at the three depths. *)
Theorem analyzeCodebase_depth_monotone (files : list CodeFile) :
  exists r1 r2 r3,
    analyzeCodebase files 1 = Some r1 /\ analyzeCodebase files 2 = Some r2 /\
    analyzeCodebase files 3 = Some r3 /\
    incl (map id (nodes r1)) (map id (nodes r2)) /\
    incl (map id (nodes r2)) (map id (nodes r3)) /\
    import_edges r1 = import_edges r2 /\ import_edges r2 = import_edges r3.
Proof.
  destruct (analyzeCodebase_wf files 1) as (s1 & H1 & _).
  destruct (analyzeCodebase_wf files 2) as (s2 & H2 & _).
  destruct (analyzeCodebase_wf files 3) as (s3 & H3 & _).
  do 3 eexists. split; [exact H1|]. split; [exact H2|]. split; [exact H3|].
  destruct (analyzeCodebase_depths files 1 2 _ _ ltac:(lia) H1 H2) as [N12 I12].
  destruct (analyzeCodebase_depths files 2 3 _ _ ltac:(lia) H2 H3) as [N23 I23].
  split; [|split; [|split; assumption]].
  - rewrite N12. intros i Hi. apply in_map_iff in Hi as (n & <- & Hn).
    apply filter_In in Hn as [Hn _]. now apply in_map.
  - rewrite N23. intros i Hi. apply in_map_iff in Hi as (n & <- & Hn).
    apply filter_In in Hn as [Hn _]. now apply in_map.
Qed.

Lemma NoDup_map_eq {A B} (h : A -> B) (l : list A) (x y : A) :
  NoDup (map h l) -> In x l -> In y l -> h x = h y -> x = y.
Proof.
  induction l as [|a l IH]; simpl; [tauto|].
  intros Hnd Hx Hy Hxy. inversion Hnd as [|? ? Hna Hnd']; subst.
  destruct Hx as [->|Hx], Hy as [->|Hy]; auto.
  - exfalso. apply Hna. rewrite Hxy. now apply in_map.
  - exfalso. apply Hna. rewrite <- Hxy. now apply in_map.
Qed.

(** C3. Every Class and Function node of the graph spans lines of the file
    it was found in: that file is an input file, its path is the node's
    [file], and 1 <= startLine <= endLine <= the file's line count.  When
    the paths of the input are distinct this is the one file of that
    path. *)
Theorem analyzeCodebase_line_spans (files : list CodeFile) (depth : Z) :
  exists r, analyzeCodebase files depth = Some r /\
    forall n, In n (nodes r) -> type n = CLASS \/ type n = FUNCTION ->
      (exists f, In f files /\ path f = file n /\
                 1 <= startLine n /\ startLine n <= endLine n /\
                 endLine n <= length (lines_of f)) /\
      (NoDup (map path files) ->
       forall g, In g files -> path g = file n ->
                 1 <= startLine n /\ startLine n <= endLine n /\
                 endLine n <= length (lines_of g)).
Proof.
  destruct (analyzeCodebase_wf files depth) as (st & Hr & Hwf).
  eexists. split; [exact Hr|]. simpl. intros n Hn Hty.
  pose proof (proj1 (Forall_forall _ _) (wf_nodes _ _ Hwf) n Hn) as Ho.
  assert (H : exists f, In f files /\ path f = file n /\
                        1 <= startLine n /\ startLine n <= endLine n /\
                        endLine n <= length (lines_of f)).
  { inversion Ho as [f Hf Heq | f index line nm e lang what Hf Hline He Heq
                     | f index line nm e lang Hf Hline He Heq];
      subst n; simpl in *.
    - destruct Hty; discriminate.
    - exists f. destruct (determineEndLine_bounds (lines_of f) index lang) as (e' & He' & Hb);
        [eapply nth_error_lt; exact Hline|].
      rewrite He in He'. injection He' as <-. repeat split; auto; lia.
    - exists f. destruct (determineEndLine_bounds (lines_of f) index lang) as (e' & He' & Hb);
        [eapply nth_error_lt; exact Hline|].
      rewrite He in He'. injection He' as <-. repeat split; auto; lia. }
  split; [exact H|]. intros Hnd g Hg Hpath.
  destruct H as (f & Hf & Hfp & Hb).
  assert (g = f) by (eapply NoDup_map_eq; eauto; congruence).
  subst g. exact Hb.
Qed.

Lemma analyzeCodebase_line_spans_witness :
  exists r n, analyzeCodebase [a_py; b_py] 3 = Some r /\
    In n (nodes r) /\ type n = CLASS /\ path a_py = file n /\
    1 <= startLine n /\ startLine n <= endLine n /\
    endLine n <= length (lines_of a_py).
Proof.
  destruct (analyzeCodebase_line_spans [a_py; b_py] 3) as (r & Hr & H).
  exists r.
  exists (class_node a_py (lit "A") 2 5 (lit "Class definition in ")).
  assert (Hn : In (class_node a_py (lit "A") 2 5 (lit "Class definition in ")) (nodes r)).
  { vm_compute in Hr. injection Hr as <-. vm_compute. auto. }
  split; [exact Hr|]. split; [exact Hn|]. split; [reflexivity|].
  split; [reflexivity|].
  destruct (H _ Hn (or_introl eq_refl)) as [_ H2].
  apply H2.
  - vm_compute. repeat constructor; simpl; intuition discriminate.
  - now left.
  - reflexivity.
Defined.

(** C4. For a start index inside [lines], the indentation strategy of
    [determineEndLine] returns [startIndex + 1] when the start line is
    blank; otherwise the index of the first later line that is not blank
    and indented no deeper than the start line, blank lines being passed
    over; and the number of lines when there is no such line.  On the
    sample with [startIndex = 0] it returns 3. *)
Theorem determineEndLine_indentation (lines : list str) (startIndex : nat)
        (Hrange : startIndex < length lines) :
  (exists r, determineEndLine lines startIndex PYTHON = Some r /\
             IndentationScoped_spec lines startIndex r) /\
  determineEndLine indentation_sample 0 PYTHON = Some 3.
Proof.
  split; [now apply determineEndLine_python | reflexivity].
Qed.

Lemma determineEndLine_indentation_witness :
  1 < length indentation_sample /\
  (exists r, determineEndLine indentation_sample 1 PYTHON = Some r /\
             IndentationScoped_spec indentation_sample 1 r) /\
  determineEndLine indentation_sample 0 PYTHON = Some 3.
Proof.
  assert (H : 1 < length indentation_sample) by (simpl; lia).
  split; [exact H|].
  apply (determineEndLine_indentation indentation_sample 1 H).
Defined.

(** C5. The brace strategy of [determineEndLine] (the JS and the C/C++
    families) returns [i + 1] for the first line [i], from the start index
    on, at which an opening brace has been seen and the running balance of
    opening minus closing braces is not positive; when the scan reaches the
    end of the input without that, it returns the smaller of
    [startIndex + 20] and the number of lines.  On the sample with
    [startIndex = 0] it returns 4. *)
Theorem determineEndLine_brace_balance (lines : list str) (startIndex : nat) :
  (exists r, determineEndLine lines startIndex JS = Some r /\
             BraceScoped_spec lines startIndex r) /\
  (exists r, determineEndLine lines startIndex C_CPP = Some r /\
             BraceScoped_spec lines startIndex r) /\
  determineEndLine brace_sample 0 JS = Some 4 /\
  determineEndLine brace_sample 0 C_CPP = Some 4.
Proof.
  split; [apply determineEndLine_braces; discriminate|].
  split; [apply determineEndLine_braces; discriminate|].
  split; reflexivity.
Qed.

Lemma functions_push_class st l f name' lineNum e what :
  functions (out_nodes (push_link l (push_node (class_node f name' lineNum e what) st)))
  = functions (out_nodes st).
Proof.
  unfold functions. simpl. rewrite filter_app. simpl. apply app_nil_r.
Qed.

(** C6. In the C/C++ branch, at every depth, a line whose trimmed text
    ends with a semicolon, or on which the function pattern captures one of
    the keywords if, while, for, switch, return, catch, else, new, delete,
    adds no Function node.  The file made of the line void f(int x); gives
    no Function node at depth 3; the file made of the line void f(int x) {
    gives one, labelled f. *)
Theorem c_family_declaration_filter
        (fileNodes : FileMap) (f : CodeFile) (lines : list str) (fileId : str)
        (depth : Z) (st : Scan) (line : str) (index : nat)
        (Hfamily : c_family (path f) = true) (Hline : filtered_out line) :
  (exists st', process_line fileNodes f lines fileId depth st line index = Some st' /\
               functions (out_nodes st') = functions (out_nodes st)) /\
  (exists r, analyzeCodebase [prototype_c] 3 = Some r /\ functions (nodes r) = []) /\
  (exists r, analyzeCodebase [definition_c] 3 = Some r /\
             map label (functions (nodes r)) = [lit "f"]).
Proof.
  split; [|split; eexists; (split; [vm_compute; reflexivity | reflexivity])].
  unfold c_family in Hfamily.
  apply andb_true_iff in Hfamily as [Hfamily Hc].
  apply andb_true_iff in Hfamily as [Hpy Hjs].
  apply negb_true_iff in Hpy, Hjs.
  unfold process_line. rewrite Hpy, Hjs, Hc.
  destruct (str_eqb (trim line) []); [now exists st|].
  unfold c_line.
  destruct (@determineEndLine_braces lines index C_CPP) as (e & He & _); [discriminate|].
  assert (H1 : exists st1, (if (depth >=? 2)%Z then c_class f lines fileId st line index
                            else Some st) = Some st1 /\
                           functions (out_nodes st1) = functions (out_nodes st)).
  { destruct (depth >=? 2)%Z; [|now exists st]. unfold c_class.
    destruct (str_match line re_c_class); [|now exists st].
    rewrite He. eexists. split; [reflexivity|]. apply functions_push_class. }
  destruct H1 as (st1 & -> & Hst1).
  assert (H2 : (if (depth >=? 3)%Z then c_function f lines fileId st1 line index
                else Some st1) = Some st1).
  { destruct (depth >=? 3)%Z; [|reflexivity]. unfold c_function.
    destruct (str_match line re_c_func) as [m|] eqn:Hm; [|reflexivity].
    destruct Hline as [Hsemi | (m' & Hm' & Hkw)].
    - rewrite Hsemi, andb_false_r. reflexivity.
    - rewrite Hm in Hm'. injection Hm' as <-. rewrite Hkw. reflexivity. }
  rewrite H2. eexists. split; [reflexivity|].
  rewrite <- Hst1. unfold c_include.
  destruct (str_match line re_c_include); [|reflexivity].
  destruct (pop (split (capture c 1) slash)) as [[|ch nm]|]; try reflexivity.
  now rewrite (proj1 (link_imports_nodes _ _ _ _ _)).
Qed.

Lemma c_family_declaration_filter_witness :
  c_family (path prototype_c) = true /\ filtered_out (lit "void f(int x);") /\
  exists st', process_line [] prototype_c (lines_of prototype_c)
                (file_id (path prototype_c)) 3
                {| out_nodes := [file_node prototype_c]; out_links := [];
                   currentClass := None |}
                (lit "void f(int x);") 0 = Some st' /\
              functions (out_nodes st') = [].
Proof.
  assert (Hf : c_family (path prototype_c) = true) by reflexivity.
  assert (Hl : filtered_out (lit "void f(int x);")) by (left; reflexivity).
  split; [exact Hf|]. split; [exact Hl|].
  exact (proj1 (c_family_declaration_filter [] prototype_c (lines_of prototype_c)
                  (file_id (path prototype_c)) 3
                  {| out_nodes := [file_node prototype_c]; out_links := [];
                     currentClass := None |} (lit "void f(int x);") 0 Hf Hl)).
Defined.

Lemma node_rank {files n} : node_origin files n -> id_rank (id n) = type_rank (type n).
Proof. intros Ho. inversion Ho; reflexivity. Qed.

Lemma contains_kinds_rank s t :
  contains_kinds s t = true -> type_rank s < type_rank t.
Proof. destruct s, t; simpl; intros H; try discriminate; lia. Qed.

Lemma contains_path_rank {files ns ls x y} :
  Forall (node_origin files) ns -> Forall (link_origin ns) ls ->
  contains_path ls x y -> id_rank x < id_rank y.
Proof.
  intros Hn Hl Hp.
  assert (Hedge : forall l, In l ls -> link_type l = CONTAINS ->
                            id_rank (source l) < id_rank (target l)).
  { intros l Hin Hty.
    destruct (proj1 (Forall_forall _ _) Hl l Hin) as (s & t & Hs & Ht & -> & -> & H).
    rewrite Hty in H. apply contains_kinds_rank in H.
    rewrite (node_rank (proj1 (Forall_forall _ _) Hn s Hs)).
    rewrite (node_rank (proj1 (Forall_forall _ _) Hn t Ht)). exact H. }
  induction Hp as [l Hin Hty | l z Hin Hty Hp IH].
  - now apply Hedge.
  - specialize (Hedge l Hin Hty). lia.
Qed.

(** What holds of the Contains edges on every input: each joins two nodes
    of the graph, taken by id, as File to Class, File to Function or Class
    to Function, and there is no cycle among them. *)
Lemma analyzeCodebase_contains_layered (files : list CodeFile) (depth : Z) :
  exists r, analyzeCodebase files depth = Some r /\
    (forall l, In l (links r) -> link_type l = CONTAINS ->
       exists s t, In s (nodes r) /\ In t (nodes r) /\
                   source l = id s /\ target l = id t /\
                   contains_kinds (type s) (type t) = true) /\
    (forall x, ~ contains_path (links r) x x).
Proof.
  destruct (analyzeCodebase_wf files depth) as (st & Hr & Hwf).
  eexists. split; [exact Hr|]. simpl. split.
  - intros l Hl Hty.
    destruct (proj1 (Forall_forall _ _) (wf_links _ _ Hwf) l Hl)
      as (s & t & Hs & Ht & Hsrc & Htgt & H).
    rewrite Hty in H. now exists s, t.
  - intros x Hp.
    pose proof (contains_path_rank (wf_nodes _ _ Hwf) (wf_links _ _ Hwf) Hp). lia.
Qed.

(** C7. The Contains edges are not a forest over ids: in t.py the
    constructors of the classes A and B share the id
    FUNCTION:t.py:__init__, which has an incoming Contains edge from each
    class. *)
Theorem contains_two_parents :
  exists r l1 l2, analyzeCodebase [twice_py] 3 = Some r /\
    In l1 (links r) /\ In l2 (links r) /\
    link_type l1 = CONTAINS /\ link_type l2 = CONTAINS /\
    target l1 = target l2 /\ source l1 <> source l2.
Proof.
  eexists.
  exists (contains (lit "CLASS:t.py:A") (lit "FUNCTION:t.py:__init__")).
  exists (contains (lit "CLASS:t.py:B") (lit "FUNCTION:t.py:__init__")).
  split; [vm_compute; reflexivity|].
  vm_compute. repeat split; auto 10. discriminate.
Qed.

(** C8, as stated, fails on File nodes: the id of b.py's File node is
    FILE:b.py, not FILE:b.py:b.py. *)
Lemma file_id_without_label :
  exists r n, analyzeCodebase [b_py] 1 = Some r /\ In n (nodes r) /\
    id n <> generateId (NodeType_name (type n)) (label n) (file n).
Proof.
  eexists. exists (file_node b_py).
  split; [vm_compute; reflexivity|]. split; [vm_compute; auto|].
  vm_compute. discriminate.
Qed.

(** C8, amended. The id of every Class and Function node is
    kind:filePath:label; the id of every File node is FILE:filePath, its
    label left out.  No node has another kind. *)
Theorem analyzeCodebase_node_ids (files : list CodeFile) (depth : Z) :
  exists r, analyzeCodebase files depth = Some r /\
    forall n, In n (nodes r) ->
      match type n with
      | FILE => id n = lit "FILE:" ++ file n
      | CLASS | FUNCTION => id n = generateId (NodeType_name (type n)) (label n) (file n)
      | MODULE => False
      end.
Proof.
  destruct (analyzeCodebase_wf files depth) as (st & Hr & Hwf).
  eexists. split; [exact Hr|]. simpl. intros n Hn.
  pose proof (proj1 (Forall_forall _ _) (wf_nodes _ _ Hwf) n Hn) as Ho.
  inversion Ho; reflexivity.
Qed.

Lemma analyzeCodebase_node_ids_witness :
  exists r, analyzeCodebase [a_py; b_py] 3 = Some r /\
    In (function_node a_py (lit "m") 3 5) (nodes r) /\
    id (function_node a_py (lit "m") 3 5) = lit "FUNCTION:a.py:m".
Proof.
  destruct (analyzeCodebase_node_ids [a_py; b_py] 3) as (r & Hr & H).
  exists r.
  assert (Hn : In (function_node a_py (lit "m") 3 5) (nodes r)).
  { vm_compute in Hr. injection Hr as <-. vm_compute. auto. }
  split; [exact Hr|]. split; [exact Hn|].
  rewrite (H _ Hn). reflexivity.
Defined.

Lemma includes_app_r (a s p : str) :
  includes s p = true -> includes (a ++ s) p = true.
Proof.
  intros H. induction a as [|c a IH]; [exact H|].
  change (includes ((c :: a) ++ s) p)
    with (startsWith (c :: a ++ s) p || includes (a ++ s) p).
  rewrite IH. apply orb_true_r.
Qed.

(** C9. On the empty file set, for every integer depth, [analyzeCodebase]
    returns a graph without nodes and without edges, whose summary reports
    0 files scanned. *)
Theorem analyzeCodebase_no_files (depth : Z) :
  exists r, analyzeCodebase [] depth = Some r /\
    nodes r = [] /\ links r = [] /\
    includes (summary r) (lit "Scanned 0 files.") = true.
Proof.
  exists {| nodes := []; links := []; summary := make_summary depth [] [] |}.
  split; [reflexivity|]. split; [reflexivity|]. split; [reflexivity|].
  cbn [summary]. unfold make_summary.
  apply includes_app_r. apply includes_app_r.
  vm_compute. reflexivity.
Qed.

Lemma file_node_id {files n} :
  node_origin files n -> type n = FILE -> id n = file_id (file n).
Proof. intros Ho Hty. inversion Ho; subst; simpl in *; try discriminate. reflexivity. Qed.

(** C10. No Import edge of the graph has its source equal to its target,
    whatever the files and the depth. *)
Theorem analyzeCodebase_no_self_import (files : list CodeFile) (depth : Z) :
  exists r, analyzeCodebase files depth = Some r /\
    forall l, In l (links r) -> link_type l = IMPORT -> source l <> target l.
Proof.
  destruct (analyzeCodebase_wf files depth) as (st & Hr & Hwf).
  eexists. split; [exact Hr|]. simpl. intros l Hl Hty.
  pose proof (proj1 (Forall_forall _ _) (wf_links _ _ Hwf) l Hl) as Ho.
  destruct Ho as (s & t & Hs & Ht & -> & -> & H). rewrite Hty in H.
  destruct H as (Hsf & Htf & Hne).
  pose proof (proj1 (Forall_forall _ _) (wf_nodes _ _ Hwf)) as Hn.
  rewrite (file_node_id (Hn s Hs) Hsf), (file_node_id (Hn t Ht) Htf).
  unfold file_id. intros Heq. apply app_inv_head in Heq. contradiction.
Qed.

Lemma analyzeCodebase_no_self_import_witness :
  exists r l, analyzeCodebase [a_py; b_py] 3 = Some r /\
    In l (links r) /\ link_type l = IMPORT /\ source l <> target l.
Proof.
  destruct (analyzeCodebase_no_self_import [a_py; b_py] 3) as (r & Hr & H).
  exists r.
  exists {| source := lit "FILE:a.py"; target := lit "FILE:b.py"; link_type := IMPORT |}.
  assert (Hl : In {| source := lit "FILE:a.py"; target := lit "FILE:b.py";
                     link_type := IMPORT |} (links r)).
  { vm_compute in Hr. injection Hr as <-. vm_compute. auto. }
  split; [exact Hr|]. split; [exact Hl|]. split; [reflexivity|].
  exact (H _ Hl eq_refl).
Defined.

(* ================================================================== *)
(** * Further properties *)

(** ** split, join and slice *)

Lemma split_nonempty (s : str) (sep : char) : split s sep <> [].
Proof.
  destruct s as [|c s]; simpl; [discriminate|].
  destruct (N.eqb c sep); [discriminate|].
  destruct (split s sep); discriminate.
Qed.

Lemma join_cons (x : str) (l : list str) (sep : char) :
  l <> [] -> join (x :: l) sep = x ++ sep :: join l sep.
Proof. destruct l; [congruence | reflexivity]. Qed.

(** Joining the lines of a text gives the text back. *)
Lemma join_split (s : str) (sep : char) : join (split s sep) sep = s.
Proof.
  induction s as [|c s IH]; simpl; [reflexivity|].
  destruct (N.eqb_spec c sep) as [->|Hne].
  - rewrite join_cons by apply split_nonempty. simpl. now rewrite IH.
  - pose proof (split_nonempty s sep) as Hn.
    destruct (split s sep) as [|h t]; [congruence|].
    destruct t as [|h' t].
    + simpl in *. now rewrite IH.
    + rewrite join_cons by discriminate. rewrite join_cons in IH by discriminate.
      simpl. now rewrite <- IH.
Qed.

Lemma split_no_sep (s : str) (sep : char) :
  Forall (fun l => ~ In sep l) (split s sep).
Proof.
  induction s as [|c s IH]; simpl.
  - constructor; [intros [] | constructor].
  - destruct (N.eqb_spec c sep) as [->|Hne].
    + constructor; [intros [] | exact IH].
    + pose proof (split_nonempty s sep) as Hn.
      destruct (split s sep) as [|h t]; [congruence|].
      inversion IH as [|? ? Hh Ht]; subst. constructor; [|exact Ht].
      intros [Hc|Hin]; [congruence | contradiction].
Qed.

Lemma split_app_no_sep (a : str) (rest : str) (sep : char) :
  ~ In sep a ->
  split (a ++ sep :: rest) sep = a :: split rest sep.
Proof.
  induction a as [|c a IH]; intros Hn; simpl.
  - now rewrite N.eqb_refl.
  - destruct (N.eqb_spec c sep) as [->|Hne]; [exfalso; apply Hn; now left|].
    rewrite IH; [reflexivity|]. intros Hin. apply Hn. now right.
Qed.

Lemma split_line (a : str) (sep : char) : ~ In sep a -> split a sep = [a].
Proof.
  induction a as [|c a IH]; intros Hn; simpl; [reflexivity|].
  destruct (N.eqb_spec c sep) as [->|Hne]; [exfalso; apply Hn; now left|].
  rewrite IH; [reflexivity|]. intros Hin. apply Hn. now right.
Qed.

(** Splitting the join of lines that hold no separator gives the lines
    back. *)
Lemma split_join (l : list str) (sep : char) :
  l <> [] -> Forall (fun x => ~ In sep x) l -> split (join l sep) sep = l.
Proof.
  induction l as [|x l IH]; intros Hne Hl; [congruence|].
  inversion Hl as [|? ? Hx Hl']; subst.
  destruct l as [|y l].
  - simpl. now apply split_line.
  - rewrite join_cons by discriminate. rewrite split_app_no_sep by exact Hx.
    rewrite IH; [reflexivity | discriminate | exact Hl'].
Qed.

Lemma join_app (a b : list str) (sep : char) :
  a <> [] -> b <> [] -> join (a ++ b) sep = join a sep ++ sep :: join b sep.
Proof.
  induction a as [|x a IH]; intros Ha Hb; [congruence|].
  destruct a as [|y a].
  - simpl app. now rewrite join_cons.
  - change ((x :: y :: a) ++ b) with (x :: ((y :: a) ++ b)).
    rewrite join_cons by (simpl; discriminate).
    rewrite IH by (auto; discriminate).
    rewrite (join_cons x) by discriminate. now rewrite <- app_assoc.
Qed.

(** The join of a run of consecutive lines is a part of the join of all
    the lines. *)
Lemma join_part (l : list str) (sep : char) (k n : nat) :
  exists pre post,
    join l sep = pre ++ join (firstn n (skipn k l)) sep ++ post.
Proof.
  set (a := firstn k l). set (b := firstn n (skipn k l)).
  set (c := skipn n (skipn k l)).
  assert (Hl : l = a ++ b ++ c).
  { subst a b c. now rewrite firstn_skipn, firstn_skipn. }
  rewrite Hl. clearbody a b c. clear Hl.
  destruct b as [|b0 b]; [exists (join (a ++ c) sep), []; simpl; now rewrite app_nil_r|].
  destruct a as [|a0 a], c as [|c0 c].
  - exists [], []. simpl app. now rewrite !app_nil_r.
  - exists [], (sep :: join (c0 :: c) sep).
    change ([] ++ (b0 :: b) ++ c0 :: c) with ((b0 :: b) ++ c0 :: c).
    rewrite join_app by discriminate. reflexivity.
  - exists (join (a0 :: a) sep ++ [sep]), []. rewrite !app_nil_r.
    rewrite join_app by discriminate. now rewrite <- app_assoc.
  - exists (join (a0 :: a) sep ++ [sep]), (sep :: join (c0 :: c) sep).
    rewrite join_app by (try discriminate; destruct b; discriminate).
    rewrite (join_app (b0 :: b)) by discriminate.
    now rewrite <- !app_assoc.
Qed.

(** [slice] between two indices inside the array. *)
Lemma slice_inside {A} (l : list A) (i j : nat) :
  i <= j <= length l ->
  slice l (Z.of_nat i) (Z.of_nat j) = firstn (j - i) (skipn i l).
Proof.
  intros H. unfold slice.
  destruct (Z.ltb_spec (Z.of_nat i) 0); [lia|].
  destruct (Z.ltb_spec (Z.of_nat j) 0); [lia|].
  rewrite !Z.min_l by lia. f_equal; [lia|]. f_equal. lia.
Qed.

Lemma slice_part {A} (l : list A) (start end_ : Z) :
  exists k n, slice l start end_ = firstn n (skipn k l).
Proof. unfold slice. eauto. Qed.

Lemma scenario_graph_eq : analyzeCodebase [a_py; b_py] 3 = Some scenario_graph.
Proof. vm_compute. reflexivity. Qed.

(** ** The detail panel: getCodeSnippet *)

Lemma find_file_some files p f :
  find_file files p = Some f -> In f files /\ path f = p.
Proof.
  unfold find_file. intros H. apply find_some in H as [Hin Hp].
  split; [exact Hin | now apply str_eqb_eq].
Qed.

Lemma find_file_in files f :
  In f files -> exists g, find_file files (path f) = Some g.
Proof.
  intros Hin. unfold find_file.
  destruct (find (fun g => str_eqb (path g) (path f)) files) as [g|] eqn:E; [eauto|].
  pose proof (find_none _ _ E f Hin) as H. simpl in H.
  apply str_eqb_neq in H. congruence.
Qed.

Lemma find_file_unique files f :
  NoDup (map path files) -> In f files -> find_file files (path f) = Some f.
Proof.
  intros Hnd Hin. destruct (find_file_in files f Hin) as (g & Hg).
  rewrite Hg. f_equal. apply find_file_some in Hg as [Hgin Hgp].
  eapply NoDup_map_eq; eauto.
Qed.

Lemma getCodeSnippet_part files node f :
  find_file files (file node) = Some f ->
  exists pre post, content f = pre ++ getCodeSnippet files node ++ post.
Proof.
  intros Hf. unfold getCodeSnippet. rewrite Hf.
  assert (Hall : exists pre post, content f = pre ++ content f ++ post)
    by (exists [], []; simpl; now rewrite app_nil_r).
  destruct (NodeType_eqb (type node) FILE || (startLine node =? 0) || (endLine node =? 0));
    [exact Hall|].
  cbv zeta.
  destruct (Z.max 0 (Z.of_nat (startLine node) - 1)
            >=? Z.min (Z.of_nat (length (split (content f) newline)))
                      (Z.of_nat (endLine node)))%Z; [exact Hall|].
  destruct (slice_part (split (content f) newline)
              (Z.max 0 (Z.of_nat (startLine node) - 1))
              (Z.min (Z.of_nat (length (split (content f) newline)))
                     (Z.of_nat (endLine node)))) as (k & n & ->).
  destruct (join_part (split (content f) newline) newline k n) as (pre & post & H).
  rewrite join_split in H. now exists pre, post.
Qed.

Lemma Forall_part {A} (P : A -> Prop) (l : list A) (k n : nat) :
  Forall P l -> Forall P (firstn n (skipn k l)).
Proof.
  intros H. rewrite <- (firstn_skipn k l) in H. apply Forall_app in H as [_ H].
  rewrite <- (firstn_skipn n (skipn k l)) in H. now apply Forall_app in H as [H _].
Qed.

(** The text of a node that spans the lines [i + 1 .. e] of its file. *)
Lemma span_text files f n (i e : nat) :
  find_file files (file n) = Some f ->
  type n <> FILE -> startLine n = i + 1 -> endLine n = e ->
  i + 1 <= e <= length (lines_of f) ->
  getCodeSnippet files n = contentToCheck f n /\
  split (getCodeSnippet files n) newline = firstn (e - i) (skipn i (lines_of f)) /\
  length (split (getCodeSnippet files n) newline) = e - i.
Proof.
  intros Hf Hty Hs He Hb. unfold getCodeSnippet, contentToCheck. rewrite Hf, Hs, He.
  fold (lines_of f).
  replace (NodeType_eqb (type n) FILE) with false by (destruct (type n) eqn:E; simpl; congruence).
  replace (i + 1 =? 0) with false by (symmetry; apply Nat.eqb_neq; lia).
  replace (e =? 0) with false by (symmetry; apply Nat.eqb_neq; lia).
  cbv zeta. simpl orb. cbv iota.
  replace (Z.max 0 (Z.of_nat (i + 1) - 1)) with (Z.of_nat i) by lia.
  replace (Z.of_nat (i + 1) - 1)%Z with (Z.of_nat i) by lia.
  replace (Z.min (Z.of_nat (length (lines_of f))) (Z.of_nat e)) with (Z.of_nat e) by lia.
  destruct (Z.geb_spec (Z.of_nat i) (Z.of_nat e)); [lia|].
  rewrite slice_inside by lia. split; [reflexivity|].
  assert (Hlen : length (firstn (e - i) (skipn i (lines_of f))) = e - i).
  { rewrite length_firstn, length_skipn. lia. }
  rewrite split_join.
  - split; [reflexivity | exact Hlen].
  - intros Hnil. rewrite Hnil in Hlen. simpl in Hlen. lia.
  - apply Forall_part. apply split_no_sep.
Qed.

Lemma file_text files f n :
  find_file files (file n) = Some f ->
  type n = FILE -> startLine n = 1 -> endLine n = length (lines_of f) ->
  getCodeSnippet files n = content f /\ contentToCheck f n = content f.
Proof.
  intros Hf Hty Hs He. unfold getCodeSnippet, contentToCheck.
  rewrite Hf, Hty, Hs, He. fold (lines_of f). simpl. split; [reflexivity|].
  change 0%Z with (Z.of_nat 0).
  rewrite (slice_inside (lines_of f) 0 (length (lines_of f))) by lia.
  rewrite Nat.sub_0_r, firstn_all. apply join_split.
Qed.

(** What the panel and the search read for a node of the graph, when the
    paths of the input are distinct. *)
Lemma graph_node_text files n :
  NoDup (map path files) -> node_origin files n ->
  exists f, In f files /\ find_file files (file n) = Some f /\
    getCodeSnippet files n = contentToCheck f n /\
    (type n = FILE -> getCodeSnippet files n = content f) /\
    (type n <> FILE ->
       1 <= startLine n <= endLine n /\
       split (getCodeSnippet files n) newline
       = firstn (endLine n + 1 - startLine n) (skipn (startLine n - 1) (lines_of f)) /\
       length (split (getCodeSnippet files n) newline) = endLine n + 1 - startLine n).
Proof.
  intros Hnd Ho.
  inversion Ho as [f Hf Heq | f index line nm e lang what Hf Hline He Heq
                   | f index line nm e lang Hf Hline He Heq]; subst n;
    exists f; (split; [exact Hf|]);
    pose proof (find_file_unique files f Hnd Hf) as Hfind.
  - split; [exact Hfind|].
    destruct (file_text files f (file_node f) Hfind eq_refl eq_refl eq_refl) as [H1 H2].
    split; [congruence|]. split; [auto|]. intros H. now elim H.
  - destruct (determineEndLine_bounds (lines_of f) index lang) as (e' & He' & Hb);
      [eapply nth_error_lt; exact Hline|].
    rewrite He in He'. injection He' as <-.
    split; [exact Hfind|].
    destruct (span_text files f (class_node f nm (index + 1) e what) index e Hfind)
      as (H1 & H2 & H3); try reflexivity; try discriminate; try lia.
    split; [exact H1|]. split; [discriminate|]. intros _. simpl.
    replace (e + 1 - (index + 1)) with (e - index) by lia.
    replace (index + 1 - 1) with index by lia. repeat split; try lia; assumption.
  - destruct (determineEndLine_bounds (lines_of f) index lang) as (e' & He' & Hb);
      [eapply nth_error_lt; exact Hline|].
    rewrite He in He'. injection He' as <-.
    split; [exact Hfind|].
    destruct (span_text files f (function_node f nm (index + 1) e) index e Hfind)
      as (H1 & H2 & H3); try reflexivity; try discriminate; try lia.
    split; [exact H1|]. split; [discriminate|]. intros _. simpl.
    replace (e + 1 - (index + 1)) with (e - index) by lia.
    replace (index + 1 - 1) with index by lia. repeat split; try lia; assumption.
Qed.

(** X1. [getCodeSnippet] returns the placeholder when no file has the
    node's path; when one has, what it returns, whatever the kind and the
    line numbers of the node, is a contiguous part of the content of the
    first file of that path. *)
Theorem getCodeSnippet_shows_file_text (files : list CodeFile) (node : GraphNode) :
  match find_file files (file node) with
  | None => getCodeSnippet files node = lit "// File content not found locally."
  | Some f =>
      In f files /\ path f = file node /\
      exists pre post, content f = pre ++ getCodeSnippet files node ++ post
  end.
Proof.
  destruct (find_file files (file node)) as [f|] eqn:Hf.
  - destruct (find_file_some _ _ _ Hf) as [Hin Hp].
    split; [exact Hin|]. split; [exact Hp|]. now apply getCodeSnippet_part.
  - unfold getCodeSnippet. now rewrite Hf.
Qed.

(** X2. When the paths of the input are distinct, the snippet of a File
    node of the graph is the whole content of its file, and the snippet of
    a Class or Function node is made of exactly the lines startLine to
    endLine of its file, endLine + 1 - startLine of them. *)
Theorem getCodeSnippet_of_graph_node (files : list CodeFile) (depth : Z)
        (r : AnalysisResult) (n : GraphNode)
        (Hrun : analyzeCodebase files depth = Some r)
        (Hpaths : NoDup (map path files)) (Hn : In n (nodes r)) :
  exists f, In f files /\ path f = file n /\
    (type n = FILE -> getCodeSnippet files n = content f) /\
    (type n <> FILE ->
       split (getCodeSnippet files n) newline
       = firstn (endLine n + 1 - startLine n) (skipn (startLine n - 1) (lines_of f)) /\
       length (split (getCodeSnippet files n) newline) = endLine n + 1 - startLine n).
Proof.
  destruct (analyzeCodebase_graph files depth r Hrun) as [Hnodes _].
  pose proof (proj1 (Forall_forall _ _) Hnodes n Hn) as Ho.
  destruct (graph_node_text files n Hpaths Ho) as (f & Hf & Hfind & _ & Hfile & Hspan).
  exists f. split; [exact Hf|]. split; [now apply find_file_some in Hfind|].
  split; [exact Hfile|]. intros Hty. now destruct (Hspan Hty) as (_ & H1 & H2).
Qed.

Lemma getCodeSnippet_of_graph_node_witness :
  analyzeCodebase [a_py; b_py] 3 = Some scenario_graph /\
  NoDup (map path [a_py; b_py]) /\
  In (function_node a_py (lit "m") 3 5) (nodes scenario_graph) /\
  exists f, In f [a_py; b_py] /\ path f = lit "a.py" /\
    split (getCodeSnippet [a_py; b_py] (function_node a_py (lit "m") 3 5)) newline
    = [lit "    def m(self):"; lit "        pass"; lit ""].
Proof.
  assert (Hnd : NoDup (map path [a_py; b_py])).
  { vm_compute. repeat constructor; simpl; intuition discriminate. }
  assert (Hn : In (function_node a_py (lit "m") 3 5) (nodes scenario_graph)).
  { vm_compute. auto 10. }
  split; [exact scenario_graph_eq|]. split; [exact Hnd|]. split; [exact Hn|].
  destruct (getCodeSnippet_of_graph_node [a_py; b_py] 3 scenario_graph _
              scenario_graph_eq Hnd Hn) as (f & Hf & Hp & _ & H).
  exists f. split; [exact Hf|]. split; [exact Hp|].
  destruct (H ltac:(discriminate)) as [H1 _]. rewrite H1.
  destruct Hf as [<-|[<-|[]]]; [reflexivity | discriminate Hp].
Defined.

(** X3. When the paths of the input are distinct, the search reads, for a
    node of the graph, the text that the detail panel shows for it: a node
    is among the results iff the query is not blank and occurs, lower
    case, in the node's label, or (the path being non-empty) in its path
    or in its snippet. *)
Theorem searchResults_reads_the_snippet
        (toLowerCase : str -> str) (files : list CodeFile) (depth : Z)
        (r : AnalysisResult) (searchQuery : str) (n : GraphNode)
        (Hrun : analyzeCodebase files depth = Some r)
        (Hpaths : NoDup (map path files)) :
  In n (searchResults toLowerCase (Some r) searchQuery files) <->
  In n (nodes r) /\ trim searchQuery <> [] /\
  (let q := toLowerCase searchQuery in
   includes (toLowerCase (label n)) q
   || negb (str_eqb (file n) [])
      && (includes (toLowerCase (file n)) q
          || includes (toLowerCase (getCodeSnippet files n)) q)) = true.
Proof.
  destruct (analyzeCodebase_graph files depth r Hrun) as [Hnodes _].
  unfold searchResults. cbv zeta.
  destruct (str_eqb (trim searchQuery) []) eqn:Hq.
  - apply str_eqb_eq in Hq. split; [intros [] | intros (_ & H & _); contradiction].
  - apply str_eqb_neq in Hq. rewrite filter_In.
    split; intros [Hn H]; (split; [exact Hn|]).
    + split; [exact Hq|].
      pose proof (proj1 (Forall_forall _ _) Hnodes n Hn) as Ho.
      destruct (graph_node_text files n Hpaths Ho) as (f & _ & Hfind & Htext & _).
      unfold search_hit in H. rewrite Hfind, <- Htext in H.
      destruct (includes (toLowerCase (label n)) (toLowerCase searchQuery)); [reflexivity|].
      destruct (str_eqb (file n) []); simpl in *; [discriminate|].
      destruct (includes (toLowerCase (file n)) (toLowerCase searchQuery)); [reflexivity|].
      exact H.
    + destruct H as [_ H].
      pose proof (proj1 (Forall_forall _ _) Hnodes n Hn) as Ho.
      destruct (graph_node_text files n Hpaths Ho) as (f & _ & Hfind & Htext & _).
      unfold search_hit. rewrite Hfind, <- Htext.
      destruct (includes (toLowerCase (label n)) (toLowerCase searchQuery)); [reflexivity|].
      destruct (str_eqb (file n) []); simpl in *; [discriminate|].
      destruct (includes (toLowerCase (file n)) (toLowerCase searchQuery)); [reflexivity|].
      exact H.
Qed.

Lemma searchResults_reads_the_snippet_witness :
  analyzeCodebase [a_py; b_py] 3 = Some scenario_graph /\
  NoDup (map path [a_py; b_py]) /\
  In (function_node a_py (lit "m") 3 5)
     (searchResults (fun s => s) (Some scenario_graph) (lit "pass") [a_py; b_py]).
Proof.
  assert (Hnd : NoDup (map path [a_py; b_py])).
  { vm_compute. repeat constructor; simpl; intuition discriminate. }
  split; [exact scenario_graph_eq|]. split; [exact Hnd|].
  apply (proj2 (searchResults_reads_the_snippet (fun s => s) [a_py; b_py] 3
                  scenario_graph (lit "pass") (function_node a_py (lit "m") 3 5)
                  scenario_graph_eq Hnd)).
  split; [vm_compute; auto 10|]. split; [vm_compute; discriminate|].
  vm_compute. reflexivity.
Defined.

(** ** Function nodes are leaves *)

Lemma filter_count {A} (g : A -> str) (x : str) (l : list A) :
  length (filter (fun a => str_eqb (g a) x) l) = count_occ str_eq_dec (map g l) x.
Proof.
  induction l as [|a l IH]; simpl; [reflexivity|].
  destruct (str_eq_dec (g a) x) as [E|E].
  - rewrite (proj2 (str_eqb_eq _ _) E). simpl. now rewrite IH.
  - rewrite (proj2 (str_eqb_neq _ _) E). exact IH.
Qed.

Lemma function_id_rank files n :
  node_origin files n -> type n = FUNCTION -> id_rank (id n) = 2.
Proof. intros Ho Hty. rewrite (node_rank Ho), Hty. reflexivity. Qed.

(** The edges that touch a Function node of the graph are the Contains
    edges to its id. *)
Lemma function_links files ns ls n :
  Forall (node_origin files) ns -> Forall (link_origin ns) ls ->
  In n ns -> type n = FUNCTION ->
  incident ls n = filter (fun l => str_eqb (target l) (id n)) (filter is_contains ls).
Proof.
  intros Hns Hls Hn Hty.
  pose proof (function_id_rank files n (proj1 (Forall_forall _ _) Hns n Hn) Hty) as Hr.
  unfold incident. induction Hls as [|l ls Hl _ IH]; simpl; [reflexivity|].
  destruct Hl as (s & t & Hs & Ht & Hsrc & Htgt & Hk).
  pose proof (node_rank (proj1 (Forall_forall _ _) Hns s Hs)) as Hrs.
  pose proof (node_rank (proj1 (Forall_forall _ _) Hns t Ht)) as Hrt.
  assert (Hsn : str_eqb (source l) (id n) = false).
  { apply str_eqb_neq. intros E. rewrite Hsrc in E. rewrite E, Hr in Hrs.
    destruct (link_type l); try contradiction.
    - destruct Hk as (Hk & _). rewrite Hk in Hrs. discriminate.
    - destruct (type s), (type t); simpl in *; discriminate. }
  rewrite Hsn. simpl orb.
  destruct (link_type l) eqn:Hlt; try contradiction.
  - (* an Import edge ends at a File node *)
    assert (Htn : str_eqb (target l) (id n) = false).
    { apply str_eqb_neq. intros E. rewrite Htgt in E. rewrite E, Hr in Hrt.
      destruct Hk as (_ & Hk & _). rewrite Hk in Hrt. discriminate. }
    assert (Hc : is_contains l = false) by (unfold is_contains; now rewrite Hlt).
    rewrite Hc, Htn. exact IH.
  - assert (Hc : is_contains l = true) by (unfold is_contains; now rewrite Hlt).
    rewrite Hc. simpl. destruct (str_eqb (target l) (id n)); [now rewrite IH | exact IH].
Qed.

Lemma in_contained files depth r n :
  analyzeCodebase files depth = Some r -> In n (nodes r) -> type n <> FILE ->
  In (id n) (map target (filter is_contains (links r))).
Proof.
  intros Hr Hn Hty. rewrite (analyzeCodebase_one_edge_per_node _ _ _ Hr).
  apply in_map. apply filter_In. split; [exact Hn|].
  unfold is_type. destruct (type n); simpl; congruence.
Qed.

(** X4. In a graph whose node ids are pairwise distinct, every Function
    node is a leaf: exactly one edge touches it, a Contains edge that ends
    at it.  No edge starts at a Function node and no Import edge ends at
    one. *)
Theorem function_nodes_are_leaves (files : list CodeFile) (depth : Z)
        (r : AnalysisResult) (n : GraphNode)
        (Hrun : analyzeCodebase files depth = Some r) (Hn : In n (nodes r))
        (Hkind : type n = FUNCTION) (Hids : NoDup (map id (nodes r))) :
  degree r n = 1 /\
  exists l, incident (links r) n = [l] /\ In l (links r) /\
            link_type l = CONTAINS /\ target l = id n /\ source l <> id n.
Proof.
  destruct (analyzeCodebase_graph files depth r Hrun) as [Hnodes Hlinks].
  assert (Hdeg : degree r n = 1).
  { unfold degree.
    rewrite (function_links files (nodes r) (links r) n Hnodes Hlinks Hn Hkind).
    rewrite filter_count.
    apply NoDup_count_occ'.
    - now apply (analyzeCodebase_forest_when_ids_distinct files depth r).
    - apply (in_contained files depth r n Hrun Hn). rewrite Hkind. discriminate. }
  split; [exact Hdeg|].
  unfold degree in Hdeg.
  destruct (incident (links r) n) as [|l [|l' ls]] eqn:E; try discriminate.
  exists l. split; [reflexivity|].
  assert (Hl : In l (incident (links r) n)) by (rewrite E; now left).
  rewrite (function_links files (nodes r) (links r) n Hnodes Hlinks Hn Hkind) in Hl.
  apply filter_In in Hl. destruct Hl as [Hl Ht].
  apply filter_In in Hl. destruct Hl as [Hl Hc].
  assert (Hty : link_type l = CONTAINS).
  { unfold is_contains in Hc. destruct (link_type l); try discriminate. reflexivity. }
  split; [exact Hl|]. split; [exact Hty|]. split; [now apply str_eqb_eq|].
  destruct (proj1 (Forall_forall _ _) Hlinks l Hl) as (s & t & Hs & _ & Hsrc & _ & Hk).
  rewrite Hty in Hk.
  pose proof (node_rank (proj1 (Forall_forall _ _) Hnodes s Hs)) as Hrs.
  pose proof (function_id_rank files n (proj1 (Forall_forall _ _) Hnodes n Hn) Hkind) as Hr.
  intros Eid. rewrite Hsrc in Eid. rewrite Eid, Hr in Hrs.
  destruct (type s), (type t); simpl in *; discriminate.
Qed.

Lemma function_nodes_are_leaves_witness :
  analyzeCodebase [a_py; b_py] 3 = Some scenario_graph /\
  In (function_node a_py (lit "m") 3 5) (nodes scenario_graph) /\
  NoDup (map id (nodes scenario_graph)) /\
  degree scenario_graph (function_node a_py (lit "m") 3 5) = 1.
Proof.
  assert (Hn : In (function_node a_py (lit "m") 3 5) (nodes scenario_graph))
    by (vm_compute; auto 10).
  assert (Hnd : NoDup (map id (nodes scenario_graph))).
  { vm_compute. repeat constructor; simpl; intuition discriminate. }
  split; [exact scenario_graph_eq|]. split; [exact Hn|]. split; [exact Hnd|].
  exact (proj1 (function_nodes_are_leaves [a_py; b_py] 3 scenario_graph _
                  scenario_graph_eq Hn eq_refl Hnd)).
Defined.

(** ** The path patterns are tests on the extension *)

Lemma startsWith_iff (s t : str) : startsWith s t = true <-> exists r, s = t ++ r.
Proof.
  revert s. induction t as [|c t IH]; intros s; simpl.
  - split; [intros _; now exists s | reflexivity].
  - destruct s as [|x s]; [split; [discriminate | intros (r & H); discriminate]|].
    rewrite andb_true_iff, N.eqb_eq, IH. split.
    + intros (-> & r & ->). now exists r.
    + intros (r & H). injection H as -> ->. split; [reflexivity | now exists r].
Qed.

Lemma endsWith_iff (p s : str) : endsWith p s = true <-> exists pre, p = pre ++ s.
Proof.
  unfold endsWith. rewrite startsWith_iff. split.
  - intros (r & H). exists (rev r).
    rewrite <- (rev_involutive p), H, rev_app_distr, rev_involutive. reflexivity.
  - intros (pre & ->). exists (rev pre). apply rev_app_distr.
Qed.

Lemma exec_from_iff (r : re) (n : nat) (s : str) : forall off,
  exec_from r n s off <> None <->
  exists pre s', s = pre ++ s' /\ rmatch r n s' [] (fun _ cs => Some cs) <> None.
Proof.
  induction s as [|c s IH]; intros off; rewrite exec_from_unfold.
  - destruct (rmatch r n [] [] (fun _ cs => Some cs)) eqn:E.
    + split; [|discriminate]. intros _. exists [], []. rewrite E. split; [reflexivity | discriminate].
    + split; [congruence|]. intros (pre & s' & H & Hm).
      symmetry in H. apply app_eq_nil in H as [-> ->]. congruence.
  - destruct (rmatch r n (c :: s) [] (fun _ cs => Some cs)) eqn:E.
    + split; [|discriminate]. intros _. exists [], (c :: s). rewrite E.
      split; [reflexivity | discriminate].
    + rewrite IH. split.
      * intros (pre & s' & -> & Hm). now exists (c :: pre), s'.
      * intros (pre & s' & H & Hm). destruct pre as [|x pre].
        -- simpl in H. subst s'. congruence.
        -- injection H as -> ->. now exists pre, s'.
Qed.

Lemma is_match_iff (p : str) (r : re) :
  is_match p r = true <->
  exists pre s', p = pre ++ s' /\
                 rmatch r (length p) s' [] (fun _ cs => Some cs) <> None.
Proof.
  rewrite <- exec_from_iff with (off := 0). unfold is_match, str_match, exec.
  destruct (exec_from r (length p) p 0); simpl; split; congruence.
Qed.

(** A literal followed by the end of the input matches that literal and
    nothing else. *)
Lemma lit_to_end (t s : str) (n : nat) cs (k : str -> captures -> option captures) :
  (forall s' cs', k s' cs' <> None <-> s' = []) ->
  rmatch (Lit t) n s cs k <> None <-> s = t.
Proof.
  intros Hk. rewrite rmatch_lit. destruct (startsWith s t) eqn:E.
  - apply startsWith_iff in E as (r & ->). rewrite Hk, skipn_app, Nat.sub_diag.
    rewrite skipn_all. simpl. split; [intros ->; apply app_nil_r|].
    intros H. rewrite <- (app_nil_r t) in H at 2. now apply app_inv_head in H.
  - split; [congruence|]. intros ->.
    rewrite (proj2 (startsWith_iff t t)) in E; [discriminate | exists []; now rewrite app_nil_r].
Qed.

Lemma alt_not_none r1 r2 n s cs k :
  rmatch (Alt r1 r2) n s cs k <> None <->
  rmatch r1 n s cs k <> None \/ rmatch r2 n s cs k <> None.
Proof.
  rewrite rmatch_alt. destruct (rmatch r1 n s cs k) as [res|].
  - split; [intros _; left; discriminate | discriminate].
  - split; [now right | intros [H|H]; [congruence | exact H]].
Qed.

Lemma dot_then (r : re) n s cs k :
  rmatch (Seq (Lit (lit ".")) r) n s cs k <> None <->
  exists s1, s = 46%N :: s1 /\ rmatch r n s1 cs k <> None.
Proof.
  rewrite rmatch_seq, rmatch_lit. destruct (startsWith s (lit ".")) eqn:E.
  - apply startsWith_iff in E as (s1 & ->). simpl. split.
    + intros H. now exists s1.
    + intros (s2 & H & Hm). injection H as <-. exact Hm.
  - split; [congruence|]. intros (s1 & -> & _). discriminate.
Qed.

Lemma js_path_suffix (s : str) (n : nat) :
  rmatch re_js_path n s [] (fun _ cs => Some cs) <> None <-> In s js_extensions.
Proof.
  unfold re_js_path. cbn [seq_of fold_right]. rewrite dot_then.
  assert (Hk : forall s1 s' cs',
             (fun s2 cs2 => rmatch (Seq Eol Eps) n s2 ((1, firstn (length s1 - length s2) s1) :: cs2)
                              (fun _ cs => Some cs)) s' cs' <> None <-> s' = []).
  { intros s1 s' cs'. simpl. destruct s'; split; congruence. }
  split.
  - intros (s1 & -> & H). rewrite rmatch_seq in H. cbn [rmatch] in H.
    change (rmatch (Alt (Lit (lit "js")) (Alt (Lit (lit "ts"))
              (Alt (Lit (lit "jsx")) (Lit (lit "tsx"))))) n s1 []
              (fun s2 cs2 => rmatch (Seq Eol Eps) n s2
                               ((1, firstn (length s1 - length s2) s1) :: cs2)
                               (fun _ cs => Some cs)) <> None) in H.
    rewrite !alt_not_none, !(lit_to_end _ _ _ _ _ (Hk s1)) in H.
    simpl. intuition (subst; auto).
  - intros Hin. simpl in Hin.
    assert (Hs : exists s1, s = 46%N :: s1 /\
                   (s1 = lit "js" \/ s1 = lit "ts" \/ s1 = lit "jsx" \/ s1 = lit "tsx")).
    { destruct Hin as [<-|[<-|[<-|[<-|[]]]]]; eexists; (split; [reflexivity|]); auto. }
    destruct Hs as (s1 & -> & Hs1). exists s1. split; [reflexivity|].
    rewrite rmatch_seq. cbn [rmatch].
    change (rmatch (Alt (Lit (lit "js")) (Alt (Lit (lit "ts"))
              (Alt (Lit (lit "jsx")) (Lit (lit "tsx"))))) n s1 []
              (fun s2 cs2 => rmatch (Seq Eol Eps) n s2
                               ((1, firstn (length s1 - length s2) s1) :: cs2)
                               (fun _ cs => Some cs)) <> None).
    rewrite !alt_not_none, !(lit_to_end _ _ _ _ _ (Hk s1)). tauto.
Qed.

Lemma c_path_suffix (s : str) (n : nat) :
  rmatch re_c_path n s [] (fun _ cs => Some cs) <> None <-> In s c_extensions.
Proof.
  unfold re_c_path. cbn [seq_of fold_right]. rewrite dot_then.
  assert (Hk : forall s1 s' cs',
             (fun s2 cs2 => rmatch (Seq Eol Eps) n s2 ((1, firstn (length s1 - length s2) s1) :: cs2)
                              (fun _ cs => Some cs)) s' cs' <> None <-> s' = []).
  { intros s1 s' cs'. simpl. destruct s'; split; congruence. }
  split.
  - intros (s1 & -> & H). rewrite rmatch_seq in H. cbn [rmatch] in H.
    change (rmatch (Alt (Lit (lit "c")) (Alt (Lit (lit "cpp")) (Alt (Lit (lit "h"))
              (Alt (Lit (lit "hpp")) (Lit (lit "cc")))))) n s1 []
              (fun s2 cs2 => rmatch (Seq Eol Eps) n s2
                               ((1, firstn (length s1 - length s2) s1) :: cs2)
                               (fun _ cs => Some cs)) <> None) in H.
    rewrite !alt_not_none, !(lit_to_end _ _ _ _ _ (Hk s1)) in H.
    simpl. intuition (subst; auto 10).
  - intros Hin. simpl in Hin.
    assert (Hs : exists s1, s = 46%N :: s1 /\
                   (s1 = lit "c" \/ s1 = lit "cpp" \/ s1 = lit "h" \/ s1 = lit "hpp"
                    \/ s1 = lit "cc")).
    { destruct Hin as [<-|[<-|[<-|[<-|[<-|[]]]]]]; eexists; (split; [reflexivity|]); auto 10. }
    destruct Hs as (s1 & -> & Hs1). exists s1. split; [reflexivity|].
    rewrite rmatch_seq. cbn [rmatch].
    change (rmatch (Alt (Lit (lit "c")) (Alt (Lit (lit "cpp")) (Alt (Lit (lit "h"))
              (Alt (Lit (lit "hpp")) (Lit (lit "cc")))))) n s1 []
              (fun s2 cs2 => rmatch (Seq Eol Eps) n s2
                               ((1, firstn (length s1 - length s2) s1) :: cs2)
                               (fun _ cs => Some cs)) <> None).
    rewrite !alt_not_none, !(lit_to_end _ _ _ _ _ (Hk s1)). tauto.
Qed.

Lemma existsb_endsWith (p : str) (exts : list str) :
  existsb (fun ext => endsWith p ext) exts = true <->
  exists pre s, p = pre ++ s /\ In s exts.
Proof.
  rewrite existsb_exists. split.
  - intros (s & Hin & H). apply endsWith_iff in H as (pre & ->). now exists pre, s.
  - intros (pre & s & -> & Hin). exists s. split; [exact Hin|].
    apply endsWith_iff. now exists pre.
Qed.

Lemma js_path_extension (p : str) :
  is_match p re_js_path = existsb (fun ext => endsWith p ext) js_extensions.
Proof.
  apply eq_true_iff_eq. rewrite is_match_iff, existsb_endsWith.
  split; intros (pre & s & H & Hs); exists pre, s; (split; [exact H|]);
    now apply (js_path_suffix s (length p)).
Qed.

Lemma c_path_extension (p : str) :
  is_match p re_c_path = existsb (fun ext => endsWith p ext) c_extensions.
Proof.
  apply eq_true_iff_eq. rewrite is_match_iff, existsb_endsWith.
  split; intros (pre & s & H & Hs); exists pre, s; (split; [exact H|]);
    now apply (c_path_suffix s (length p)).
Qed.

(** ** The uploader and the three families *)

Lemma in_family_extensions (p : str) :
  in_family p = existsb (fun ext => endsWith p ext)
                        (lit ".py" :: js_extensions ++ c_extensions).
Proof.
  unfold in_family. rewrite js_path_extension, c_path_extension.
  change (lit ".py" :: js_extensions ++ c_extensions)
    with ([lit ".py"] ++ js_extensions ++ c_extensions).
  rewrite !existsb_app.
  change (existsb (fun ext => endsWith p ext) [lit ".py"])
    with (endsWith p (lit ".py") || false).
  rewrite orb_false_r, orb_assoc. reflexivity.
Qed.

(** X5. The dispatch of the line callback is a test on the extension: a
    path is parsed by one of the three branches iff it ends with one of
    .py, .js, .ts, .jsx, .tsx, .c, .cpp, .h, .hpp, .cc; the JS/TS branch is
    taken iff it ends with one of the four in the middle, the C/C++ branch
    iff it ends with one of the last five. *)
Theorem family_by_extension (p : str) :
  in_family p = existsb (fun ext => endsWith p ext)
                        (lit ".py" :: js_extensions ++ c_extensions) /\
  is_match p re_js_path = existsb (fun ext => endsWith p ext) js_extensions /\
  is_match p re_c_path = existsb (fun ext => endsWith p ext) c_extensions.
Proof.
  split; [apply in_family_extensions|].
  split; [apply js_path_extension | apply c_path_extension].
Qed.

Lemma family_allowed (p : str) : in_family p = true -> isAllowed p = true.
Proof.
  rewrite in_family_extensions. unfold isAllowed.
  rewrite !existsb_exists. intros (ext & Hin & H). exists ext. split; [|exact H].
  simpl in Hin. unfold allowedExtensions. simpl.
  repeat (destruct Hin as [<-|Hin]; [tauto|]). destruct Hin.
Qed.

(** X6. The uploader drops nothing the extractor can parse: a browser
    file whose text can be read and whose path (the relative path, or the
    name when that is empty) belongs to one of the three families is
    handed to the application, with that path and that text. *)
Theorem handleFileChange_keeps_parsed_files
        (fileList : list BrowserFile) (file' : BrowserFile) (content' : str)
        (Hin : In file' fileList) (Htext : text file' = Some content')
        (Hfamily : in_family (upload_path file') = true) :
  In {| name := file_name file'; path := upload_path file'; content := content' |}
     (handleFileChange fileList).
Proof.
  induction fileList as [|x l IH]; [destruct Hin|]. simpl.
  destruct Hin as [->|Hin].
  - rewrite (family_allowed _ Hfamily), Htext. simpl. now left.
  - specialize (IH Hin). destruct (isAllowed (upload_path x)); simpl; [|exact IH].
    destruct (text x); [now right | exact IH].
Qed.

Lemma handleFileChange_keeps_parsed_files_witness :
  In a_py_upload [a_py_upload] /\ text a_py_upload = Some (content a_py) /\
  in_family (upload_path a_py_upload) = true /\
  In {| name := lit "a.py"; path := lit "proj/a.py"; content := content a_py |}
     (handleFileChange [a_py_upload]).
Proof.
  assert (H1 : In a_py_upload [a_py_upload]) by now left.
  assert (H3 : in_family (upload_path a_py_upload) = true) by reflexivity.
  split; [exact H1|]. split; [reflexivity|]. split; [exact H3|].
  exact (handleFileChange_keeps_parsed_files [a_py_upload] a_py_upload (content a_py)
           H1 eq_refl H3).
Defined.





(** ** determineEndLine at the edges *)

(** X8. On a start index that is a natural number, as the index of
    [forEach] is: [determineEndLine] raises iff the strategy is the
    indentation one and the index is not below the number of lines; with
    the brace strategy such an index gives the number of lines. *)
Theorem determineEndLine_raises (lines : list str) (startIdx : nat) (type : Lang) :
  (determineEndLine lines startIdx type = None <->
   type = PYTHON /\ length lines <= startIdx) /\
  (type <> PYTHON -> length lines <= startIdx ->
   determineEndLine lines startIdx type = Some (length lines)).
Proof.
  split.
  - destruct (Lang_eq_PYTHON type) as [->|Ht].
    + destruct (Nat.lt_ge_cases startIdx (length lines)) as [Hlt|Hge].
      * destruct (determineEndLine_python lines startIdx Hlt) as (r & -> & _).
        split; [discriminate | lia].
      * split; [auto|]. intros _. unfold determineEndLine.
        now rewrite (proj2 (nth_error_None lines startIdx) Hge).
    + destruct (determineEndLine_braces lines startIdx Ht) as (r & -> & _).
      split; [discriminate | tauto].
  - intros Ht Hge.
    assert (H : determineEndLine lines startIdx type =
                match brace_scan (skipn startIdx lines) startIdx 0 false with
                | Some r => Some r
                | None => Some (Nat.min (startIdx + 20) (length lines))
                end) by (destruct type; [congruence | reflexivity | reflexivity]).
    rewrite H, skipn_all2 by exact Hge. simpl. f_equal. lia.
Qed.

Lemma determineEndLine_raises_witness :
  determineEndLine brace_sample 7 PYTHON = None /\
  determineEndLine brace_sample 7 C_CPP = Some 5.
Proof.
  split.
  - apply (proj1 (determineEndLine_raises brace_sample 7 PYTHON)).
    split; [reflexivity | simpl; lia].
  - apply (proj2 (determineEndLine_raises brace_sample 7 C_CPP));
      [discriminate | simpl; lia].
Defined.

Lemma terminates_deeper (a b : nat) (l : str) :
  a < b -> terminates a l = true -> terminates b l = true.
Proof.
  unfold terminates. intros Hab H. apply andb_true_iff in H as [Hb Hi].
  rewrite Hb. simpl. apply Nat.leb_le in Hi. apply Nat.leb_le. lia.
Qed.

(** X9. Indentation blocks nest: a block that starts on a line inside
    the block of line [i] ends no later than the block of line [i]. *)
Theorem indentation_blocks_nest (lines : list str) (i j ei ej : nat)
        (Hi : determineEndLine lines i PYTHON = Some ei)
        (Hinside : i < j < ei)
        (Hj : determineEndLine lines j PYTHON = Some ej) :
  ej <= ei.
Proof.
  assert (Hil : i < length lines).
  { destruct (Nat.lt_ge_cases i (length lines)) as [H|H]; [exact H|].
    unfold determineEndLine in Hi.
    rewrite (proj2 (nth_error_None lines i) H) in Hi. discriminate. }
  assert (Hjl : j < length lines).
  { destruct (Nat.lt_ge_cases j (length lines)) as [H|H]; [exact H|].
    unfold determineEndLine in Hj.
    rewrite (proj2 (nth_error_None lines j) H) in Hj. discriminate. }
  destruct (determineEndLine_python lines i Hil) as (r & Hr & si & Hsi & Hspec_i).
  rewrite Hi in Hr. injection Hr as <-.
  destruct (determineEndLine_python lines j Hjl) as (r & Hr & sj & Hsj & Hspec_j).
  rewrite Hj in Hr. injection Hr as <-.
  destruct (blank si) eqn:Bi; [lia|].
  destruct (blank sj) eqn:Bj; [lia|].
  assert (Hdeep : indentation si < indentation sj).
  { assert (Ht : terminates (indentation si) sj = false).
    { destruct Hspec_i as [(_ & _ & Hmin)|(_ & Hmin)].
      - apply (Hmin j sj); [lia | exact Hsj].
      - apply (Hmin j sj); [lia | exact Hsj]. }
    unfold terminates in Ht. rewrite Bj in Ht. simpl in Ht.
    apply Nat.leb_gt in Ht. exact Ht. }
  destruct Hspec_i as [(Hei & (le & Hle & Hte) & _)|(-> & _)].
  - apply (terminates_deeper _ _ _ Hdeep) in Hte.
    destruct (Nat.le_gt_cases ej ei) as [H|H]; [exact H|]. exfalso.
    destruct Hspec_j as [(_ & _ & Hmin)|(_ & Hmin)].
    + rewrite (Hmin ei le) in Hte; [discriminate | lia | exact Hle].
    + rewrite (Hmin ei le) in Hte; [discriminate | lia | exact Hle].
  - destruct Hspec_j as [(Hej & _)|(-> & _)]; lia.
Qed.

Lemma indentation_blocks_nest_witness :
  determineEndLine indentation_sample 0 PYTHON = Some 3 /\ 0 < 1 < 3 /\
  determineEndLine indentation_sample 1 PYTHON = Some 3 /\ 3 <= 3.
Proof.
  assert (H0 : determineEndLine indentation_sample 0 PYTHON = Some 3) by reflexivity.
  assert (H1 : determineEndLine indentation_sample 1 PYTHON = Some 3) by reflexivity.
  assert (H : 0 < 1 < 3) by lia.
  split; [exact H0|]. split; [exact H|]. split; [exact H1|].
  exact (indentation_blocks_nest indentation_sample 0 1 3 3 H0 H H1).
Defined.

(** ** When two ids are equal *)

Lemma until_sep (c : char) (u v p q : str) :
  ~ In c u -> ~ In c v -> u ++ c :: p = v ++ c :: q -> u = v /\ p = q.
Proof.
  revert v. induction u as [|x u IH]; intros [|y v] Hu Hv H; simpl in *.
  - injection H as <-. auto.
  - injection H as <- _. exfalso. apply Hv. now left.
  - injection H as -> _. exfalso. apply Hu. now left.
  - injection H as -> H. destruct (IH v) as [-> ->]; auto.
Qed.

Lemma generateId_same_file (t f n1 n2 : str) :
  generateId t n1 f = generateId t n2 f -> n1 = n2.
Proof.
  unfold generateId. intros H. apply app_inv_head in H. apply app_inv_head in H.
  apply app_inv_head in H. now apply app_inv_head in H.
Qed.

Lemma generateId_colon_free (t f1 f2 n1 n2 : str) :
  ~ In colon n1 -> ~ In colon n2 ->
  generateId t n1 f1 = generateId t n2 f2 -> f1 = f2 /\ n1 = n2.
Proof.
  unfold generateId. intros H1 H2 H. apply app_inv_head in H. apply app_inv_head in H.
  change (lit ":" ++ n1) with (colon :: n1) in H.
  change (lit ":" ++ n2) with (colon :: n2) in H.
  apply (f_equal (@rev char)) in H. rewrite !rev_app_distr in H. simpl in H.
  rewrite <- !app_assoc in H. simpl in H.
  apply until_sep in H as [Hn Hf].
  - apply (f_equal (@rev char)) in Hn, Hf. rewrite !rev_involutive in Hn, Hf. auto.
  - intros Hin. apply H1. now apply in_rev.
  - intros Hin. apply H2. now apply in_rev.
Qed.

Lemma node_kind files n :
  node_origin files n -> type n = FILE \/ type n = CLASS \/ type n = FUNCTION.
Proof. intros Ho. inversion Ho; simpl; auto. Qed.

Lemma construct_id files n :
  node_origin files n -> type n <> FILE ->
  id n = generateId (NodeType_name (type n)) (label n) (file n).
Proof. intros Ho Hty. inversion Ho; subst; simpl in *; congruence. Qed.

(** X10. Two nodes of the graph share an id only if they have the same
    kind; two File nodes then have the same path, and two Class or
    Function nodes whose labels hold no colon have the same file and the
    same label.  Two nodes of one file and one kind share an id only if
    they have the same label. *)
Theorem equal_ids (files : list CodeFile) (depth : Z) (r : AnalysisResult)
        (n1 n2 : GraphNode)
        (Hrun : analyzeCodebase files depth = Some r)
        (H1 : In n1 (nodes r)) (H2 : In n2 (nodes r)) (Hid : id n1 = id n2) :
  type n1 = type n2 /\
  (type n1 = FILE -> file n1 = file n2) /\
  (file n1 = file n2 -> type n1 <> FILE -> label n1 = label n2) /\
  (~ In colon (label n1) -> ~ In colon (label n2) -> type n1 <> FILE ->
   file n1 = file n2 /\ label n1 = label n2).
Proof.
  destruct (analyzeCodebase_graph files depth r Hrun) as [Hnodes _].
  pose proof (proj1 (Forall_forall _ _) Hnodes n1 H1) as O1.
  pose proof (proj1 (Forall_forall _ _) Hnodes n2 H2) as O2.
  assert (Hty : type n1 = type n2).
  { pose proof (node_rank O1) as R1. pose proof (node_rank O2) as R2.
    rewrite Hid, R2 in R1.
    destruct (node_kind _ _ O1) as [K1|[K1|K1]], (node_kind _ _ O2) as [K2|[K2|K2]];
      rewrite K1, K2 in *; simpl in R1; congruence. }
  split; [exact Hty|]. split; [|split].
  - intros K. rewrite (file_node_id O1 K), (file_node_id O2) in Hid by congruence.
    unfold file_id in Hid. now apply app_inv_head in Hid.
  - intros Hf K. rewrite (construct_id _ _ O1 K), (construct_id _ _ O2) in Hid by congruence.
    rewrite Hty, Hf in Hid. now apply generateId_same_file in Hid.
  - intros C1 C2 K.
    rewrite (construct_id _ _ O1 K), (construct_id _ _ O2) in Hid by congruence.
    rewrite Hty in Hid. now apply generateId_colon_free in Hid.
Qed.

Lemma twice_graph_eq : analyzeCodebase [twice_py] 3 = Some twice_graph.
Proof. vm_compute. reflexivity. Qed.

Lemma equal_ids_witness :
  analyzeCodebase [twice_py] 3 = Some twice_graph /\
  In (function_node twice_py (lit "__init__") 2 3) (nodes twice_graph) /\
  In (function_node twice_py (lit "__init__") 5 6) (nodes twice_graph) /\
  id (function_node twice_py (lit "__init__") 2 3)
  = id (function_node twice_py (lit "__init__") 5 6) /\
  type (function_node twice_py (lit "__init__") 2 3)
  = type (function_node twice_py (lit "__init__") 5 6) /\
  label (function_node twice_py (lit "__init__") 2 3)
  = label (function_node twice_py (lit "__init__") 5 6).
Proof.
  assert (Ha : In (function_node twice_py (lit "__init__") 2 3) (nodes twice_graph))
    by (vm_compute; auto 10).
  assert (Hb : In (function_node twice_py (lit "__init__") 5 6) (nodes twice_graph))
    by (vm_compute; auto 10).
  destruct (equal_ids [twice_py] 3 twice_graph _ _ twice_graph_eq Ha Hb eq_refl)
    as (Hty & _ & H & _).
  split; [exact twice_graph_eq|]. split; [exact Ha|]. split; [exact Hb|].
  split; [reflexivity|]. split; [exact Hty|]. apply H; [reflexivity | discriminate].
Defined.

(** ** The shape of the graph *)

Lemma line_effect_constructs {step cs fs ls depth st st' nodes0} :
  line_effect step cs fs ls -> files_then_constructs nodes0 st ->
  step depth st = Some st' -> files_then_constructs nodes0 st'.
Proof.
  intros (Hcs & Hfs & H) (rest & Hrest & Hk) E.
  destruct (H depth st st' E) as (Hn & _ & _). cbv zeta in Hn.
  exists (rest ++ (if (depth >=? 2)%Z then cs else [])
               ++ (if (depth >=? 3)%Z then fs else [])).
  split; [rewrite Hn, Hrest; now rewrite <- app_assoc|].
  apply Forall_app. split; [exact Hk|]. apply Forall_app. split.
  - destruct (depth >=? 2)%Z; [|constructor]. eapply Forall_impl; [|exact Hcs]. auto.
  - destruct (depth >=? 3)%Z; [|constructor]. eapply Forall_impl; [|exact Hfs]. auto.
Qed.

Lemma analyzeCodebase_nodes_shape files depth r :
  analyzeCodebase files depth = Some r ->
  exists rest, nodes r = map file_node files ++ rest /\
               Forall (fun n => type n = CLASS \/ type n = FUNCTION) rest.
Proof.
  unfold analyzeCodebase.
  pose proof (file_pass_nodes files) as Hn0.
  destruct (file_pass files) as [nodes0 fileNodes]. simpl in Hn0. subst nodes0.
  set (st0 := {| out_nodes := map file_node files; out_links := [];
                 currentClass := None |}).
  destruct (forEach (process_file fileNodes depth) files 0 st0) as [st|] eqn:E;
    [|discriminate].
  intros H. injection H as <-. simpl.
  apply (forEach_preserves (process_file fileNodes depth)
           (files_then_constructs (map file_node files)) files)
    with (i := 0) (s := st0); [| |exact E].
  - intros f j a a' Ha. unfold process_file.
    apply forEach_preserves; [|exact Ha].
    intros line index s1 s1' Hs1 E1.
    destruct (process_line_effect fileNodes f (split (content f) newline)
                match Map_get fileNodes (path f) with Some i => i | None => [] end
                line index) as (cs & fs & ls & Heff).
    exact (line_effect_constructs Heff Hs1 E1).
  - exists []. split; [simpl; now rewrite app_nil_r | constructor].
Qed.

(** X11. The File nodes come first in the node list, one for each input
    file, in input order, each spanning the whole file; every node after
    them is a Class or a Function node. *)
Theorem analyzeCodebase_files_first (files : list CodeFile) (depth : Z) :
  exists r rest, analyzeCodebase files depth = Some r /\
    nodes r = map file_node files ++ rest /\
    Forall (fun n => type n = CLASS \/ type n = FUNCTION) rest /\
    count_type FILE (nodes r) = length files.
Proof.
  destruct (analyzeCodebase_returns files depth) as (r & Hr).
  destruct (analyzeCodebase_nodes_shape files depth r Hr) as (rest & Hn & Hrest).
  exists r, rest. split; [exact Hr|]. split; [exact Hn|]. split; [exact Hrest|].
  unfold count_type. rewrite Hn, filter_app, length_app.
  rewrite (filter_all _ (map file_node files)), (filter_none _ rest), length_map; [simpl; lia| |].
  - eapply Forall_impl; [|exact Hrest]. intros n [H|H]; now rewrite H.
  - apply Forall_forall. intros n Hin. apply in_map_iff in Hin as (f & <- & _). reflexivity.
Qed.

(** X12. The graph has no dangling reference: both ends of every edge are
    ids of nodes of the graph, an Import edge joins two File nodes, and the
    [file] of every node is the path of an input file whose File node is
    in the graph. *)
Theorem analyzeCodebase_no_dangling (files : list CodeFile) (depth : Z) :
  exists r, analyzeCodebase files depth = Some r /\
    (forall l, In l (links r) ->
       exists s t, In s (nodes r) /\ In t (nodes r) /\
                   source l = id s /\ target l = id t /\
                   (link_type l = IMPORT -> type s = FILE /\ type t = FILE)) /\
    (forall n, In n (nodes r) ->
       exists f, In f files /\ path f = file n /\ In (file_node f) (nodes r)).
Proof.
  destruct (analyzeCodebase_wf files depth) as (st & Hr & Hwf).
  eexists. split; [exact Hr|]. simpl. split.
  - intros l Hl.
    destruct (proj1 (Forall_forall _ _) (wf_links _ _ Hwf) l Hl)
      as (s & t & Hs & Ht & Hsrc & Htgt & H).
    exists s, t. split; [exact Hs|]. split; [exact Ht|]. split; [exact Hsrc|].
    split; [exact Htgt|]. intros Hty. rewrite Hty in H. tauto.
  - intros n Hn.
    pose proof (proj1 (Forall_forall _ _) (wf_nodes _ _ Hwf) n Hn) as Ho.
    inversion Ho as [f Hf Heq | f index line nm e lang what Hf Hline He Heq
                     | f index line nm e lang Hf Hline He Heq]; subst n;
      exists f; (split; [exact Hf|]); (split; [reflexivity|]);
      now apply (wf_files _ _ Hwf).
Qed.

Lemma analyzeCodebase_no_dangling_witness :
  exists r, analyzeCodebase [a_py; b_py] 3 = Some r /\
    In (contains (lit "CLASS:a.py:A") (lit "FUNCTION:a.py:m")) (links r) /\
    exists s t, In s (nodes r) /\ In t (nodes r) /\
                lit "CLASS:a.py:A" = id s /\ lit "FUNCTION:a.py:m" = id t.
Proof.
  destruct (analyzeCodebase_no_dangling [a_py; b_py] 3) as (r & Hr & H & _).
  exists r.
  assert (Hl : In (contains (lit "CLASS:a.py:A") (lit "FUNCTION:a.py:m")) (links r)).
  { vm_compute in Hr. injection Hr as <-. vm_compute. auto. }
  split; [exact Hr|]. split; [exact Hl|].
  destruct (H _ Hl) as (s & t & Hs & Ht & Hsrc & Htgt & _). now exists s, t.
Defined.

Lemma link_kind ns l : link_origin ns l -> link_type l = CONTAINS \/ link_type l = IMPORT.
Proof.
  intros (s & t & _ & _ & _ & _ & H). destruct (link_type l); auto; contradiction.
Qed.

(** X13. What a depth leaves out: below depth 2 the graph is made of the
    File nodes and of Import edges only; below depth 3 it has no Function
    node. *)
Theorem analyzeCodebase_depth_limits (files : list CodeFile) (depth : Z)
        (r : AnalysisResult) (Hrun : analyzeCodebase files depth = Some r) :
  ((depth < 2)%Z ->
   nodes r = map file_node files /\
   Forall (fun l => link_type l = IMPORT) (links r)) /\
  ((depth < 3)%Z -> Forall (fun n => type n <> FUNCTION) (nodes r)).
Proof.
  destruct (analyzeCodebase_depths files depth depth r r ltac:(lia) Hrun Hrun) as [Hvis _].
  assert (Hall : Forall (fun n => visible depth n = true) (nodes r)).
  { rewrite Hvis. apply Forall_forall. intros n Hn. now apply filter_In in Hn. }
  destruct (analyzeCodebase_nodes_shape files depth r Hrun) as (rest & Hn & Hrest).
  split.
  - intros Hd.
    assert (Hnil : rest = []).
    { destruct rest as [|n rest]; [reflexivity|]. exfalso.
      inversion Hrest as [|? ? Hk _]; subst.
      assert (Hv : visible depth n = true).
      { apply (proj1 (Forall_forall _ _) Hall). rewrite Hn. apply in_or_app. right. now left. }
      unfold visible in Hv.
      assert (D2 : (depth >=? 2)%Z = false) by (destruct (Z.geb_spec depth 2); [lia | reflexivity]).
      assert (D3 : (depth >=? 3)%Z = false) by (destruct (Z.geb_spec depth 3); [lia | reflexivity]).
      destruct Hk as [Hk|Hk]; rewrite Hk in Hv; congruence. }
    subst rest. rewrite app_nil_r in Hn. split; [exact Hn|].
    destruct (analyzeCodebase_graph files depth r Hrun) as [_ Hlinks].
    pose proof (analyzeCodebase_one_edge_per_node files depth r Hrun) as Hone.
    rewrite Hn, (filter_none _ (map file_node files)) in Hone.
    + apply map_eq_nil in Hone.
      apply Forall_forall. intros l Hl.
      destruct (link_kind _ _ (proj1 (Forall_forall _ _) Hlinks l Hl)) as [Hc|Hi];
        [|exact Hi].
      exfalso. assert (Hin : In l (filter is_contains (links r))).
      { apply filter_In. split; [exact Hl|]. unfold is_contains. now rewrite Hc. }
      rewrite Hone in Hin. destruct Hin.
    + apply Forall_forall. intros n Hin. apply in_map_iff in Hin as (f & <- & _). reflexivity.
  - intros Hd. eapply Forall_impl; [|exact Hall].
    intros n Hv Hty. unfold visible in Hv. rewrite Hty in Hv.
    assert (D3 : (depth >=? 3)%Z = false) by (destruct (Z.geb_spec depth 3); [lia | reflexivity]). congruence.
Qed.

Lemma analyzeCodebase_depth_limits_witness :
  exists r, analyzeCodebase [a_py; b_py] 1 = Some r /\
    nodes r = [file_node a_py; file_node b_py] /\
    Forall (fun l => link_type l = IMPORT) (links r).
Proof.
  destruct (analyzeCodebase_returns [a_py; b_py] 1) as (r & Hr).
  exists r. split; [exact Hr|].
  exact (proj1 (analyzeCodebase_depth_limits [a_py; b_py] 1 r Hr) ltac:(lia)).
Defined.

(** X14. The graph has one Contains edge for each Class and Function
    node: their number is the sum of the two counts that the summary
    reports. *)
Theorem analyzeCodebase_contains_count (files : list CodeFile) (depth : Z) :
  exists r, analyzeCodebase files depth = Some r /\
    length (filter is_contains (links r))
    = count_type CLASS (nodes r) + count_type FUNCTION (nodes r).
Proof.
  destruct (analyzeCodebase_returns files depth) as (r & Hr).
  exists r. split; [exact Hr|].
  pose proof (analyzeCodebase_one_edge_per_node files depth r Hr) as Hone.
  apply (f_equal (@length str)) in Hone. rewrite !length_map in Hone. rewrite Hone.
  clear Hone. destruct (analyzeCodebase_graph files depth r Hr) as [Hnodes _].
  unfold count_type. induction Hnodes as [|n ns Ho _ IH]; simpl; [reflexivity|].
  unfold is_type at 1. destruct (node_kind _ _ Ho) as [K|[K|K]]; rewrite K; simpl; lia.
Qed.

(** ** The path-to-id map *)

Lemma Map_set_keys (m : FileMap) (k v : str) :
  NoDup (map fst m) -> NoDup (map fst (Map_set m k v)) /\
  forall p, In p (map fst (Map_set m k v)) -> p = k \/ In p (map fst m).
Proof.
  induction m as [|[k' v'] m IH]; simpl; intros Hnd.
  - split; [constructor; [intros [] | constructor]|]. intros p [H|[]]. now left.
  - inversion Hnd as [|? ? Hk' Hm]; subst. destruct (IH Hm) as [IH1 IH2].
    destruct (str_eqb k' k) eqn:E; simpl.
    + split; [exact Hnd|]. intros p [H|H]; auto.
    + split.
      * constructor; [|exact IH1]. intros Hin. destruct (IH2 _ Hin) as [H|H].
        -- apply str_eqb_neq in E. congruence.
        -- contradiction.
      * intros p [H|H]; [auto|]. destruct (IH2 _ H); auto.
Qed.

Lemma file_pass_keys (files : list CodeFile) : NoDup (map fst (snd (file_pass files))).
Proof.
  unfold file_pass. rewrite file_pass_fold. simpl.
  assert (H : forall fs m, NoDup (map fst m) ->
             NoDup (map fst (fold_left (fun m f => Map_set m (path f) (file_id (path f)))
                                       fs m))).
  { induction fs as [|f fs IH]; intros m Hm; simpl; [exact Hm|].
    apply IH. now apply Map_set_keys. }
  apply H. constructor.
Qed.

(** X15. After the file pass the map [fileNodes] has the id FILE:path
    under the path of every input file, so that the lookup asserted
    non-null in the second pass never fails; its entries are paths of
    input files with their ids, and no path occurs twice among its keys,
    even when the input lists it twice. *)
Theorem fileNodes_after_file_pass (files : list CodeFile) :
  (forall f, In f files ->
     Map_get (snd (file_pass files)) (path f) = Some (lit "FILE:" ++ path f)) /\
  (forall p fid, In (p, fid) (snd (file_pass files)) ->
     fid = lit "FILE:" ++ p /\ exists f, In f files /\ path f = p) /\
  NoDup (map fst (snd (file_pass files))).
Proof.
  destruct (file_pass_map files) as [Hwf Hget].
  split; [exact Hget|]. split; [exact Hwf | apply file_pass_keys].
Qed.

Lemma fileNodes_after_file_pass_witness :
  In a_py [a_py; a_py; b_py] /\
  Map_get (snd (file_pass [a_py; a_py; b_py])) (path a_py) = Some (lit "FILE:a.py") /\
  length (snd (file_pass [a_py; a_py; b_py])) = 2.
Proof.
  assert (H : In a_py [a_py; a_py; b_py]) by now left.
  split; [exact H|].
  split; [exact (proj1 (fileNodes_after_file_pass [a_py; a_py; b_py]) a_py H) | reflexivity].
Defined.

(** ** Labels are names *)

Lemma star_chr (q : char -> bool) (n : nat) k : forall fuel s cs res,
  star_loop (fun s' cs' k' => rmatch (Chr q) n s' cs' k') k fuel s cs = Some res ->
  exists a s', s = a ++ s' /\ forallb q a = true /\ k s' cs = Some res.
Proof.
  induction fuel as [|fuel IH]; intros s cs res H; cbn [star_loop rmatch] in H.
  - now exists [], s.
  - destruct s as [|c s1]; [now exists [], []|].
    destruct (q c) eqn:Q; [|now exists [], (c :: s1)].
    destruct (length s1 <? length (c :: s1)); [|now exists [], (c :: s1)].
    match type of H with
    | match ?e with _ => _ end = _ => destruct e as [res1|] eqn:E
    end.
    + injection H as <-. apply IH in E as (a & s' & -> & Ha & Hk).
      exists (c :: a), s'. simpl. now rewrite Q, Ha.
    + now exists [], (c :: s1).
Qed.

Lemma plus_chr (q : char -> bool) (n : nat) (s : str) cs k res :
  rmatch (Plus (Chr q)) n s cs k = Some res ->
  exists a s', s = a ++ s' /\ a <> [] /\ forallb q a = true /\ k s' cs = Some res.
Proof.
  unfold Plus. rewrite rmatch_seq. cbn [rmatch]. intros H.
  destruct s as [|c s1]; [discriminate|]. destruct (q c) eqn:Q; [|discriminate].
  apply (star_chr q n) in H as (a & s' & -> & Ha & Hk).
  exists (c :: a), s'. simpl. rewrite Q, Ha. repeat split; [discriminate | exact Hk].
Qed.

Lemma rmatch_names (r : re) :
  name_groups r -> forall n s cs k res,
  names_only cs -> rmatch r n s cs k = Some res ->
  exists s' cs', names_only cs' /\ k s' cs' = Some res.
Proof.
  induction 1 as [|p|t| | |r1 r2 _ IH1 _ IH2|r1 r2 _ IH1 _ IH2|r1 _ IH1|i q Hq];
    intros n s cs k res Hcs H.
  - now exists s, cs.
  - cbn [rmatch] in H. destruct s as [|c s]; [discriminate|].
    destruct (p c); [|discriminate]. now exists s, cs.
  - rewrite rmatch_lit in H. destruct (startsWith s t); [|discriminate]. eauto.
  - cbn [rmatch] in H. destruct (Nat.eqb (length s) n); [|discriminate]. eauto.
  - cbn [rmatch] in H. destruct s; [|discriminate]. eauto.
  - rewrite rmatch_seq in H. apply IH1 in H as (s1 & cs1 & Hcs1 & H); [|exact Hcs].
    now apply IH2 in H.
  - rewrite rmatch_alt in H. destruct (rmatch r1 n s cs k) as [res1|] eqn:E.
    + injection H as <-. now apply IH1 in E.
    + now apply IH2 in H.
  - cbn [rmatch] in H. revert H. generalize (S (length s)) as fuel. intros fuel.
    revert s cs Hcs. induction fuel as [|fuel IHf]; intros s cs Hcs H;
      cbn [star_loop] in H; [eauto|].
    match type of H with
    | match ?e with _ => _ end = _ => destruct e as [res1|] eqn:E
    end; [|eauto].
    injection H as <-. apply IH1 in E as (s1 & cs1 & Hcs1 & E); [|exact Hcs].
    destruct (length s1 <? length s); [|discriminate]. now apply IHf in E.
  - cbn [rmatch] in H. fold (Plus (Chr q)) in H.
    apply plus_chr in H as (a & s' & -> & Ha & Hqa & H).
    rewrite length_app, Nat.add_sub, firstn_app, Nat.sub_diag, firstn_all in H.
    simpl in H. rewrite app_nil_r in H.
    eexists s', _. split; [|exact H]. constructor; [|exact Hcs].
    split; [exact Ha|]. simpl.
    apply forallb_forall. intros c Hc. apply Hq.
    now apply (proj1 (forallb_forall q a) Hqa).
Qed.

Lemma str_match_names (r : re) (s : str) (m : captures) :
  name_groups r -> str_match s r = Some m -> names_only m.
Proof.
  intros Hr. unfold str_match, exec.
  generalize (length s) as n. generalize 0 as off. intros off n. revert off.
  assert (Hone : forall s0 cs, rmatch r n s0 [] (fun _ cs => Some cs) = Some cs ->
                               names_only cs).
  { intros s0 cs E. apply (rmatch_names r Hr) in E as (s' & cs' & Hcs & E);
      [|constructor]. now injection E as <-. }
  induction s as [|c s IH]; intros off; rewrite exec_from_unfold.
  - destruct (rmatch r n [] [] (fun _ cs => Some cs)) as [cs|] eqn:E; [|discriminate].
    simpl. intros H. injection H as <-. eauto.
  - destruct (rmatch r n (c :: s) [] (fun _ cs => Some cs)) as [cs|] eqn:E.
    + simpl. intros H. injection H as <-. eauto.
    + apply IH.
Qed.

Lemma group_in (i : nat) (cs : captures) (x : str) : group i cs = Some x -> In (i, x) cs.
Proof.
  induction cs as [|[j y] cs IH]; simpl; [discriminate|].
  destruct (Nat.eqb_spec i j) as [->|_].
  - intros H. injection H as ->. now left.
  - intros H. right. now apply IH.
Qed.

Lemma group_name (r : re) (s : str) (m : captures) (i : nat) (x : str) :
  name_groups r -> str_match s r = Some m -> group i m = Some x -> is_name x.
Proof.
  intros Hr Hm Hg. apply group_in in Hg.
  exact (proj1 (Forall_forall _ _) (str_match_names r s m Hr Hm) _ Hg).
Qed.

Lemma word_is_label c : is_word c = true -> label_char c = true.
Proof. unfold label_char. now intros ->. Qed.

Lemma word_or_colon_is_label c : is_word c || cls ":" c = true -> label_char c = true.
Proof.
  unfold label_char, cls. simpl. now rewrite orb_false_r.
Qed.

Lemma construct_patterns_name_groups :
  Forall name_groups [re_py_class; re_py_def; re_js_class; re_js_func; re_c_class;
                      re_c_func].
Proof.
  repeat constructor; first [exact word_is_label | exact word_or_colon_is_label].
Qed.

(** The name read off a match of one of the class and function patterns
    with a single group. *)
Lemma capture_name (r : re) (s : str) (m : captures) :
  In r [re_py_class; re_py_def; re_js_class; re_c_class; re_c_func] ->
  str_match s r = Some m -> is_name (capture m 1).
Proof.
  intros Hr Hm.
  assert (Hng : name_groups r).
  { apply (proj1 (Forall_forall _ _) construct_patterns_name_groups).
    simpl in *. tauto. }
  assert (Hb : group 1 m = Some (capture m 1)).
  { apply (capture_defined r s); [|exact Hm]. simpl in *. tauto. }
  exact (group_name r s m 1 _ Hng Hm Hb).
Qed.

Lemma labels_push st n l :
  labels_ok st -> is_name (label n) -> labels_ok (push_link l (push_node n st)).
Proof.
  intros Hst Hn. unfold labels_ok. simpl. apply Forall_app. split; [exact Hst|].
  constructor; [now right | constructor].
Qed.

Lemma labels_same st st' :
  out_nodes st' = out_nodes st -> labels_ok st -> labels_ok st'.
Proof. unfold labels_ok. now intros ->. Qed.

Section LineLabels.

Variable fileNodes : FileMap.
Variable f : CodeFile.
Variable lines : list str.
Variable fileId : str.
Variable depth : Z.
Variable line : str.
Variable index : nat.

Lemma python_function_labels st st' :
  labels_ok st -> python_function f lines fileId st line index = Some st' ->
  labels_ok st'.
Proof.
  intros Hst. unfold python_function.
  destruct (str_match line re_py_def) as [m|] eqn:Hm;
    [|intros H; injection H as <-; exact Hst].
  assert (Hname : is_name (capture m 1)) by (apply (capture_name re_py_def line); simpl; auto).
  destruct (determineEndLine lines index PYTHON) as [e|]; [|discriminate].
  simpl currentClass.
  destruct (search line nonspace >? 0)%Z, (currentClass st); intros H; injection H as <-;
    first [ now apply labels_push
          | apply (labels_same (push_link _ (push_node _ st))); [reflexivity|];
            now apply labels_push ].
Qed.

Lemma python_line_labels st st' :
  labels_ok st ->
  python_line fileNodes f lines fileId depth st line index = Some st' ->
  labels_ok st'.
Proof.
  intros Hst. unfold python_line.
  destruct (if (depth >=? 2)%Z then str_match line re_py_class else None) as [m|] eqn:Hm.
  - assert (Hm' : str_match line re_py_class = Some m)
      by (destruct (depth >=? 2)%Z; [exact Hm | discriminate]).
    assert (Hname : is_name (capture m 1))
      by (apply (capture_name re_py_class line); simpl; auto).
    destruct (determineEndLine lines index PYTHON) as [e|]; [|discriminate].
    intros H. injection H as <-.
    apply (labels_same (push_link
             (contains fileId (id (class_node f (capture m 1) (index + 1) e
                                     (lit "Class definition in "))))
             (push_node (class_node f (capture m 1) (index + 1) e
                           (lit "Class definition in ")) st)));
      [reflexivity|]. now apply labels_push.
  - assert (H1 : forall st1, (if (depth >=? 3)%Z then python_function f lines fileId st line index
                              else Some st) = Some st1 -> labels_ok st1).
    { intros st1. destruct (depth >=? 3)%Z; [now apply python_function_labels|].
      intros H. now injection H as <-. }
    destruct (if (depth >=? 3)%Z then python_function f lines fileId st line index
              else Some st) as [st1|]; [|discriminate].
    intros H. injection H as <-. apply (labels_same st1); [|now apply H1].
    unfold python_import. destruct (str_match line re_py_import); [|reflexivity].
    apply link_imports_nodes.
Qed.

Lemma js_class_labels st st' :
  labels_ok st -> js_class f lines fileId st line index = Some st' -> labels_ok st'.
Proof.
  intros Hst. unfold js_class.
  destruct (str_match line re_js_class) as [m|] eqn:Hm;
    [|intros H; injection H as <-; exact Hst].
  assert (Hname : is_name (capture m 1))
    by (apply (capture_name re_js_class line); simpl; auto).
  destruct (determineEndLine lines index JS) as [e|]; [|discriminate].
  intros H. injection H as <-. now apply labels_push.
Qed.

Lemma js_function_labels st st' :
  labels_ok st -> js_function f lines fileId st line index = Some st' -> labels_ok st'.
Proof.
  intros Hst. unfold js_function.
  destruct (str_match line re_js_func) as [m|] eqn:Hm;
    [|intros H; injection H as <-; exact Hst].
  destruct (or_else (group 1 m) (or_else (group 2 m) (group 3 m))) as [[|c nm]|] eqn:Hor;
    try (intros H; injection H as <-; exact Hst).
  assert (Hname : is_name (c :: nm)).
  { assert (Hg : exists i, group i m = Some (c :: nm)).
    { unfold or_else in Hor.
      destruct (truthy (group 1 m)); [now exists 1|].
      destruct (truthy (group 2 m)); [now exists 2 | now exists 3]. }
    destruct Hg as (i & Hg).
    apply (group_name re_js_func line m i); [|exact Hm | exact Hg].
    apply (proj1 (Forall_forall _ _) construct_patterns_name_groups). simpl. tauto. }
  destruct (determineEndLine lines index JS) as [e|]; [|discriminate].
  intros H. injection H as <-. now apply labels_push.
Qed.

Lemma c_class_labels st st' :
  labels_ok st -> c_class f lines fileId st line index = Some st' -> labels_ok st'.
Proof.
  intros Hst. unfold c_class.
  destruct (str_match line re_c_class) as [m|] eqn:Hm;
    [|intros H; injection H as <-; exact Hst].
  assert (Hname : is_name (capture m 1))
    by (apply (capture_name re_c_class line); simpl; auto).
  destruct (determineEndLine lines index C_CPP) as [e|]; [|discriminate].
  intros H. injection H as <-. now apply labels_push.
Qed.

Lemma c_function_labels st st' :
  labels_ok st -> c_function f lines fileId st line index = Some st' -> labels_ok st'.
Proof.
  intros Hst. unfold c_function.
  destruct (str_match line re_c_func) as [m|] eqn:Hm;
    [|intros H; injection H as <-; exact Hst].
  assert (Hname : is_name (capture m 1))
    by (apply (capture_name re_c_func line); simpl; auto 10).
  destruct (negb (array_includes keywords (capture m 1))
            && negb (endsWith (trim line) (lit ";")));
    [|intros H; injection H as <-; exact Hst].
  destruct (determineEndLine lines index C_CPP) as [e|]; [|discriminate].
  intros H. injection H as <-. now apply labels_push.
Qed.

Lemma guarded_labels (b : bool) (g : Scan -> option Scan) st st' :
  (forall s s', labels_ok s -> g s = Some s' -> labels_ok s') ->
  labels_ok st -> (if b then g st else Some st) = Some st' -> labels_ok st'.
Proof.
  intros Hg Hst. destruct b; [now apply Hg|]. intros H. now injection H as <-.
Qed.

Lemma process_line_labels st st' :
  labels_ok st ->
  process_line fileNodes f lines fileId depth st line index = Some st' ->
  labels_ok st'.
Proof.
  intros Hst. unfold process_line.
  destruct (str_eqb (trim line) []); [intros H; now injection H as <-|].
  destruct (endsWith (path f) (lit ".py")); [now apply python_line_labels|].
  destruct (is_match (path f) re_js_path).
  - unfold js_line.
    destruct (if (depth >=? 2)%Z then js_class f lines fileId st line index else Some st)
      as [st1|] eqn:E1; [|discriminate].
    apply (guarded_labels _ _ _ _ js_class_labels Hst) in E1.
    destruct (if (depth >=? 3)%Z then js_function f lines fileId st1 line index else Some st1)
      as [st2|] eqn:E2; [|discriminate].
    apply (guarded_labels _ _ _ _ js_function_labels E1) in E2.
    intros H. injection H as <-. apply (labels_same st2); [|exact E2].
    unfold js_import. destruct (str_match line re_js_import) as [m|]; [|reflexivity].
    destruct (pop (split (capture m 1) slash)) as [[|c nm]|]; try reflexivity.
    apply link_imports_nodes.
  - destruct (is_match (path f) re_c_path); [|intros H; now injection H as <-].
    unfold c_line.
    destruct (if (depth >=? 2)%Z then c_class f lines fileId st line index else Some st)
      as [st1|] eqn:E1; [|discriminate].
    apply (guarded_labels _ _ _ _ c_class_labels Hst) in E1.
    destruct (if (depth >=? 3)%Z then c_function f lines fileId st1 line index else Some st1)
      as [st2|] eqn:E2; [|discriminate].
    apply (guarded_labels _ _ _ _ c_function_labels E1) in E2.
    intros H. injection H as <-. apply (labels_same st2); [|exact E2].
    unfold c_include. destruct (str_match line re_c_include) as [m|]; [|reflexivity].
    destruct (pop (split (capture m 1) slash)) as [[|c nm]|]; try reflexivity.
    apply link_imports_nodes.
Qed.

End LineLabels.

(** X16. Every Class and Function node of the graph has a label that is
    not empty and is made of word characters ([A-Za-z0-9_]) and colons:
    the patterns capture nothing else as a name. *)
Theorem analyzeCodebase_labels (files : list CodeFile) (depth : Z) :
  exists r, analyzeCodebase files depth = Some r /\
    forall n, In n (nodes r) -> type n = CLASS \/ type n = FUNCTION ->
      label n <> [] /\ forallb (fun c => is_word c || N.eqb c colon) (label n) = true.
Proof.
  destruct (analyzeCodebase_returns files depth) as (r & Hr).
  exists r. split; [exact Hr|].
  assert (H : Forall (fun n => type n = FILE \/ is_name (label n)) (nodes r)).
  { revert Hr. unfold analyzeCodebase.
    pose proof (file_pass_nodes files) as Hn0.
    destruct (file_pass files) as [nodes0 fileNodes]. simpl in Hn0. subst nodes0.
    set (st0 := {| out_nodes := map file_node files; out_links := [];
                   currentClass := None |}).
    destruct (forEach (process_file fileNodes depth) files 0 st0) as [st|] eqn:E;
      [|discriminate].
    intros H. injection H as <-. simpl.
    apply (forEach_preserves (process_file fileNodes depth) labels_ok files)
      with (i := 0) (s := st0); [| |exact E].
    - intros f j a a' Ha. unfold process_file.
      apply forEach_preserves; [|exact Ha].
      intros line index s1 s1' Hs1. now apply process_line_labels.
    - apply Forall_forall. intros n Hn. apply in_map_iff in Hn as (f & <- & _). now left. }
  intros n Hn Hk.
  destruct (proj1 (Forall_forall _ _) H n Hn) as [Hf|Hname]; [|exact Hname].
  destruct Hk as [Hk|Hk]; rewrite Hk in Hf; discriminate.
Qed.

Lemma analyzeCodebase_labels_witness :
  exists r, analyzeCodebase [a_py; b_py] 3 = Some r /\
    In (function_node a_py (lit "m") 3 5) (nodes r) /\
    label (function_node a_py (lit "m") 3 5) <> [].
Proof.
  destruct (analyzeCodebase_labels [a_py; b_py] 3) as (r & Hr & H).
  exists r.
  assert (Hn : In (function_node a_py (lit "m") 3 5) (nodes r)).
  { vm_compute in Hr. injection Hr as <-. vm_compute. auto. }
  split; [exact Hr|]. split; [exact Hn|].
  exact (proj1 (H _ Hn (or_intror eq_refl))).
Defined.

(** ** The parents of the constructs *)

Section LineParents.

Variable fileNodes : FileMap.
Variable f : CodeFile.
Variable lines : list str.
Variable depth : Z.
Variable line : str.
Variable index : nat.

Lemma parents_file_push st n :
  parents_ok f st ->
  parents_ok f (push_link (contains (file_id (path f)) (id n)) (push_node n st)).
Proof.
  intros [Hl Hc]. split; [|exact Hc]. simpl. apply Forall_app. split; [exact Hl|].
  constructor; [|constructor]. intros _. left. now exists (path f).
Qed.

Lemma parents_imports st test :
  parents_ok f st -> parents_ok f (link_imports fileNodes f (file_id (path f)) test st).
Proof.
  intros [Hl Hc].
  destruct (link_imports_effect fileNodes f (file_id (path f)) test) as (ls & Hls & H).
  split.
  - rewrite H. apply Forall_app. split; [exact Hl|].
    eapply Forall_impl; [|exact Hls]. intros l Hi Hk. unfold is_import in Hi.
    rewrite Hk in Hi. discriminate.
  - now rewrite (proj2 (link_imports_nodes fileNodes f (file_id (path f)) test st)).
Qed.

Lemma guarded_parents (b : bool) (g : Scan -> option Scan) st st' :
  (forall s s', parents_ok f s -> g s = Some s' -> parents_ok f s') ->
  parents_ok f st -> (if b then g st else Some st) = Some st' -> parents_ok f st'.
Proof.
  intros Hg Hst. destruct b; [now apply Hg|]. intros H. now injection H as <-.
Qed.

Lemma python_function_parents st st' :
  parents_ok f st ->
  python_function f lines (file_id (path f)) st line index = Some st' ->
  parents_ok f st'.
Proof.
  intros Hst. unfold python_function.
  destruct (str_match line re_py_def) as [m|]; [|intros H; now injection H as <-].
  destruct (determineEndLine lines index PYTHON) as [e|]; [|discriminate].
  simpl currentClass.
  destruct (search line nonspace >? 0)%Z, (currentClass st) as [cc|] eqn:Hcc;
    intros H; injection H as <-;
    try (destruct (parents_file_push st (function_node f (capture m 1) (index + 1) e) Hst)
           as [Hl _]; split; [exact Hl | discriminate]).
  destruct Hst as [Hl Hc]. destruct (Hc cc Hcc) as (Hpy & cn & Hid).
  split; [|exact Hc]. simpl. apply Forall_app. split; [exact Hl|].
  constructor; [|constructor]. intros _. right.
  exists (path f), cn, (capture m 1). auto.
Qed.

Lemma python_line_parents st st' :
  endsWith (path f) (lit ".py") = true -> parents_ok f st ->
  python_line fileNodes f lines (file_id (path f)) depth st line index = Some st' ->
  parents_ok f st'.
Proof.
  intros Hpy Hst. unfold python_line.
  destruct (if (depth >=? 2)%Z then str_match line re_py_class else None) as [m|].
  - destruct (determineEndLine lines index PYTHON) as [e|]; [|discriminate].
    intros H. injection H as <-.
    destruct (parents_file_push st
                (class_node f (capture m 1) (index + 1) e (lit "Class definition in ")) Hst)
      as [Hl _].
    split; [exact Hl|]. simpl. intros c Hc. injection Hc as <-.
    split; [exact Hpy|]. now exists (capture m 1).
  - destruct (if (depth >=? 3)%Z
              then python_function f lines (file_id (path f)) st line index
              else Some st) as [st1|] eqn:E1; [|discriminate].
    apply (guarded_parents _ _ _ _ python_function_parents Hst) in E1.
    intros H. injection H as <-. unfold python_import.
    destruct (str_match line re_py_import); [|exact E1]. now apply parents_imports.
Qed.

Lemma push_construct_parents (g : Scan -> option Scan) :
  (forall s, g s = Some s \/ g s = None \/
             exists n, g s = Some (push_link (contains (file_id (path f)) (id n))
                                             (push_node n s))) ->
  forall s s', parents_ok f s -> g s = Some s' -> parents_ok f s'.
Proof.
  intros Hg s s' Hs E. destruct (Hg s) as [H|[H|(n & H)]]; rewrite H in E.
  - now injection E as <-.
  - discriminate.
  - injection E as <-. now apply parents_file_push.
Qed.

Lemma js_class_parents s s' :
  parents_ok f s -> js_class f lines (file_id (path f)) s line index = Some s' ->
  parents_ok f s'.
Proof.
  apply (push_construct_parents (fun s => js_class f lines (file_id (path f)) s line index)).
  intros st. unfold js_class.
  destruct (str_match line re_js_class) as [m|]; [|now left].
  destruct (determineEndLine lines index JS) as [e|]; right; [right | now left].
  now eexists.
Qed.

Lemma js_function_parents s s' :
  parents_ok f s -> js_function f lines (file_id (path f)) s line index = Some s' ->
  parents_ok f s'.
Proof.
  apply (push_construct_parents
           (fun s => js_function f lines (file_id (path f)) s line index)).
  intros st. unfold js_function.
  destruct (str_match line re_js_func) as [m|]; [|now left].
  destruct (or_else (group 1 m) (or_else (group 2 m) (group 3 m))) as [[|c nm]|];
    try (now left).
  destruct (determineEndLine lines index JS) as [e|]; right; [right | now left].
  now eexists.
Qed.

Lemma c_class_parents s s' :
  parents_ok f s -> c_class f lines (file_id (path f)) s line index = Some s' ->
  parents_ok f s'.
Proof.
  apply (push_construct_parents (fun s => c_class f lines (file_id (path f)) s line index)).
  intros st. unfold c_class.
  destruct (str_match line re_c_class) as [m|]; [|now left].
  destruct (determineEndLine lines index C_CPP) as [e|]; right; [right | now left].
  now eexists.
Qed.

Lemma c_function_parents s s' :
  parents_ok f s -> c_function f lines (file_id (path f)) s line index = Some s' ->
  parents_ok f s'.
Proof.
  apply (push_construct_parents
           (fun s => c_function f lines (file_id (path f)) s line index)).
  intros st. unfold c_function.
  destruct (str_match line re_c_func) as [m|]; [|now left].
  destruct (negb (array_includes keywords (capture m 1))
            && negb (endsWith (trim line) (lit ";"))); [|now left].
  destruct (determineEndLine lines index C_CPP) as [e|]; right; [right | now left].
  now eexists.
Qed.

Lemma process_line_parents st st' :
  parents_ok f st ->
  process_line fileNodes f lines (file_id (path f)) depth st line index = Some st' ->
  parents_ok f st'.
Proof.
  intros Hst. unfold process_line.
  destruct (str_eqb (trim line) []); [intros H; now injection H as <-|].
  destruct (endsWith (path f) (lit ".py")) eqn:Hpy; [now apply python_line_parents|].
  destruct (is_match (path f) re_js_path).
  - unfold js_line.
    destruct (if (depth >=? 2)%Z then js_class f lines (file_id (path f)) st line index
              else Some st) as [st1|] eqn:E1; [|discriminate].
    apply (guarded_parents _ _ _ _ js_class_parents Hst) in E1.
    destruct (if (depth >=? 3)%Z then js_function f lines (file_id (path f)) st1 line index
              else Some st1) as [st2|] eqn:E2; [|discriminate].
    apply (guarded_parents _ _ _ _ js_function_parents E1) in E2.
    intros H. injection H as <-. unfold js_import.
    destruct (str_match line re_js_import) as [m|]; [|exact E2].
    destruct (pop (split (capture m 1) slash)) as [[|c nm]|]; try exact E2.
    now apply parents_imports.
  - destruct (is_match (path f) re_c_path); [|intros H; now injection H as <-].
    unfold c_line.
    destruct (if (depth >=? 2)%Z then c_class f lines (file_id (path f)) st line index
              else Some st) as [st1|] eqn:E1; [|discriminate].
    apply (guarded_parents _ _ _ _ c_class_parents Hst) in E1.
    destruct (if (depth >=? 3)%Z then c_function f lines (file_id (path f)) st1 line index
              else Some st1) as [st2|] eqn:E2; [|discriminate].
    apply (guarded_parents _ _ _ _ c_function_parents E1) in E2.
    intros H. injection H as <-. unfold c_include.
    destruct (str_match line re_c_include) as [m|]; [|exact E2].
    destruct (pop (split (capture m 1) slash)) as [[|c nm]|]; try exact E2.
    now apply parents_imports.
Qed.

End LineParents.

Lemma forEach_preserves_in {A St : Type} (cb : St -> A -> nat -> option St)
      (P : St -> Prop) (l : list A) :
  (forall x j a a', In x l -> P a -> cb a x j = Some a' -> P a') ->
  forall i s r, P s -> forEach cb l i s = Some r -> P r.
Proof.
  induction l as [|x l IH]; intros Hstep i s r HP H; simpl in H.
  - injection H as <-. exact HP.
  - destruct (cb s x i) as [a'|] eqn:E; [|discriminate].
    apply (IH (fun y j a b Hy => Hstep y j a b (or_intror Hy)) (S i) a'); [|exact H].
    apply (Hstep x i s); [now left | exact HP | exact E].
Qed.

Lemma analyzeCodebase_parents files depth r :
  analyzeCodebase files depth = Some r -> Forall parent_ok (links r).
Proof.
  unfold analyzeCodebase.
  destruct (file_pass_map files) as [_ Hget].
  destruct (file_pass files) as [nodes0 fileNodes]. simpl in Hget.
  set (st0 := {| out_nodes := nodes0; out_links := []; currentClass := None |}).
  destruct (forEach (process_file fileNodes depth) files 0 st0) as [st|] eqn:E;
    [|discriminate].
  intros H. injection H as <-. simpl.
  apply (forEach_preserves_in (process_file fileNodes depth)
           (fun st => Forall parent_ok (out_links st)) files)
    with (i := 0) (s := st0); [| constructor | exact E].
  intros f j a a' Hf Ha. unfold process_file. rewrite (Hget f Hf). intros E1.
  apply (forEach_preserves (process_line fileNodes f (split (content f) newline)
                              (file_id (path f)) depth) (parents_ok f))
    in E1; [now destruct E1 | | split; [exact Ha | discriminate]].
  intros line index s1 s1'. apply process_line_parents.
Qed.

(** X17. Every Contains edge of the graph either starts at a File id
    (FILE: and a path), or joins a Class id and a Function id made from
    one path that ends with .py. *)
Theorem contains_parents (files : list CodeFile) (depth : Z) :
  exists r, analyzeCodebase files depth = Some r /\
    forall l, In l (links r) -> link_type l = CONTAINS ->
      (exists p, source l = lit "FILE:" ++ p) \/
      (exists p cn fn, endsWith p (lit ".py") = true /\
                       source l = generateId (lit "CLASS") cn p /\
                       target l = generateId (lit "FUNCTION") fn p).
Proof.
  destruct (analyzeCodebase_returns files depth) as (r & Hr).
  exists r. split; [exact Hr|]. intros l Hl.
  exact (proj1 (Forall_forall _ _) (analyzeCodebase_parents files depth r Hr) l Hl).
Qed.

Lemma contains_parents_witness :
  exists r, analyzeCodebase [widget_ts] 3 = Some r /\
    In (contains (lit "FILE:widget.ts") (lit "FUNCTION:widget.ts:draw")) (links r) /\
    ((exists p, lit "FILE:widget.ts" = lit "FILE:" ++ p) \/
     (exists p cn fn, endsWith p (lit ".py") = true /\
                      lit "FILE:widget.ts" = generateId (lit "CLASS") cn p /\
                      lit "FUNCTION:widget.ts:draw" = generateId (lit "FUNCTION") fn p)).
Proof.
  destruct (contains_parents [widget_ts] 3) as (r & Hr & H).
  exists r.
  assert (Hl : In (contains (lit "FILE:widget.ts") (lit "FUNCTION:widget.ts:draw"))
                  (links r)).
  { vm_compute in Hr. injection Hr as <-. vm_compute. auto. }
  split; [exact Hr|]. split; [exact Hl|]. exact (H _ Hl eq_refl).
Defined.
